(** * CudaFFT3D: the 3D mixed-radix FFT planner of the CUDA platform

    A shallow embedding of [platforms/cuda/src/CudaFFT3D.cpp] and of the
    handle type of [platforms/cuda/include/CudaFunctionFake.h].

    - C++ [int] values are integers of [Z] together with the 32-bit
      two's-complement wrap-around of [Int32.wrap] (what the hardware does
      where the C++ standard leaves signed overflow undefined); [/] and [%]
      are the truncating [Z.quot] and [Z.rem].
    - Every [while] loop is a [Fixpoint] over an explicit iteration budget
      (the [fuel] argument); a loop that exceeds it yields [OutOfFuel].
    - [throw OpenMMException(msg)] is the outcome [Throws msg].
    - The kernel source text assembled by [createKernel] is kept as the list
      of per-pass parameters that are spliced into the text, followed by the
      literal text of the final write-back stage. *)

From Stdlib Require Import ZArith List Lia Bool String Ascii Znumtheory.
From Stdlib Require Import DecimalString Permutation.
Import ListNotations.
Local Open Scope Z_scope.
#[local] Set Warnings "-deprecated".

(** ** 32-bit signed integers *)

Module Int32.

Definition min_int : Z := -2147483648.
Definition max_int : Z := 2147483647.

Definition in_range (z : Z) : Prop := min_int <= z <= max_int.

(** Two's-complement reduction of a mathematical integer. *)
Definition wrap (z : Z) : Z := (z + 2147483648) mod 4294967296 - 2147483648.

Definition add (a b : Z) : Z := wrap (a + b).
Definition sub (a b : Z) : Z := wrap (a - b).
Definition mul (a b : Z) : Z := wrap (a * b).
(** [a / b] and [a % b] of C++ truncate towards zero. *)
Definition div (a b : Z) : Z := wrap (Z.quot a b).
Definition rem (a b : Z) : Z := Z.rem a b.
(** [x++] *)
Definition incr (a : Z) : Z := add a 1.

Definition max (a b : Z) : Z := if a <? b then b else a.

End Int32.

(** ** Outcomes of a call: a value, an exception, or an exhausted budget *)

Inductive outcome (A : Type) : Type :=
| Returns (a : A)
| Throws (msg : string)
| OutOfFuel.

Arguments Returns {A} a.
Arguments Throws {A} msg.
Arguments OutOfFuel {A}.

Definition bind {A B : Type} (c : outcome A) (k : A -> outcome B) : outcome B :=
  match c with
  | Returns a => k a
  | Throws msg => Throws msg
  | OutOfFuel => OutOfFuel
  end.

Notation "x <- c ;; k" := (bind c (fun x => k))
  (at level 61, c at next level, right associativity).
Notation "' p <- c ;; k" := (bind c (fun x => let 'p := x in k))
  (at level 61, p pattern, c at next level, right associativity).

(** ** Loops *)

Section While.
Context {St : Type}.
Variable cond : St -> bool.
Variable body : St -> outcome St.

(** [while (cond) body], run for at most [fuel] tests of the condition. *)
Fixpoint while (fuel : nat) (s : St) : outcome St :=
  match fuel with
  | O => OutOfFuel
  | S fuel' =>
      if cond s then s' <- body s ;; while fuel' s' else Returns s
  end.
End While.

(** ** Text helpers *)

Local Open Scope string_scope.

Definition nl : string := String (ascii_of_nat 10) EmptyString.

(** [context.intToString]: the decimal rendering of an [int]. *)
Definition intToString (z : Z) : string := NilZero.string_of_int (Z.to_int z).

(** [true] when [needle] occurs in [hay]. *)
Fixpoint contains (needle hay : string) : bool :=
  match hay with
  | EmptyString => match needle with EmptyString => true | _ => false end
  | String _ rest => prefix needle hay || contains needle rest
  end.

Local Close Scope string_scope.

(** ** The execution context, as far as this file reads it

    [context.doubleToString(M_PI)] is carried as a field: its value is a
    floating-point rendering that the planner only passes through. *)

Record CudaContext : Type := {
  getUseDoublePrecision : bool;
  M_PI_text : string
}.

(** ** getSmallestRadix *)

(** The condition and body of
    [while (unfactored%radix == 0) { minRadix = radix; unfactored /= radix; }]
    on the pair [(minRadix, unfactored)]. *)
Definition radix_divides (radix : Z) (st : Z * Z) : bool :=
  Int32.rem (snd st) radix =? 0.

Definition take_radix (radix : Z) (st : Z * Z) : outcome (Z * Z) :=
  Returns (radix, Int32.div (snd st) radix).

Definition exhaust (fuel : nat) (radix : Z) (st : Z * Z) : outcome (Z * Z) :=
  while (radix_divides radix) (take_radix radix) fuel st.

Definition getSmallestRadix (fuel : nat) (size : Z) : outcome Z :=
  let minRadix := 1 in
  let unfactored := size in
  st <- exhaust fuel 7 (minRadix, unfactored) ;;
  st <- exhaust fuel 5 st ;;
  st <- exhaust fuel 4 st ;;
  st <- exhaust fuel 3 st ;;
  st <- exhaust fuel 2 st ;;
  Returns (fst st).

(** The same five loops, also recording the radix assigned to [minRadix] at
    every iteration (a ghost trace; the code keeps only the last one). *)
Definition take_radix_traced (radix : Z) (st : Z * Z * list Z) : outcome (Z * Z * list Z) :=
  let '(minRadix, unfactored, trace) := st in
  Returns (radix, Int32.div unfactored radix, trace ++ [radix]).

Definition radix_divides_traced (radix : Z) (st : Z * Z * list Z) : bool :=
  radix_divides radix (fst st).

Definition exhaust_traced (fuel : nat) (radix : Z) (st : Z * Z * list Z) :
  outcome (Z * Z * list Z) :=
  while (radix_divides_traced radix) (take_radix_traced radix) fuel st.

Definition getSmallestRadix_traced (fuel : nat) (size : Z) : outcome (Z * list Z) :=
  st <- exhaust_traced fuel 7 (1, size, []) ;;
  st <- exhaust_traced fuel 5 st ;;
  st <- exhaust_traced fuel 4 st ;;
  st <- exhaust_traced fuel 3 st ;;
  st <- exhaust_traced fuel 2 st ;;
  Returns (fst (fst st), snd st).

(** ** findLegalDimension *)

(** [while (unfactored > 1 && unfactored%factor == 0) unfactored /= factor;] *)
Definition still_divisible (factor unfactored : Z) : bool :=
  (1 <? unfactored) && (Int32.rem unfactored factor =? 0).

Definition divide_by (factor unfactored : Z) : outcome Z :=
  Returns (Int32.div unfactored factor).

Definition divide_out (fuel : nat) (factor unfactored : Z) : outcome Z :=
  while (still_divisible factor) (divide_by factor) fuel unfactored.

(** [for (int factor = 2; factor < 8; factor++)] around it, on the pair
    [(factor, unfactored)]. *)
Definition trial_division (fuel : nat) (unfactored : Z) : outcome Z :=
  st <- while (fun st : Z * Z => fst st <? 8)
              (fun st => u <- divide_out fuel (fst st) (snd st) ;;
                         Returns (Int32.incr (fst st), u))
              fuel (2, unfactored) ;;
  Returns (snd st).

(** The [while (true)] search: a candidate that reduces to 1 is returned, any
    other is incremented and tried again.  [inner] is the budget handed to
    the loops of [trial_division]. *)
Fixpoint search (inner fuel : nat) (minimum : Z) : outcome Z :=
  match fuel with
  | O => OutOfFuel
  | S fuel' =>
      unfactored <- trial_division inner minimum ;;
      if unfactored =? 1
      then Returns minimum
      else search inner fuel' (Int32.incr minimum)
  end.

Definition findLegalDimension (fuel : nat) (minimum : Z) : outcome Z :=
  if minimum <? 1 then Returns 1 else search fuel fuel minimum.

(** ** Kernel text, modules and handles (CudaFunctionFake.h) *)

(** One emitted pass of the stage loop: the integers spliced into its text.
    The butterfly arithmetic of the pass is fixed by [sc_radix]; it reads
    buffer [sc_input] at stride [sc_stride] and writes buffer [sc_output] at
    stride [sc_m], with twiddles [w[j*k*sc_zsize/(sc_radix*sc_L)]]. *)
Record StageCode : Type := {
  sc_pass : Z;
  sc_radix : Z;
  sc_input : Z;
  sc_output : Z;
  sc_guard : option Z;
  sc_stride : Z;
  sc_zsize : Z;
  sc_m : Z;
  sc_L : Z
}.

(** The [replacements] map handed to [context.replaceStrings] for the axis
    kernel template. *)
Record Replacements : Type := {
  r_XSIZE : string;
  r_YSIZE : string;
  r_ZSIZE : string;
  r_BLOCKS_PER_GROUP : string;
  r_THREADS_PER_BLOCK : string;
  r_M_PI : string;
  r_COMPUTE_FFT : list StageCode * string;
  r_SIGN : string;
  r_INPUT_TYPE : string;
  r_OUTPUT_TYPE : string;
  r_INPUT_IS_REAL : string;
  r_INPUT_IS_PACKED : string;
  r_OUTPUT_IS_PACKED : string
}.

(** The [defines] map of the packing module. *)
Record PackDefines : Type := {
  d_XSIZE : string;
  d_YSIZE : string;
  d_ZSIZE : string;
  d_PACKED_AXIS : string;
  d_PACKED_XSIZE : string;
  d_PACKED_YSIZE : string;
  d_PACKED_ZSIZE : string;
  d_M_PI : string
}.

(** [context.createModule]: a module is identified by what it was built from. *)
Inductive CUmodule : Type :=
| FFTModule (replacements : Replacements)
| R2CModule (defines : PackDefines).

(** [context.getKernel(module, name)]: an entry point of a module. *)
Record CUfunc_st : Type := {
  fn_module : CUmodule;
  fn_name : string
}.

(** [class CUfunctionFake]: a possibly null [CUfunc_st*], a vector of further
    pointers and the flag [hasMultiple]. *)
Record CUfunctionFake : Type := {
  func_ptr : option CUfunc_st;
  func_ptrs : list CUfunc_st;
  hasMultiple : bool
}.

Module Fake.
(** [CUfunctionFake()] *)
Definition default : CUfunctionFake :=
  {| func_ptr := None; func_ptrs := []; hasMultiple := false |}.
(** [CUfunctionFake(CUfunc_st* ptr)] *)
Definition of_ptr (ptr : CUfunc_st) : CUfunctionFake :=
  {| func_ptr := Some ptr; func_ptrs := []; hasMultiple := false |}.
(** [operator=(CUfunc_st* ptr)] *)
Definition assign (f : CUfunctionFake) (ptr : CUfunc_st) : CUfunctionFake :=
  {| func_ptr := Some ptr; func_ptrs := func_ptrs f; hasMultiple := hasMultiple f |}.
Definition addFunction (f : CUfunctionFake) (ptr : CUfunc_st) : CUfunctionFake :=
  {| func_ptr := func_ptr f; func_ptrs := func_ptrs f ++ [ptr]; hasMultiple := true |}.
Definition hasMultipleFunctions (f : CUfunctionFake) : bool := hasMultiple f.
Definition getFunctions (f : CUfunctionFake) : list CUfunc_st := func_ptrs f.
End Fake.

Definition getKernel (module : CUmodule) (name : string) : CUfunctionFake :=
  Fake.of_ptr {| fn_module := module; fn_name := name |}.

(** ** createKernel *)

Record LoopState : Type := {
  ls_L : Z;
  ls_m : Z;
  ls_stage : Z;
  ls_source : list StageCode
}.

(** The [if (L%7 == 0) ... else if (L%2 == 0) ... else throw] cascade;
    [None] is the [throw] branch. *)
Definition pick_radix (L : Z) : option Z :=
  if Int32.rem L 7 =? 0 then Some 7
  else if Int32.rem L 5 =? 0 then Some 5
  else if Int32.rem L 4 =? 0 then Some 4
  else if Int32.rem L 3 =? 0 then Some 3
  else if Int32.rem L 2 =? 0 then Some 2
  else None.

Local Open Scope string_scope.

Definition illegal_size (zsize : Z) : string :=
  "Illegal size for FFT: " ++ intToString zsize.

Local Close Scope string_scope.

(** One iteration of [while (L > 1) { ... }]. *)
Definition stage_body (zsize threadsPerBlock blocksPerGroup : Z) (s : LoopState) :
  outcome LoopState :=
  let input := Int32.rem (ls_stage s) 2 in
  let output := Int32.sub 1 input in
  match pick_radix (ls_L s) with
  | None => Throws (illegal_size zsize)
  | Some radix =>
      let L := Int32.div (ls_L s) radix in
      let m := ls_m s in
      let code := {|
        sc_pass := Int32.add (ls_stage s) 1;
        sc_radix := radix;
        sc_input := input;
        sc_output := output;
        sc_guard := if Int32.mul L m <? threadsPerBlock
                    then Some (Int32.mul (Int32.mul blocksPerGroup L) m)
                    else None;
        sc_stride := Int32.mul L m;
        sc_zsize := zsize;
        sc_m := m;
        sc_L := L |} in
      Returns {| ls_L := L;
                 ls_m := Int32.mul m radix;
                 ls_stage := Int32.incr (ls_stage s);
                 ls_source := ls_source s ++ [code] |}
  end.

(** The condition [L > 1] of the loop. *)
Definition stage_continues (s : LoopState) : bool := 1 <? ls_L s.

Definition stage_loop (fuel : nat) (zsize threadsPerBlock blocksPerGroup : Z) :
  outcome LoopState :=
  while stage_continues (stage_body zsize threadsPerBlock blocksPerGroup) fuel
        {| ls_L := zsize; ls_m := 1; ls_stage := 0; ls_source := [] |}.

Local Open Scope string_scope.

(** The text appended after the loop (the write-back to [out]). *)
Definition final_stage (stage : Z) (outputIsReal outputIsPacked : bool) : string :=
  let outputSuffix := if outputIsReal then ".x" else EmptyString in
  (if outputIsPacked
   then "if (index < XSIZE*YSIZE && x < XSIZE/2+1)" ++ nl
   else "if (index < XSIZE*YSIZE)" ++ nl)
  ++ "for (int i = threadIdx.x-block*THREADS_PER_BLOCK; i < ZSIZE; i += THREADS_PER_BLOCK)" ++ nl
  ++ (if outputIsPacked
      then "out[y*(ZSIZE*(XSIZE/2+1))+i*(XSIZE/2+1)+x] = data"
             ++ intToString (Int32.rem stage 2) ++ "[i+block*ZSIZE]" ++ outputSuffix ++ ";" ++ nl
      else "out[y*(ZSIZE*XSIZE)+i*XSIZE+x] = data"
             ++ intToString (Int32.rem stage 2) ++ "[i+block*ZSIZE]" ++ outputSuffix ++ ";" ++ nl).

(** The text of [source] after the loop and the [replacements] map built
    from it (the statements that follow the loop in [createKernel]). *)
Definition replacements_of (context : CudaContext)
    (xsize ysize zsize : Z) (axis : Z) (forward inputIsReal : bool)
    (blocksPerGroup threadsPerBlock : Z) (s : LoopState) : Replacements :=
  let outputIsReal := inputIsReal && (axis =? 2)%Z && negb forward in
  let outputIsPacked := inputIsReal && (axis =? 2)%Z && forward in
  let source := (ls_source s, final_stage (ls_stage s) outputIsReal outputIsPacked) in
  {| r_XSIZE := intToString xsize;
     r_YSIZE := intToString ysize;
     r_ZSIZE := intToString zsize;
     r_BLOCKS_PER_GROUP := intToString blocksPerGroup;
     r_THREADS_PER_BLOCK := intToString threadsPerBlock;
     r_M_PI := M_PI_text context;
     r_COMPUTE_FFT := source;
     r_SIGN := if forward then "1" else "-1";
     r_INPUT_TYPE := if inputIsReal && (axis =? 0)%Z && forward then "real" else "real2";
     r_OUTPUT_TYPE := if outputIsReal then "real" else "real2";
     r_INPUT_IS_REAL := if inputIsReal && (axis =? 0)%Z && forward then "1" else "0";
     r_INPUT_IS_PACKED := if inputIsReal && (axis =? 0)%Z && negb forward then "1" else "0";
     r_OUTPUT_IS_PACKED := if outputIsPacked then "1" else "0" |}.

(** [createKernel]; the reference parameter [threads] is the second
    component of the result. *)
Definition createKernel (context : CudaContext) (fuel : nat)
    (xsize ysize zsize : Z) (axis : Z) (forward inputIsReal : bool) :
  outcome (CUfunctionFake * Z) :=
  let maxThreads := if getUseDoublePrecision context then 128 else 256 in
  smallest <- getSmallestRadix fuel zsize ;;
  let threadsPerBlock := Int32.div zsize smallest in
  let blocksPerGroup := Int32.max 1 (Int32.div maxThreads threadsPerBlock) in
  s <- stage_loop fuel zsize threadsPerBlock blocksPerGroup ;;
  let replacements :=
    replacements_of context xsize ysize zsize axis forward inputIsReal
                    blocksPerGroup threadsPerBlock s in
  let kernel := getKernel (FFTModule replacements) "execFFT" in
  let threads := Int32.mul blocksPerGroup threadsPerBlock in
  Returns (kernel, threads).

Local Close Scope string_scope.

(** ** The plan: class CudaFFT3D *)

Record CudaFFT3D : Type := {
  xsize : Z;
  ysize : Z;
  zsize : Z;
  packRealAsComplex : bool;
  zthreads : Z;
  xthreads : Z;
  ythreads : Z;
  zkernel : CUfunctionFake;
  xkernel : CUfunctionFake;
  ykernel : CUfunctionFake;
  invzkernel : CUfunctionFake;
  invxkernel : CUfunctionFake;
  invykernel : CUfunctionFake;
  packForwardKernel : CUfunctionFake;
  unpackForwardKernel : CUfunctionFake;
  packBackwardKernel : CUfunctionFake;
  unpackBackwardKernel : CUfunctionFake
}.

(** The locals of the constructor once its packing search is over;
    [packedAxis] and [bufferSize] stay unset when no branch assigns them. *)
Record Packing : Type := {
  pk_packRealAsComplex : bool;
  pk_packedAxis : option Z;
  pk_bufferSize : option Z;
  packedXSize : Z;
  packedYSize : Z;
  packedZSize : Z
}.

Definition choosePacking (xsize ysize zsize : Z) (realToComplex : bool) : Packing :=
  let unpacked := {| pk_packRealAsComplex := false; pk_packedAxis := None;
                     pk_bufferSize := None; packedXSize := xsize;
                     packedYSize := ysize; packedZSize := zsize |} in
  if realToComplex then
    if Int32.rem xsize 2 =? 0 then
      {| pk_packRealAsComplex := true; pk_packedAxis := Some 0;
         pk_bufferSize := Some (Int32.div xsize 2);
         packedXSize := Int32.div xsize 2; packedYSize := ysize; packedZSize := zsize |}
    else if Int32.rem ysize 2 =? 0 then
      {| pk_packRealAsComplex := true; pk_packedAxis := Some 1;
         pk_bufferSize := Some (Int32.div ysize 2);
         packedXSize := xsize; packedYSize := Int32.div ysize 2; packedZSize := zsize |}
    else if Int32.rem zsize 2 =? 0 then
      {| pk_packRealAsComplex := true; pk_packedAxis := Some 2;
         pk_bufferSize := Some (Int32.div zsize 2);
         packedXSize := xsize; packedYSize := ysize; packedZSize := Int32.div zsize 2 |}
    else unpacked
  else unpacked.

Local Open Scope string_scope.

(** The module of the four packing kernels, built only when packing. *)
Definition packModule (context : CudaContext) (xsize ysize zsize : Z) (p : Packing) : CUmodule :=
  R2CModule {|
    d_XSIZE := intToString xsize;
    d_YSIZE := intToString ysize;
    d_ZSIZE := intToString zsize;
    d_PACKED_AXIS := match pk_packedAxis p with
                     | Some a => intToString a
                     | None => EmptyString
                     end;
    d_PACKED_XSIZE := intToString (packedXSize p);
    d_PACKED_YSIZE := intToString (packedYSize p);
    d_PACKED_ZSIZE := intToString (packedZSize p);
    d_M_PI := M_PI_text context |}.

(** The constructor [CudaFFT3D::CudaFFT3D]. *)
Definition new_CudaFFT3D (context : CudaContext) (fuel : nat)
    (xsize ysize zsize : Z) (realToComplex : bool) : outcome CudaFFT3D :=
  let p := choosePacking xsize ysize zsize realToComplex in
  let packRealAsComplex := pk_packRealAsComplex p in
  let module := packModule context xsize ysize zsize p in
  let pack name := if packRealAsComplex then getKernel module name else Fake.default in
  let inputIsReal := realToComplex && negb packRealAsComplex in
  let px := packedXSize p in
  let py := packedYSize p in
  let pz := packedZSize p in
  '(zkernel, zthreads) <- createKernel context fuel px py pz 0 true inputIsReal ;;
  '(xkernel, xthreads) <- createKernel context fuel py pz px 1 true inputIsReal ;;
  '(ykernel, ythreads) <- createKernel context fuel pz px py 2 true inputIsReal ;;
  '(invzkernel, zthreads) <- createKernel context fuel px py pz 0 false inputIsReal ;;
  '(invxkernel, xthreads) <- createKernel context fuel py pz px 1 false inputIsReal ;;
  '(invykernel, ythreads) <- createKernel context fuel pz px py 2 false inputIsReal ;;
  Returns {|
    xsize := xsize; ysize := ysize; zsize := zsize;
    packRealAsComplex := packRealAsComplex;
    zthreads := zthreads; xthreads := xthreads; ythreads := ythreads;
    zkernel := zkernel; xkernel := xkernel; ykernel := ykernel;
    invzkernel := invzkernel; invxkernel := invxkernel; invykernel := invykernel;
    packForwardKernel := pack "packForwardData";
    unpackForwardKernel := pack "unpackForwardData";
    packBackwardKernel := pack "packBackwardData";
    unpackBackwardKernel := pack "unpackBackwardData" |}.

Local Close Scope string_scope.

(** ** execFFT *)

Record CudaArray : Type := { getDevicePointer : Z }.

(** One call of [context.executeKernel(kernel, args, threads, blockSize)]. *)
Record Launch : Type := {
  launch_kernel : CUfunctionFake;
  launch_args : list Z;
  launch_threads : Z;
  launch_blockSize : Z
}.

(** The context's launch queue is threaded through as a list, oldest first. *)
Definition executeKernel (kernel : CUfunctionFake) (args : list Z)
    (threads blockSize : Z) (queue : list Launch) : list Launch :=
  queue ++ [{| launch_kernel := kernel; launch_args := args;
               launch_threads := threads; launch_blockSize := blockSize |}].

Definition execFFT (plan : CudaFFT3D) (in_ out : CudaArray) (forward : bool)
    (queue : list Launch) : list Launch :=
  let kernel1 := if forward then zkernel plan else invzkernel plan in
  let kernel2 := if forward then xkernel plan else invxkernel plan in
  let kernel3 := if forward then ykernel plan else invykernel plan in
  let args1 := [getDevicePointer in_; getDevicePointer out] in
  let args2 := [getDevicePointer out; getDevicePointer in_] in
  if packRealAsComplex plan then
    let packKernel := if forward then packForwardKernel plan else packBackwardKernel plan in
    let unpackKernel := if forward then unpackForwardKernel plan else unpackBackwardKernel plan in
    let gridSize :=
      Int32.div (Int32.mul (Int32.mul (xsize plan) (ysize plan)) (zsize plan)) 2 in
    let queue := executeKernel packKernel args1 gridSize 128 queue in
    let queue := executeKernel kernel1 args2 gridSize (zthreads plan) queue in
    let queue := executeKernel kernel2 args1 gridSize (xthreads plan) queue in
    let queue := executeKernel kernel3 args2 gridSize (ythreads plan) queue in
    executeKernel unpackKernel args1 gridSize 128 queue
  else
    let elements := Int32.mul (Int32.mul (xsize plan) (ysize plan)) (zsize plan) in
    let queue := executeKernel kernel1 args1 elements (zthreads plan) queue in
    let queue := executeKernel kernel2 args2 elements (xthreads plan) queue in
    executeKernel kernel3 args1 elements (ythreads plan) queue.

(** ** Legal sizes *)

(** [n] is positive and every prime that divides it is 2, 3, 5 or 7. *)
Definition smooth7 (n : Z) : Prop :=
  0 < n /\ forall p, prime p -> (p | n) -> p = 2 \/ p = 3 \/ p = 5 \/ p = 7.

Fixpoint product (l : list Z) : Z :=
  match l with
  | [] => 1
  | r :: l' => r * product l'
  end.

Fixpoint minimum_of (l : list Z) : option Z :=
  match l with
  | [] => None
  | r :: l' => match minimum_of l' with
               | None => Some r
               | Some r' => Some (Z.min r r')
               end
  end.

(** The radices of the emitted passes, first pass first. *)
Definition radices (source : list StageCode) : list Z := map sc_radix source.

(** ** Runs of a loop *)

Section Iterations.
Context {St : Type}.
Variable cond : St -> bool.
Variable body : St -> outcome St.

(** [iter k s s']: [k] successive iterations, each entered with a true
    condition and finished normally, lead from [s] to [s']. *)
Inductive iter : nat -> St -> St -> Prop :=
| iter_O s : iter O s s
| iter_S k s s' s'' :
    cond s = true -> body s = Returns s' -> iter k s' s'' -> iter (S k) s s''.
End Iterations.

(** ** The decomposition in the words of the specification *)

(** [r] is the first of 7, 5, 4, 3, 2 (in this order) that divides [L]. *)
Definition first_divisor (r L : Z) : Prop :=
  exists before after,
    [7; 5; 4; 3; 2] = before ++ r :: after /\
    (r | L) /\
    Forall (fun q => ~ (q | L)) before.

(** [chain L passes Lend]: starting from remaining length [L], every pass
    takes the first divisor of the current length as its radix and leaves the
    quotient; [Lend] is what remains after the last pass. *)
Fixpoint chain (L : Z) (passes : list StageCode) (Lend : Z) : Prop :=
  match passes with
  | [] => L = Lend
  | c :: rest =>
      first_divisor (sc_radix c) L /\ L = sc_radix c * sc_L c /\ chain (sc_L c) rest Lend
  end.

(** The same on bare radix lists: each radix is the first divisor of the
    length that is current when it is taken. *)
Fixpoint rchain (L : Z) (rs : list Z) (Lend : Z) : Prop :=
  match rs with
  | [] => L = Lend
  | r :: rest => first_divisor r L /\ rchain (Z.quot L r) rest Lend
  end.

(** What the loops of [getSmallestRadix] maintain between [minRadix] and the
    radices taken so far, all of which are at least [bound]. *)
Definition trace_inv (bound minRadix : Z) (trace : list Z) : Prop :=
  Forall (fun x => bound <= x <= 7) trace /\
  (trace = [] -> minRadix = 1) /\
  (trace <> [] -> minimum_of trace = Some minRadix).

(** ** Reading a kernel handle back *)

(** The replacements an axis kernel was built from. *)
Definition kernel_replacements (kernel : CUfunctionFake) : option Replacements :=
  match func_ptr kernel with
  | Some {| fn_module := FFTModule r |} => Some r
  | _ => None
  end.

(** The entry-point name behind a handle. *)
Definition kernel_name (kernel : CUfunctionFake) : option string :=
  option_map fn_name (func_ptr kernel).

(** A legal size near the top of [int]: [3^6 * 5^2 * 7^6]. *)
Definition top_legal : Z := 2144153025.

(** ** Sample context *)

Local Open Scope string_scope.

(** A single-precision context. *)
Definition single_precision : CudaContext :=
  {| getUseDoublePrecision := false; M_PI_text := "3.141592653589793" |}.

(** A double-precision context. *)
Definition double_precision : CudaContext :=
  {| getUseDoublePrecision := true; M_PI_text := "3.141592653589793" |}.

Local Close Scope string_scope.

(** ** Buffer roles of a launch *)

(** Modelled from the spec: the kernel templates ([CudaKernelSources::fft]
    and [CudaKernelSources::fftR2C]) are not among the sources at hand.  A
    kernel launched with the argument array [{a, b}] reads buffer [a] and
    writes buffer [b]: the specification renders the launch with
    [{in, out}] as [out = f(in)]. *)
Definition launch_source (l : Launch) : option Z := nth_error (launch_args l) 0.
Definition launch_destination (l : Launch) : option Z := nth_error (launch_args l) 1.

(** The roles of the direct path in the words of the specification:
    [out = f(in)], then [in = f(out)], then [out = f(in)], as
    (source, destination) pairs. *)
Definition direct_alternation (in_ out : CudaArray) : list (option Z * option Z) :=
  [(Some (getDevicePointer in_), Some (getDevicePointer out));
   (Some (getDevicePointer out), Some (getDevicePointer in_));
   (Some (getDevicePointer in_), Some (getDevicePointer out))].

Definition launch_roles (l : Launch) : option Z * option Z :=
  (launch_source l, launch_destination l).

(** The launches between the first and the last of a queue. *)
Definition inner_launches (queue : list Launch) : list Launch :=
  removelast (tl queue).

(** Two device buffers. *)
Definition buffer_a : CudaArray := {| getDevicePointer := 4096 |}.
Definition buffer_b : CudaArray := {| getDevicePointer := 8192 |}.

(** ** What the final stage writes *)

Local Open Scope string_scope.

(** The write-back keeps the [.x] component only. *)
Definition writes_real_only (text : string) : bool :=
  contains "[i+block*ZSIZE].x;" text.

(** The write-back is guarded by [x < XSIZE/2+1] and uses rows of
    [XSIZE/2+1] columns. *)
Definition writes_half_columns (text : string) : bool :=
  contains "if (index < XSIZE*YSIZE && x < XSIZE/2+1)" text &&
  contains "out[y*(ZSIZE*(XSIZE/2+1))+i*(XSIZE/2+1)+x] = " text.

(** The write-back covers every column of rows of [XSIZE] columns. *)
Definition writes_all_columns (text : string) : bool :=
  contains ("if (index < XSIZE*YSIZE)" ++ nl) text &&
  contains "out[y*(ZSIZE*XSIZE)+i*XSIZE+x] = " text.

Local Close Scope string_scope.

(** ** Enumerating the legal sizes *)

(** [start], [start*p], [start*p^2], ... as long as they do not exceed
    [bound]. *)
Fixpoint powers (fuel : nat) (p bound start : Z) : list Z :=
  match fuel with
  | O => []
  | S fuel' =>
      if start <=? bound then start :: powers fuel' p bound (start * p) else []
  end.

(** Every product [2^a * 3^b * 5^c * 7^d] up to [bound]. *)
Definition smooth_upto (bound : Z) : list Z :=
  flat_map (fun x7 =>
    flat_map (fun x5 =>
      flat_map (fun x3 => powers 32 2 bound x3) (powers 32 3 bound x5))
      (powers 32 5 bound x7))
    (powers 32 7 bound 1).

(** ** Results of the legalizer *)

(** [findLegalDimension(minimum)] is [r]: every budget that covers the
    candidates from [minimum] to [r] returns [r]. *)
Definition legalizes (minimum r : Z) : Prop :=
  forall fuel, (32 <= fuel)%nat -> r - minimum < Z.of_nat fuel ->
               findLegalDimension fuel minimum = Returns r.

(** ** Shape of the emitted passes *)

(** The passes swap the two buffers in turn: a pass reads [from] and writes
    the other buffer, which the next pass reads; [last] is the buffer
    written by the final pass ([from] itself when there is no pass). *)
Fixpoint ping_pong (from : Z) (passes : list StageCode) (last : Z) : Prop :=
  match passes with
  | [] => from = last
  | c :: rest =>
      sc_input c = from /\ sc_output c = 1 - from /\ ping_pong (1 - from) rest last
  end.

(** The passes are numbered from [pass] on, [m] is the product of the
    radices before each pass, the read stride of a pass is [L*m] and the
    radix times the stride is the axis length. *)
Fixpoint laid_out (zsize pass m : Z) (passes : list StageCode) : Prop :=
  match passes with
  | [] => True
  | c :: rest =>
      sc_pass c = pass /\ sc_zsize c = zsize /\ sc_m c = m /\
      sc_stride c = sc_L c * sc_m c /\ sc_radix c * sc_stride c = zsize /\
      laid_out zsize (pass + 1) (m * sc_radix c) rest
  end.

(** The [if (threadIdx.x < ...)] guard of a pass is present exactly when the
    pass needs fewer threads than a row has, and then admits
    [blocksPerGroup] times the stride. *)
Definition guarded (threadsPerBlock blocksPerGroup : Z) (c : StageCode) : Prop :=
  sc_guard c =
  if sc_stride c <? threadsPerBlock then Some (blocksPerGroup * sc_stride c) else None.

(** Each element is at most the one before it. *)
Fixpoint descending (l : list Z) : Prop :=
  match l with
  | [] => True
  | r :: rest =>
      match rest with
      | [] => True
      | r' :: _ => r' <= r
      end /\ descending rest
  end.

(** ** Plans and launch sequences *)

Local Open Scope string_scope.

(** An axis kernel that reads and writes full complex grids. *)
Definition complex_io (r : Replacements) : Prop :=
  r_INPUT_TYPE r = "real2" /\ r_OUTPUT_TYPE r = "real2" /\
  r_INPUT_IS_REAL r = "0" /\ r_INPUT_IS_PACKED r = "0" /\ r_OUTPUT_IS_PACKED r = "0".

Local Close Scope string_scope.

(** Each launch reads the buffer the previous one wrote: the first reads
    [first], the last writes [last] (roles as in [launch_source] and
    [launch_destination]). *)
Fixpoint chained (first : option Z) (launches : list Launch) (last : option Z) : Prop :=
  match launches with
  | [] => first = last
  | l :: rest => launch_source l = first /\ chained (launch_destination l) rest last
  end.

(** [addFunction] called for each pointer of a list in turn. *)
Definition add_all (f : CUfunctionFake) (ptrs : list CUfunc_st) : CUfunctionFake :=
  fold_left Fake.addFunction ptrs f.

(** * Properties *)

(** ** Arithmetic of [int] *)

Lemma wrap_in_range z : Int32.in_range z -> Int32.wrap z = z.
Proof.
  unfold Int32.in_range, Int32.wrap, Int32.min_int, Int32.max_int. intros H.
  rewrite Z.mod_small; lia.
Qed.

Lemma wrap_range z : Int32.in_range (Int32.wrap z).
Proof.
  unfold Int32.in_range, Int32.wrap, Int32.min_int, Int32.max_int.
  pose proof (Z.mod_pos_bound (z + 2147483648) 4294967296 ltac:(lia)). lia.
Qed.

Lemma quot_bounds u r : 0 <= u -> 1 <= r -> 0 <= Z.quot u r <= u.
Proof.
  intros Hu Hr. split.
  - apply Z.quot_pos; lia.
  - destruct (Z.eq_dec u 0) as [->|]; [rewrite Z.quot_0_l; lia|].
    destruct (Z.eq_dec r 1) as [->|]; [rewrite Z.quot_1_r; lia|].
    pose proof (Z.quot_lt u r ltac:(lia) ltac:(lia)). lia.
Qed.

Lemma div_exact u r : 0 <= u -> Int32.in_range u -> 1 <= r -> Int32.div u r = Z.quot u r.
Proof.
  intros Hu Hr H1. unfold Int32.div. apply wrap_in_range.
  pose proof (quot_bounds u r Hu H1). unfold Int32.in_range, Int32.min_int, Int32.max_int in *. lia.
Qed.

Lemma rem_zero_divide u r : r <> 0 -> (Int32.rem u r =? 0) = true <-> (r | u).
Proof.
  intros Hr. unfold Int32.rem. rewrite Z.eqb_eq. apply Z.rem_divide; assumption.
Qed.

Lemma rem_nonzero_not_divide u r : r <> 0 -> (Int32.rem u r =? 0) = false <-> ~ (r | u).
Proof.
  intros Hr. rewrite <- (rem_zero_divide u r Hr). destruct (Int32.rem u r =? 0); intuition congruence.
Qed.

Lemma quot_mul_exact u r : r <> 0 -> (r | u) -> u = r * Z.quot u r.
Proof.
  intros Hr Hd. apply Z.rem_divide in Hd; [|assumption].
  pose proof (Z.quot_rem' u r). lia.
Qed.

Lemma quot_lt_of_divide u r : 1 <= u -> 2 <= r -> (r | u) -> 1 <= Z.quot u r < u.
Proof.
  intros Hu Hr Hd. pose proof (quot_mul_exact u r ltac:(lia) Hd) as E.
  pose proof (quot_bounds u r ltac:(lia) ltac:(lia)). nia.
Qed.

(** ** Sizes whose prime factors are 2, 3, 5 and 7 *)

Lemma prime_5 : prime 5.
Proof.
  apply prime_intro; [lia|]. intros n Hn.
  assert (n = 1 \/ n = 2 \/ n = 3 \/ n = 4) as [ -> | [ -> | [ -> | -> ] ] ] by lia;
    apply Zgcd_1_rel_prime; reflexivity.
Qed.

Lemma prime_7 : prime 7.
Proof.
  apply prime_intro; [lia|]. intros n Hn.
  assert (n = 1 \/ n = 2 \/ n = 3 \/ n = 4 \/ n = 5 \/ n = 6)
    as [ -> | [ -> | [ -> | [ -> | [ -> | -> ] ] ] ] ] by lia;
    apply Zgcd_1_rel_prime; reflexivity.
Qed.

Lemma prime_divisor_exists_bounded (k : nat) :
  forall n, 1 < n -> n < Z.of_nat k -> exists p, prime p /\ (p | n).
Proof.
  induction k as [|k IH]; intros n H1 Hk; [lia|].
  destruct (prime_dec n) as [Hp|Hnp].
  - exists n. split; [assumption|apply Z.divide_refl].
  - destruct (not_prime_divide n H1 Hnp) as (d & Hd & Hdiv).
    destruct (IH d ltac:(lia) ltac:(lia)) as (p & Hp & Hpd).
    exists p. split; [assumption|]. eapply Z.divide_trans; eassumption.
Qed.

Lemma prime_divisor_exists n : 1 < n -> exists p, prime p /\ (p | n).
Proof.
  intros H. apply (prime_divisor_exists_bounded (Z.to_nat (n + 1))); lia.
Qed.

Lemma smooth7_1 : smooth7 1.
Proof.
  split; [lia|]. intros p Hp Hd. pose proof (prime_ge_2 p Hp).
  apply Z.divide_1_r_nonneg in Hd; lia.
Qed.

Lemma smooth7_prime q :
  prime q -> q = 2 \/ q = 3 \/ q = 5 \/ q = 7 -> smooth7 q.
Proof.
  intros Hq Hin. split; [pose proof (prime_ge_2 q Hq); lia|].
  intros p Hp Hd. rewrite (prime_div_prime p q Hp Hq Hd). assumption.
Qed.

Lemma smooth7_mul a b : smooth7 a -> smooth7 b -> smooth7 (a * b).
Proof.
  intros [Ha Pa] [Hb Pb]. split; [nia|].
  intros p Hp Hd. destruct (prime_mult p Hp a b Hd); auto.
Qed.

Lemma smooth7_divisor n d : smooth7 n -> 0 < d -> (d | n) -> smooth7 d.
Proof.
  intros [Hn Pn] Hd Hdiv. split; [assumption|].
  intros p Hp Hpd. apply Pn; [assumption|]. eapply Z.divide_trans; eassumption.
Qed.

Lemma smooth7_2 : smooth7 2.
Proof. apply smooth7_prime; [exact prime_2|auto]. Qed.
Lemma smooth7_3 : smooth7 3.
Proof. apply smooth7_prime; [exact prime_3|auto]. Qed.
Lemma smooth7_5 : smooth7 5.
Proof. apply smooth7_prime; [exact prime_5|auto]. Qed.
Lemma smooth7_7 : smooth7 7.
Proof. apply smooth7_prime; [exact prime_7|auto]. Qed.
Lemma smooth7_4 : smooth7 4.
Proof. change 4 with (2 * 2). apply smooth7_mul; apply smooth7_2. Qed.
Lemma smooth7_6 : smooth7 6.
Proof. change 6 with (2 * 3). apply smooth7_mul; [apply smooth7_2|apply smooth7_3]. Qed.

(** A legal size above 1 is divisible by one of the four primes. *)
Lemma smooth7_factor n :
  smooth7 n -> 1 < n -> (2 | n) \/ (3 | n) \/ (5 | n) \/ (7 | n).
Proof.
  intros [_ Pn] H1. destruct (prime_divisor_exists n H1) as (p & Hp & Hd).
  destruct (Pn p Hp Hd) as [ -> | [ -> | [ -> | -> ] ] ]; auto.
Qed.

Lemma smooth7_quot n r : smooth7 n -> 2 <= r -> (r | n) -> smooth7 (Z.quot n r).
Proof.
  intros Hn Hr Hd. pose proof Hn as [Hpos _].
  pose proof (quot_lt_of_divide n r ltac:(lia) Hr Hd).
  apply (smooth7_divisor n); [assumption|lia|].
  exists r. pose proof (quot_mul_exact n r ltac:(lia) Hd). lia.
Qed.

Lemma smooth7_unquot n r : 1 <= n -> smooth7 r -> (r | n) -> smooth7 (Z.quot n r) -> smooth7 n.
Proof.
  intros Hn Hr Hd Hq. pose proof Hr as [Hrpos _].
  rewrite (quot_mul_exact n r ltac:(lia) Hd). apply smooth7_mul; assumption.
Qed.

Lemma not_divide_quot n r q : r <> 0 -> (r | n) -> ~ (q | n) -> ~ (q | Z.quot n r).
Proof.
  intros Hr Hd Hq Hc. apply Hq. rewrite (quot_mul_exact n r Hr Hd).
  apply Z.divide_mul_r. assumption.
Qed.

(** ** Loops and their runs *)

Section WhileFacts.
Context {St : Type}.
Variable cond : St -> bool.
Variable body : St -> outcome St.

Lemma iter_trans k k' s s' s'' :
  iter cond body k s s' -> iter cond body k' s' s'' -> iter cond body (k + k') s s''.
Proof.
  induction 1 as [|k s s1 s2 Hc Hb _ IH]; intros H'; simpl; [assumption|].
  econstructor; eauto.
Qed.

Lemma iter_last k s s' s'' :
  iter cond body k s s' -> cond s' = true -> body s' = Returns s'' ->
  iter cond body (S k) s s''.
Proof.
  intros H Hc Hb. replace (S k) with (k + 1)%nat by lia.
  eapply iter_trans; [eassumption|]. econstructor; eauto. constructor.
Qed.

Lemma while_iter k s s' :
  iter cond body k s s' -> forall n, while cond body (k + n) s = while cond body n s'.
Proof.
  induction 1 as [|k s s1 s2 Hc Hb _ IH]; intros n; [reflexivity|].
  simpl. rewrite Hc, Hb. simpl. apply IH.
Qed.

(** A run that ends on a false condition is the result of the loop for
    every budget above its length. *)
Lemma while_returns k s s' fuel :
  iter cond body k s s' -> cond s' = false -> (k < fuel)%nat ->
  while cond body fuel s = Returns s'.
Proof.
  intros H Hc Hk. replace fuel with (k + S (fuel - k - 1))%nat by lia.
  rewrite (while_iter k s s' H). simpl. rewrite Hc. reflexivity.
Qed.

(** A run that ends where the body throws is an exception of the loop. *)
Lemma while_throws k s s' msg fuel :
  iter cond body k s s' -> cond s' = true -> body s' = Throws msg -> (k < fuel)%nat ->
  while cond body fuel s = Throws msg.
Proof.
  intros H Hc Hb Hk. replace fuel with (k + S (fuel - k - 1))%nat by lia.
  rewrite (while_iter k s s' H). simpl. rewrite Hc, Hb. reflexivity.
Qed.

(** A loop whose condition never turns false exhausts every budget. *)
Lemma while_diverges (P : St -> Prop) :
  (forall s, P s -> cond s = true /\ exists s', body s = Returns s' /\ P s') ->
  forall fuel s, P s -> while cond body fuel s = OutOfFuel.
Proof.
  intros Hstep. induction fuel as [|fuel IH]; intros s Hs; [reflexivity|].
  destruct (Hstep s Hs) as (Hc & s' & Hb & Hs'). simpl. rewrite Hc, Hb. simpl. auto.
Qed.
End WhileFacts.

(** ** The radix cascade *)

Lemma pick_radix_some L r :
  pick_radix L = Some r -> first_divisor r L /\ 2 <= r <= 7.
Proof.
  unfold pick_radix, first_divisor.
  destruct (Int32.rem L 7 =? 0) eqn:E7.
  { intros [= <-]. split; [|lia]. exists [], [5; 4; 3; 2].
    repeat split; [apply rem_zero_divide; [lia|assumption]|constructor]. }
  destruct (Int32.rem L 5 =? 0) eqn:E5.
  { intros [= <-]. split; [|lia]. exists [7], [4; 3; 2].
    repeat split; [apply rem_zero_divide; [lia|assumption]|].
    repeat constructor; apply rem_nonzero_not_divide; (lia || assumption). }
  destruct (Int32.rem L 4 =? 0) eqn:E4.
  { intros [= <-]. split; [|lia]. exists [7; 5], [3; 2].
    repeat split; [apply rem_zero_divide; [lia|assumption]|].
    repeat constructor; apply rem_nonzero_not_divide; (lia || assumption). }
  destruct (Int32.rem L 3 =? 0) eqn:E3.
  { intros [= <-]. split; [|lia]. exists [7; 5; 4], [2].
    repeat split; [apply rem_zero_divide; [lia|assumption]|].
    repeat constructor; apply rem_nonzero_not_divide; (lia || assumption). }
  destruct (Int32.rem L 2 =? 0) eqn:E2.
  { intros [= <-]. split; [|lia]. exists [7; 5; 4; 3], [].
    repeat split; [apply rem_zero_divide; [lia|assumption]|].
    repeat constructor; apply rem_nonzero_not_divide; (lia || assumption). }
  discriminate.
Qed.

Lemma pick_radix_none L :
  pick_radix L = None <->
  ~ (7 | L) /\ ~ (5 | L) /\ ~ (4 | L) /\ ~ (3 | L) /\ ~ (2 | L).
Proof.
  unfold pick_radix.
  rewrite <- !rem_nonzero_not_divide by lia.
  destruct (Int32.rem L 7 =? 0), (Int32.rem L 5 =? 0), (Int32.rem L 4 =? 0),
    (Int32.rem L 3 =? 0), (Int32.rem L 2 =? 0); intuition congruence.
Qed.

(** The cascade picks [r] as soon as [r] divides and nothing before it does. *)
Lemma pick_radix_first L r :
  first_divisor r L -> pick_radix L = Some r.
Proof.
  intros (before & after & Hl & Hd & Hb).
  assert (Hr : r <> 0).
  { intros ->. assert (In 0 [7; 5; 4; 3; 2]) as Hin
      by (rewrite Hl; apply in_or_app; right; left; reflexivity).
    simpl in Hin. lia. }
  apply (rem_zero_divide L r Hr) in Hd.
  unfold pick_radix.
  destruct before as [|b1 before]; simpl in Hl; injection Hl as <- Hl; [rewrite Hd; reflexivity|].
  apply Forall_inv in Hb as Hb1; apply Forall_inv_tail in Hb.
  apply rem_nonzero_not_divide in Hb1; [rewrite Hb1|lia].
  destruct before as [|b2 before]; simpl in Hl; injection Hl as <- Hl; [rewrite Hd; reflexivity|].
  apply Forall_inv in Hb as Hb2; apply Forall_inv_tail in Hb.
  apply rem_nonzero_not_divide in Hb2; [rewrite Hb2|lia].
  destruct before as [|b3 before]; simpl in Hl; injection Hl as <- Hl; [rewrite Hd; reflexivity|].
  apply Forall_inv in Hb as Hb3; apply Forall_inv_tail in Hb.
  apply rem_nonzero_not_divide in Hb3; [rewrite Hb3|lia].
  destruct before as [|b4 before]; simpl in Hl; injection Hl as <- Hl; [rewrite Hd; reflexivity|].
  apply Forall_inv in Hb as Hb4; apply Forall_inv_tail in Hb.
  apply rem_nonzero_not_divide in Hb4; [rewrite Hb4|lia].
  destruct before as [|b5 before]; simpl in Hl; injection Hl as <- Hl; [rewrite Hd; reflexivity|].
  destruct before; discriminate.
Qed.

Lemma first_divisor_smooth r L : first_divisor r L -> smooth7 r.
Proof.
  intros (before & after & Hl & _ & _).
  assert (In r [7; 5; 4; 3; 2]) as Hin
    by (rewrite Hl; apply in_or_app; right; left; reflexivity).
  simpl in Hin. destruct Hin as [<-|[<-|[<-|[<-|[<-|[]]]]]].
  - apply smooth7_7.
  - apply smooth7_5.
  - apply smooth7_4.
  - apply smooth7_3.
  - apply smooth7_2.
Qed.

Lemma pick_radix_none_not_smooth L : 1 < L -> pick_radix L = None -> ~ smooth7 L.
Proof.
  intros H1 Hn Hs. apply pick_radix_none in Hn.
  destruct (smooth7_factor L Hs H1) as [H|[H|[H|H]]]; tauto.
Qed.

Lemma chain_app L p1 Lmid p2 Lend :
  chain L p1 Lmid -> chain Lmid p2 Lend -> chain L (p1 ++ p2) Lend.
Proof.
  revert L. induction p1 as [|c p1 IH]; simpl; intros L.
  - intros -> H. assumption.
  - intros (Hf & HL & Hc) H. repeat split; auto.
Qed.

Lemma chain_product L passes Lend :
  chain L passes Lend -> product (radices passes) * Lend = L.
Proof.
  unfold radices. revert L. induction passes as [|c rest IH]; cbn [product map chain]; intros L.
  - intros ->. lia.
  - intros (_ & -> & Hc). rewrite <- Z.mul_assoc, (IH _ Hc). reflexivity.
Qed.

Lemma chain_smooth L passes Lend :
  1 <= Lend -> chain L passes Lend -> (smooth7 L <-> smooth7 Lend).
Proof.
  intros HLend. revert L. induction passes as [|c rest IH]; simpl; intros L.
  - intros ->. tauto.
  - intros (Hf & HL & Hc). rewrite <- (IH _ Hc). subst L.
    pose proof (first_divisor_smooth _ _ Hf) as Hr.
    split.
    + intros Hs. apply (smooth7_divisor _ _ Hs).
      * pose proof (chain_product _ _ _ Hc).
        destruct Hs as [Hpos _]. destruct Hr as [Hrpos _]. nia.
      * apply Z.divide_factor_r.
    + intros Hs. apply smooth7_mul; assumption.
Qed.

(** ** The stage loop of createKernel *)

Lemma pow2_int_bound k : 2 ^ Z.of_nat k <= Int32.max_int -> (k < 31)%nat.
Proof.
  unfold Int32.max_int. intros H.
  destruct (Nat.lt_ge_cases k 31) as [|Hge]; [assumption|exfalso].
  assert (2 ^ 31 <= 2 ^ Z.of_nat k) by (apply Z.pow_le_mono_r; lia).
  change (2 ^ 31) with 2147483648 in *. lia.
Qed.

Section StageLoop.
Variables zsize threadsPerBlock blocksPerGroup : Z.

Lemma stage_body_some s r :
  pick_radix (ls_L s) = Some r ->
  1 < ls_L s -> Int32.in_range (ls_L s) ->
  0 <= ls_stage s < Int32.max_int ->
  1 <= ls_m s -> ls_m s * ls_L s <= Int32.max_int ->
  exists c,
    sc_radix c = r /\ sc_L c = Z.quot (ls_L s) r /\
    sc_pass c = ls_stage s + 1 /\
    stage_body zsize threadsPerBlock blocksPerGroup s = Returns {| ls_L := Z.quot (ls_L s) r;
                        ls_m := ls_m s * r;
                        ls_stage := ls_stage s + 1;
                        ls_source := ls_source s ++ [c] |}.
Proof.
  intros Hp HL Hr Hst Hm HmL.
  destruct (pick_radix_some _ _ Hp) as [(b & a & _ & Hd & _) Hr27].
  pose proof (quot_lt_of_divide (ls_L s) r ltac:(lia) ltac:(lia) Hd) as Hq.
  pose proof (quot_mul_exact (ls_L s) r ltac:(lia) Hd) as HLr.
  unfold stage_body. rewrite Hp.
  rewrite (div_exact (ls_L s) r) by first [assumption|lia].
  unfold Int32.incr.
  assert (Hadd : Int32.add (ls_stage s) 1 = ls_stage s + 1).
  { apply wrap_in_range. unfold Int32.in_range, Int32.min_int, Int32.max_int in *. lia. }
  assert (Hmul : Int32.mul (ls_m s) r = ls_m s * r).
  { apply wrap_in_range. unfold Int32.in_range, Int32.min_int, Int32.max_int in *. nia. }
  rewrite Hadd, Hmul.
  eexists. split; [|split; [|split]].
  4: reflexivity.
  all: reflexivity.
Qed.

Lemma stage_body_none s :
  pick_radix (ls_L s) = None -> stage_body zsize threadsPerBlock blocksPerGroup s = Throws (illegal_size zsize).
Proof. intros Hp. unfold stage_body. rewrite Hp. reflexivity. Qed.

(** From any state of the loop there is a run to a state where the loop
    either stops with [L = 1] or reaches the [throw]. *)
Lemma stage_run (n : nat) :
  forall s,
    1 <= ls_L s <= Z.of_nat n ->
    0 <= ls_stage s -> ls_stage s + ls_L s <= Int32.max_int ->
    1 <= ls_m s -> ls_m s * ls_L s <= Int32.max_int ->
    exists k s' passes,
      iter stage_continues (stage_body zsize threadsPerBlock blocksPerGroup) k s s' /\
      ls_source s' = ls_source s ++ passes /\
      List.length passes = k /\
      chain (ls_L s) passes (ls_L s') /\
      1 <= ls_L s' /\
      2 ^ Z.of_nat k * ls_L s' <= ls_L s /\
      ls_stage s' = ls_stage s + Z.of_nat k /\
      ls_m s' * ls_L s' = ls_m s * ls_L s /\
      (ls_L s' = 1 \/ (1 < ls_L s' /\ pick_radix (ls_L s') = None)).
Proof.
  induction n as [|n IH]; intros s HL Hst HstL Hm HmL; [lia|].
  destruct (Z.eq_dec (ls_L s) 1) as [H1|H1].
  { exists O, s, []. rewrite app_nil_r. change (Z.of_nat 0) with 0.
    split; [constructor|]. do 3 (split; [reflexivity|]).
    do 3 (split; [lia|]). split; [reflexivity|]. left; assumption. }
  destruct (pick_radix (ls_L s)) as [r|] eqn:Hp.
  2:{ exists O, s, []. rewrite app_nil_r. change (Z.of_nat 0) with 0.
      split; [constructor|]. do 3 (split; [reflexivity|]).
      do 3 (split; [lia|]). split; [reflexivity|]. right; split; [lia|assumption]. }
  destruct (pick_radix_some _ _ Hp) as [Hfirst Hr27].
  pose proof Hfirst as (b & a & _ & Hd & _).
  pose proof (quot_lt_of_divide (ls_L s) r ltac:(lia) ltac:(lia) Hd) as Hq.
  pose proof (quot_mul_exact (ls_L s) r ltac:(lia) Hd) as HLr.
  destruct (stage_body_some s r Hp) as (c & Hcr & HcL & _ & Hb);
    try (unfold Int32.in_range, Int32.min_int, Int32.max_int in *; lia).
  set (s1 := {| ls_L := Z.quot (ls_L s) r; ls_m := ls_m s * r;
                ls_stage := ls_stage s + 1; ls_source := ls_source s ++ [c] |}) in *.
  destruct (IH s1) as (k & s' & passes & Hit & Hsrc & Hlen & Hch & HL' & Hpow & Hstage & Hmm & Hend);
    simpl; try lia; try nia.
  exists (S k), s', (c :: passes).
  cbn [ls_L ls_m ls_stage ls_source s1] in *.
  split; [econstructor; [unfold stage_continues; apply Z.ltb_lt; lia|exact Hb|exact Hit]|].
  split; [rewrite Hsrc, <- app_assoc; reflexivity|].
  split; [cbn [List.length]; lia|].
  split; [cbn [chain]; rewrite Hcr, HcL; auto|].
  split; [assumption|].
  split; [rewrite Nat2Z.inj_succ, Z.pow_succ_r by lia; nia|].
  split; [lia|].
  split; [nia|assumption].
Qed.

Lemma stage_run_length k s s' :
  1 <= ls_L s' -> ls_L s <= Int32.max_int -> 2 ^ Z.of_nat k * ls_L s' <= ls_L s ->
  (k < 31)%nat.
Proof.
  intros H1 Hmax Hpow. apply pow2_int_bound.
  assert (0 < 2 ^ Z.of_nat k) by (apply Z.pow_pos_nonneg; lia). nia.
Qed.
End StageLoop.

(** The outcome of the whole loop for a positive [int] length: it stops with
    [L = 1] exactly on the legal lengths and throws on all others. *)
Lemma stage_loop_outcome fuel zsize threadsPerBlock blocksPerGroup :
  (32 <= fuel)%nat -> 1 <= zsize <= Int32.max_int ->
  (smooth7 zsize /\
   exists s, stage_loop fuel zsize threadsPerBlock blocksPerGroup = Returns s /\
             ls_L s = 1 /\ ls_m s = zsize /\
             ls_stage s = Z.of_nat (List.length (ls_source s)) /\
             (List.length (ls_source s) < 31)%nat /\
             chain zsize (ls_source s) 1) \/
  (~ smooth7 zsize /\
   stage_loop fuel zsize threadsPerBlock blocksPerGroup = Throws (illegal_size zsize)).
Proof.
  intros Hfuel Hz. unfold stage_loop.
  set (s0 := {| ls_L := zsize; ls_m := 1; ls_stage := 0; ls_source := [] |}).
  destruct (stage_run zsize threadsPerBlock blocksPerGroup (Z.to_nat zsize) s0)
    as (k & s' & passes & Hit & Hsrc & Hlen & Hch & HL' & Hpow & Hstage & Hmm & Hend);
    [subst s0; cbn [ls_L ls_m ls_stage]; lia ..|].
  pose proof (stage_run_length k s0 s' HL' ltac:(subst s0; cbn [ls_L]; lia) Hpow) as Hk.
  subst s0; cbn [ls_L ls_m ls_stage ls_source app] in *.
  pose proof (chain_smooth _ _ _ HL' Hch) as Hsm.
  destruct Hend as [H1|[H1 Hnone]].
  - left. split; [apply Hsm; rewrite H1; apply smooth7_1|].
    exists s'. repeat split.
    + eapply while_returns; [exact Hit| |lia]. apply Z.ltb_ge. lia.
    + assumption.
    + rewrite H1 in Hmm. lia.
    + rewrite Hsrc, Hlen. lia.
    + rewrite Hsrc, Hlen. assumption.
    + rewrite Hsrc, <- H1. assumption.
  - right. split.
    + intros Hs. apply Hsm in Hs. exact (pick_radix_none_not_smooth _ H1 Hnone Hs).
    + eapply while_throws; [exact Hit| | |lia].
      * apply Z.ltb_lt. lia.
      * apply stage_body_none. assumption.
Qed.

(** ** Radix sequences *)

Lemma first_divisor_range r L : first_divisor r L -> 2 <= r <= 7 /\ (r | L).
Proof.
  intros H. pose proof (pick_radix_first _ _ H) as Hp.
  destruct (pick_radix_some _ _ Hp) as [(b & a & _ & Hd & _) Hr]. auto.
Qed.

Lemma first_divisor_unique r1 r2 L : first_divisor r1 L -> first_divisor r2 L -> r1 = r2.
Proof.
  intros H1 H2. apply pick_radix_first in H1, H2. congruence.
Qed.

Lemma chain_rchain L passes Lend :
  chain L passes Lend -> rchain L (radices passes) Lend.
Proof.
  unfold radices. revert L. induction passes as [|c rest IH]; cbn [chain rchain map]; intros L.
  - auto.
  - intros (Hf & HL & Hc). split; [assumption|].
    destruct (first_divisor_range _ _ Hf) as [Hr _].
    replace (Z.quot L (sc_radix c)) with (sc_L c); [auto|].
    rewrite HL, Z.mul_comm, Z.quot_mul; lia.
Qed.

Lemma rchain_app L rs1 Lmid rs2 Lend :
  rchain L rs1 Lmid -> rchain Lmid rs2 Lend -> rchain L (rs1 ++ rs2) Lend.
Proof.
  revert L. induction rs1 as [|r rs1 IH]; cbn [rchain app]; intros L.
  - intros -> H. assumption.
  - intros (Hf & Hc) H. split; auto.
Qed.

(** A length has one decomposition down to 1. *)
Lemma rchain_unique rs1 :
  forall L rs2, rchain L rs1 1 -> rchain L rs2 1 -> rs1 = rs2.
Proof.
  induction rs1 as [|r1 rs1 IH]; intros L [|r2 rs2]; cbn [rchain].
  - reflexivity.
  - intros -> [Hf _]. destruct (first_divisor_range _ _ Hf) as [Hr Hd].
    apply Z.divide_1_r_nonneg in Hd; lia.
  - intros [Hf _] ->. destruct (first_divisor_range _ _ Hf) as [Hr Hd].
    apply Z.divide_1_r_nonneg in Hd; lia.
  - intros [Hf1 H1] [Hf2 H2]. pose proof (first_divisor_unique _ _ _ Hf1 Hf2) as <-.
    f_equal. eapply IH; eassumption.
Qed.

Lemma minimum_of_spec l m :
  In m l -> Forall (fun x => m <= x) l -> minimum_of l = Some m.
Proof.
  induction l as [|x l IH]; cbn [minimum_of In]; [tauto|].
  intros Hin Hall. pose proof (Forall_inv Hall) as Hx. cbv beta in Hx.
  apply Forall_inv_tail in Hall.
  destruct Hin as [->|Hin].
  - destruct (minimum_of l) as [m'|] eqn:E; [|reflexivity].
    assert (m <= m').
    { clear IH. revert m' E. induction l as [|y l IHl]; cbn [minimum_of]; [discriminate|].
      intros m' E. pose proof (Forall_inv Hall) as Hy. cbv beta in Hy.
      apply Forall_inv_tail in Hall.
      destruct (minimum_of l) as [m''|]; injection E as <-; [|assumption].
      specialize (IHl Hall m'' eq_refl). lia. }
    f_equal. lia.
  - rewrite (IH Hin Hall). f_equal. lia.
Qed.

Lemma minimum_of_app_repeat tr r k :
  Forall (fun x => r <= x) tr -> (0 < k)%nat -> minimum_of (tr ++ repeat r k) = Some r.
Proof.
  intros Hall Hk. apply minimum_of_spec.
  - apply in_or_app. right. destruct k; [lia|]. left. reflexivity.
  - apply Forall_app. split; [assumption|].
    apply Forall_forall. intros x Hx. apply repeat_spec in Hx. lia.
Qed.

(** ** The loops of getSmallestRadix *)

Section Exhaust.
Variables (r : Z) (before after : list Z).
Hypothesis Hl : [7; 5; 4; 3; 2] = before ++ r :: after.

Lemma exhaust_radix_range : 2 <= r <= 7.
Proof.
  assert (In r [7; 5; 4; 3; 2]) as Hin
    by (rewrite Hl; apply in_or_app; right; left; reflexivity).
  simpl in Hin. lia.
Qed.

Lemma exhaust_traced_run (n : nat) :
  forall mr u tr,
    1 <= u <= Z.of_nat n -> u <= Int32.max_int ->
    Forall (fun q => ~ (q | u)) before ->
    exists k mr' u',
      iter (radix_divides_traced r) (take_radix_traced r) k (mr, u, tr) (mr', u', tr ++ repeat r k) /\
      rchain u (repeat r k) u' /\
      1 <= u' /\ (u' | u) /\ ~ (r | u') /\
      2 ^ Z.of_nat k * u' <= u /\
      (k = O -> mr' = mr) /\ ((0 < k)%nat -> mr' = r).
Proof.
  pose proof exhaust_radix_range as Hr.
  induction n as [|n IH]; intros mr u tr Hu Hmax Hb; [lia|].
  destruct (Int32.rem u r =? 0) eqn:E.
  2:{ apply rem_nonzero_not_divide in E; [|lia].
      exists O, mr, u. cbn [repeat]. rewrite app_nil_r. change (Z.of_nat 0) with 0.
      split; [constructor|]. split; [reflexivity|]. split; [lia|].
      split; [apply Z.divide_refl|]. split; [assumption|]. split; [lia|].
      split; [reflexivity|lia]. }
  pose proof E as Hd. apply rem_zero_divide in Hd; [|lia].
  pose proof (quot_lt_of_divide u r ltac:(lia) ltac:(lia) Hd) as Hq.
  pose proof (quot_mul_exact u r ltac:(lia) Hd) as Hur.
  destruct (IH r (Z.quot u r) (tr ++ [r])) as (k & mr' & u' & Hit & Hch & Hu' & Hdiv & Hnd & Hpow & Hk0 & Hk1).
  { lia. }
  { lia. }
  { eapply Forall_impl; [|exact Hb]. intros q Hq'. apply not_divide_quot; [lia|assumption|assumption]. }
  exists (S k), mr', u'. cbn [repeat].
  split.
  { econstructor; [exact E| |].
    - unfold take_radix_traced.
      rewrite (div_exact u r); [reflexivity|lia| |lia].
      unfold Int32.in_range, Int32.min_int, Int32.max_int in *. lia.
    - rewrite <- app_assoc in Hit. exact Hit. }
  split.
  { cbn [rchain]. split; [|assumption]. exists before, after. auto. }
  split; [assumption|].
  split.
  { eapply Z.divide_trans; [exact Hdiv|]. exists r. lia. }
  split; [assumption|].
  split; [rewrite Nat2Z.inj_succ, Z.pow_succ_r by lia; nia|].
  split; [discriminate|]. intros _.
  destruct k; [apply Hk0; reflexivity|apply Hk1; lia].
Qed.
End Exhaust.

Lemma trace_inv_step bound r mr tr k mr' :
  2 <= r <= 7 -> r <= bound ->
  trace_inv bound mr tr ->
  (k = O -> mr' = mr) -> ((0 < k)%nat -> mr' = r) ->
  trace_inv r mr' (tr ++ repeat r k).
Proof.
  intros Hr Hb (Hall & Hnil & Hmin) Hk0 Hk1.
  assert (Hall' : Forall (fun x => r <= x <= 7) tr)
    by (eapply Forall_impl; [|exact Hall]; cbv beta; intros; lia).
  destruct k as [|k].
  - cbn [repeat]. rewrite app_nil_r, (Hk0 eq_refl). repeat split; assumption.
  - rewrite (Hk1 ltac:(lia)). split; [|split].
    + apply Forall_app. split; [assumption|].
      apply Forall_forall. intros x Hx. apply repeat_spec in Hx. lia.
    + intros E. apply app_eq_nil in E. destruct E as [_ E]. discriminate.
    + intros _. apply minimum_of_app_repeat; [|lia].
      eapply Forall_impl; [|exact Hall']. cbv beta. intros; lia.
Qed.

(** One loop of [getSmallestRadix], with what it preserves. *)
Lemma exhaust_phase fuel Z0 r before after bound mr u tr :
  [7; 5; 4; 3; 2] = before ++ r :: after ->
  (32 <= fuel)%nat ->
  1 <= u <= Int32.max_int ->
  rchain Z0 tr u -> (u | Z0) ->
  Forall (fun q => ~ (q | u)) before ->
  r <= bound -> trace_inv bound mr tr ->
  exists mr' u' tr',
    exhaust_traced fuel r (mr, u, tr) = Returns (mr', u', tr') /\
    1 <= u' <= Int32.max_int /\
    rchain Z0 tr' u' /\ (u' | Z0) /\
    Forall (fun q => ~ (q | u')) (before ++ [r]) /\
    trace_inv r mr' tr'.
Proof.
  intros Hl Hfuel Hu Hch Hdiv Hb Hbound Hinv.
  pose proof (exhaust_radix_range r before after Hl) as Hr.
  destruct (exhaust_traced_run r before after Hl (Z.to_nat u) mr u tr)
    as (k & mr' & u' & Hit & Hch' & Hu' & Hdiv' & Hnd & Hpow & Hk0 & Hk1);
    [lia|lia|assumption|].
  assert (Hk : (k < 31)%nat).
  { apply pow2_int_bound. assert (0 < 2 ^ Z.of_nat k) by (apply Z.pow_pos_nonneg; lia). nia. }
  assert (Hle : u' <= u) by (apply Z.divide_pos_le; [lia|assumption]).
  exists mr', u', (tr ++ repeat r k).
  split.
  { unfold exhaust_traced. eapply while_returns; [exact Hit| |lia].
    cbn [fst]. unfold radix_divides. cbn [snd]. apply rem_nonzero_not_divide; [lia|assumption]. }
  split; [lia|].
  split; [eapply rchain_app; eassumption|].
  split; [eapply Z.divide_trans; eassumption|].
  split.
  { apply Forall_app. split.
    - eapply Forall_impl; [|exact Hb]. cbv beta. intros q Hq Hc. apply Hq.
      eapply Z.divide_trans; eassumption.
    - constructor; [assumption|constructor]. }
  eapply trace_inv_step; eassumption.
Qed.

(** Erasing the trace gives back the loops of the code. *)
Lemma exhaust_erase fuel r :
  forall mr u tr,
    exhaust fuel r (mr, u) =
    (st <- exhaust_traced fuel r (mr, u, tr) ;; Returns (fst st)).
Proof.
  unfold exhaust, exhaust_traced.
  induction fuel as [|fuel IH]; intros mr u tr; [reflexivity|].
  cbn [while]. unfold radix_divides_traced, radix_divides. cbn [fst snd].
  destruct (Int32.rem u r =? 0); [|reflexivity].
  cbn [take_radix take_radix_traced bind snd]. apply IH.
Qed.

Lemma getSmallestRadix_erase fuel size :
  getSmallestRadix fuel size =
  (res <- getSmallestRadix_traced fuel size ;; Returns (fst res)).
Proof.
  unfold getSmallestRadix, getSmallestRadix_traced.
  rewrite (exhaust_erase fuel 7 1 size []).
  destruct (exhaust_traced fuel 7 (1, size, [])) as [[[mr u] tr]| |]; cbn [bind fst]; try reflexivity.
  rewrite (exhaust_erase fuel 5 mr u tr).
  destruct (exhaust_traced fuel 5 (mr, u, tr)) as [[[mr1 u1] tr1]| |]; cbn [bind fst]; try reflexivity.
  rewrite (exhaust_erase fuel 4 mr1 u1 tr1).
  destruct (exhaust_traced fuel 4 (mr1, u1, tr1)) as [[[mr2 u2] tr2]| |]; cbn [bind fst]; try reflexivity.
  rewrite (exhaust_erase fuel 3 mr2 u2 tr2).
  destruct (exhaust_traced fuel 3 (mr2, u2, tr2)) as [[[mr3 u3] tr3]| |]; cbn [bind fst]; try reflexivity.
  rewrite (exhaust_erase fuel 2 mr3 u3 tr3).
  destruct (exhaust_traced fuel 2 (mr3, u3, tr3)) as [[[mr4 u4] tr4]| |]; cbn [bind fst]; reflexivity.
Qed.

(** [getSmallestRadix] on a positive [int]: it returns, the radices it took
    are a decomposition of [size] by first divisors, what is left has none of
    the five divisors, and the result is the smallest radix taken (1 if none
    was). *)
Lemma getSmallestRadix_traced_spec fuel size :
  (32 <= fuel)%nat -> 1 <= size <= Int32.max_int ->
  exists mr tr u,
    getSmallestRadix_traced fuel size = Returns (mr, tr) /\
    rchain size tr u /\ 1 <= u /\ (u | size) /\ pick_radix u = None /\
    trace_inv 2 mr tr.
Proof.
  intros Hfuel Hsize. unfold getSmallestRadix_traced.
  destruct (exhaust_phase fuel size 7 [] [5; 4; 3; 2] 7 1 size [])
    as (mr1 & u1 & tr1 & E1 & Hu1 & Hc1 & Hd1 & Hb1 & Hi1);
    [reflexivity|assumption|assumption|reflexivity|apply Z.divide_refl|constructor|lia| |].
  { split; [constructor|]. split; [reflexivity|congruence]. }
  rewrite E1. cbn [bind].
  destruct (exhaust_phase fuel size 5 [7] [4; 3; 2] 7 mr1 u1 tr1)
    as (mr2 & u2 & tr2 & E2 & Hu2 & Hc2 & Hd2 & Hb2 & Hi2);
    [reflexivity|assumption|assumption|assumption|assumption|exact Hb1|lia|assumption|].
  rewrite E2. cbn [bind].
  destruct (exhaust_phase fuel size 4 [7; 5] [3; 2] 5 mr2 u2 tr2)
    as (mr3 & u3 & tr3 & E3 & Hu3 & Hc3 & Hd3 & Hb3 & Hi3);
    [reflexivity|assumption|assumption|assumption|assumption|exact Hb2|lia|assumption|].
  rewrite E3. cbn [bind].
  destruct (exhaust_phase fuel size 3 [7; 5; 4] [2] 4 mr3 u3 tr3)
    as (mr4 & u4 & tr4 & E4 & Hu4 & Hc4 & Hd4 & Hb4 & Hi4);
    [reflexivity|assumption|assumption|assumption|assumption|exact Hb3|lia|assumption|].
  rewrite E4. cbn [bind].
  destruct (exhaust_phase fuel size 2 [7; 5; 4; 3] [] 3 mr4 u4 tr4)
    as (mr5 & u5 & tr5 & E5 & Hu5 & Hc5 & Hd5 & Hb5 & Hi5);
    [reflexivity|assumption|assumption|assumption|assumption|exact Hb4|lia|assumption|].
  rewrite E5. cbn [bind fst snd].
  exists mr5, tr5, u5. split; [reflexivity|]. split; [assumption|].
  split; [lia|]. split; [assumption|]. split; [|assumption].
  apply pick_radix_none. cbn [app] in Hb5.
  repeat match goal with
         | H : Forall _ (_ :: _) |- _ =>
             let H' := fresh in pose proof (Forall_inv H) as H'; cbv beta in H';
             apply Forall_inv_tail in H
         end.
  tauto.
Qed.

Lemma rchain_divides L rs Lend r : rchain L rs Lend -> In r rs -> (r | L).
Proof.
  revert L. induction rs as [|r0 rs IH]; cbn [rchain In]; intros L; [tauto|].
  intros [Hf Hc] [->|Hin].
  - apply (first_divisor_range _ _ Hf).
  - destruct (first_divisor_range _ _ Hf) as [Hr Hd].
    rewrite (quot_mul_exact L r0 ltac:(lia) Hd). apply Z.divide_mul_r. eauto.
Qed.

Lemma minimum_of_in l m : minimum_of l = Some m -> In m l.
Proof.
  revert m. induction l as [|x l IH]; cbn [minimum_of In]; intros m; [discriminate|].
  destruct (minimum_of l) as [m'|].
  - intros [= <-]. destruct (Z.min_spec x m') as [[_ ->]|[_ ->]]; auto.
  - intros [= <-]. auto.
Qed.

(** [getSmallestRadix] returns on every positive [int], with a divisor of
    its argument between 1 and 7. *)
Lemma getSmallestRadix_returns fuel size :
  (32 <= fuel)%nat -> 1 <= size <= Int32.max_int ->
  exists smallest,
    getSmallestRadix fuel size = Returns smallest /\
    1 <= smallest <= 7 /\ (smallest | size).
Proof.
  intros Hfuel Hsize.
  destruct (getSmallestRadix_traced_spec fuel size Hfuel Hsize)
    as (mr & tr & u & E & Hch & Hu & Hd & Hp & Hall & Hnil & Hmin).
  exists mr. rewrite getSmallestRadix_erase, E. split; [reflexivity|].
  destruct tr as [|r tr].
  - rewrite (Hnil eq_refl). split; [lia|apply Z.divide_1_l].
  - pose proof (minimum_of_in _ _ (Hmin ltac:(discriminate))) as Hin.
    split.
    + rewrite Forall_forall in Hall. specialize (Hall _ Hin). cbv beta in Hall. lia.
    + eapply rchain_divides; eassumption.
Qed.

(** The block shape computed at the head of [createKernel] stays inside
    [int]: no operation on it wraps. *)
Lemma block_shape_exact zsize smallest maxThreads :
  1 <= zsize <= Int32.max_int -> 1 <= smallest <= 7 -> (smallest | zsize) ->
  maxThreads = 128 \/ maxThreads = 256 ->
  let threadsPerBlock := Z.quot zsize smallest in
  let blocksPerGroup := Z.max 1 (Z.quot maxThreads threadsPerBlock) in
  Int32.div zsize smallest = threadsPerBlock /\
  Int32.max 1 (Int32.div maxThreads (Int32.div zsize smallest)) = blocksPerGroup /\
  Int32.mul blocksPerGroup threadsPerBlock = blocksPerGroup * threadsPerBlock /\
  1 <= threadsPerBlock <= zsize /\
  1 <= blocksPerGroup * threadsPerBlock <= Z.max maxThreads zsize.
Proof.
  intros Hz Hs Hd Hmax. cbv zeta.
  assert (Hrange : Int32.in_range zsize)
    by (unfold Int32.in_range, Int32.min_int, Int32.max_int in *; lia).
  assert (Htpb : 1 <= Z.quot zsize smallest <= zsize).
  { pose proof (quot_mul_exact zsize smallest ltac:(lia) Hd).
    pose proof (quot_bounds zsize smallest ltac:(lia) ltac:(lia)). nia. }
  set (tpb := Z.quot zsize smallest) in *.
  assert (E1 : Int32.div zsize smallest = tpb) by (apply div_exact; [lia|assumption|lia]).
  rewrite E1.
  assert (E2 : Int32.div maxThreads tpb = Z.quot maxThreads tpb).
  { apply div_exact; [lia| |lia].
    unfold Int32.in_range, Int32.min_int, Int32.max_int. lia. }
  rewrite E2.
  pose proof (quot_bounds maxThreads tpb ltac:(lia) ltac:(lia)) as Hq.
  assert (E3 : Int32.max 1 (Z.quot maxThreads tpb) = Z.max 1 (Z.quot maxThreads tpb)).
  { unfold Int32.max. destruct (Z.ltb_spec 1 (Z.quot maxThreads tpb)); lia. }
  assert (Hprod : 1 <= Z.max 1 (Z.quot maxThreads tpb) * tpb <= Z.max maxThreads zsize).
  { pose proof (Z.quot_rem' maxThreads tpb) as Hqr.
    pose proof (Z.rem_bound_pos maxThreads tpb ltac:(lia) ltac:(lia)).
    destruct (Z.max_spec 1 (Z.quot maxThreads tpb)) as [[? ->]|[? ->]]; nia. }
  repeat split; try lia; try assumption.
  apply wrap_in_range. unfold Int32.in_range, Int32.min_int, Int32.max_int in *. lia.
Qed.

(** ** createKernel as a whole *)

Local Open Scope string_scope.

(** On a positive [int] length [createKernel] either returns the kernel built
    from the finished loop, together with the thread count, or throws; it
    returns exactly on the legal lengths. *)
Lemma createKernel_outcome context fuel xsize ysize zsize axis forward inputIsReal :
  (32 <= fuel)%nat -> (1 <= zsize <= Int32.max_int)%Z ->
  exists smallest,
    getSmallestRadix fuel zsize = Returns smallest /\
    (1 <= smallest <= 7)%Z /\ (smallest | zsize)%Z /\
    let maxThreads := if getUseDoublePrecision context then 128%Z else 256%Z in
    let threadsPerBlock := Z.quot zsize smallest in
    let blocksPerGroup := Z.max 1 (Z.quot maxThreads threadsPerBlock) in
    ((smooth7 zsize /\
      exists s,
        stage_loop fuel zsize threadsPerBlock blocksPerGroup = Returns s /\
        ls_L s = 1%Z /\ ls_m s = zsize /\
        ls_stage s = Z.of_nat (List.length (ls_source s)) /\
        chain zsize (ls_source s) 1 /\
        createKernel context fuel xsize ysize zsize axis forward inputIsReal =
        Returns (getKernel (FFTModule (replacements_of context xsize ysize zsize axis forward
                                         inputIsReal blocksPerGroup threadsPerBlock s))
                           "execFFT",
                 (blocksPerGroup * threadsPerBlock)%Z)) \/
     (~ smooth7 zsize /\
      createKernel context fuel xsize ysize zsize axis forward inputIsReal =
      Throws (illegal_size zsize))).
Proof.
  intros Hfuel Hz.
  destruct (getSmallestRadix_returns fuel zsize Hfuel Hz) as (smallest & E & Hs & Hd).
  exists smallest. split; [assumption|]. split; [assumption|]. split; [assumption|].
  cbv zeta.
  set (maxThreads := if getUseDoublePrecision context then 128%Z else 256%Z).
  assert (Hmax : maxThreads = 128%Z \/ maxThreads = 256%Z)
    by (subst maxThreads; destruct (getUseDoublePrecision context); auto).
  destruct (block_shape_exact zsize smallest maxThreads Hz Hs Hd Hmax) as (E1 & E2 & E3 & _ & _).
  unfold createKernel. rewrite E. cbn [bind]. fold maxThreads. rewrite E2, E1, E3.
  destruct (stage_loop_outcome fuel zsize (Z.quot zsize smallest)
              (Z.max 1 (Z.quot maxThreads (Z.quot zsize smallest))) Hfuel Hz)
    as [(Hsm & s & Es & HL & Hm & Hst & _ & Hch)|(Hns & Et)].
  - left. split; [assumption|]. exists s. rewrite Es. cbn [bind]. auto 10.
  - right. split; [assumption|]. rewrite Et. reflexivity.
Qed.

Local Close Scope string_scope.

(** ** The loops of findLegalDimension *)

Lemma smooth7_small f : 2 <= f <= 7 -> smooth7 f.
Proof.
  intros H.
  assert (f = 2 \/ f = 3 \/ f = 4 \/ f = 5 \/ f = 6 \/ f = 7)
    as [ -> | [ -> | [ -> | [ -> | [ -> | -> ] ] ] ] ] by lia.
  - apply smooth7_2.
  - apply smooth7_3.
  - apply smooth7_4.
  - apply smooth7_5.
  - apply smooth7_6.
  - apply smooth7_7.
Qed.

Section DivideOut.
Variable factor : Z.
Hypothesis Hfactor : 2 <= factor <= 7.

Lemma divide_out_run (n : nat) :
  forall u,
    1 <= u <= Z.of_nat n -> u <= Int32.max_int ->
    exists k u',
      iter (still_divisible factor) (divide_by factor) k u u' /\ still_divisible factor u' = false /\
      1 <= u' /\ (u' | u) /\ (smooth7 u' -> smooth7 u) /\
      (u' = 1 \/ ~ (factor | u')) /\
      2 ^ Z.of_nat k * u' <= u.
Proof.
  induction n as [|n IH]; intros u Hu Hmax; [lia|].
  destruct (still_divisible factor u) eqn:E.
  2:{ exists O, u. change (Z.of_nat 0) with 0.
      split; [constructor|]. split; [assumption|]. split; [lia|].
      split; [apply Z.divide_refl|]. split; [auto|]. split; [|lia].
      unfold still_divisible in E. apply andb_false_iff in E. destruct E as [E|E].
      - left. apply Z.ltb_ge in E. lia.
      - right. apply rem_nonzero_not_divide in E; [assumption|lia]. }
  pose proof E as E'. unfold still_divisible in E'. apply andb_true_iff in E'. destruct E' as [E1 E2].
  apply Z.ltb_lt in E1. apply rem_zero_divide in E2; [|lia].
  pose proof (quot_lt_of_divide u factor ltac:(lia) ltac:(lia) E2) as Hq.
  pose proof (quot_mul_exact u factor ltac:(lia) E2) as Huf.
  destruct (IH (Z.quot u factor)) as (k & u' & Hit & Hc & Hu' & Hd & Hs & Hn & Hpow); [lia|lia|].
  exists (S k), u'.
  split.
  { econstructor; [exact E| |exact Hit]. unfold divide_by.
    rewrite (div_exact u factor); [reflexivity|lia| |lia].
    unfold Int32.in_range, Int32.min_int, Int32.max_int in *. lia. }
  split; [assumption|]. split; [assumption|].
  split; [eapply Z.divide_trans; [exact Hd|]; exists factor; lia|].
  split.
  { intros Hsm. rewrite Huf. apply smooth7_mul; [apply smooth7_small; assumption|auto]. }
  split; [assumption|].
  rewrite Nat2Z.inj_succ, Z.pow_succ_r by lia. nia.
Qed.

Lemma divide_out_spec fuel u :
  (32 <= fuel)%nat -> 1 <= u <= Int32.max_int ->
  exists u',
    divide_out fuel factor u = Returns u' /\
    1 <= u' <= u /\ (u' | u) /\ (smooth7 u' <-> smooth7 u) /\
    (u' = 1 \/ ~ (factor | u')).
Proof.
  intros Hfuel Hu.
  destruct (divide_out_run (Z.to_nat u) u) as (k & u' & Hit & Hc & Hu' & Hd & Hs & Hn & Hpow);
    [lia|lia|].
  assert (Hk : (k < 31)%nat).
  { apply pow2_int_bound. assert (0 < 2 ^ Z.of_nat k) by (apply Z.pow_pos_nonneg; lia). nia. }
  assert (Hle : u' <= u) by (apply Z.divide_pos_le; [lia|assumption]).
  exists u'. split.
  { unfold divide_out. eapply while_returns; [exact Hit|exact Hc|lia]. }
  split; [lia|]. split; [assumption|]. split; [|assumption].
  split; [assumption|]. intros Hsm. apply (smooth7_divisor u); [assumption|lia|assumption].
Qed.

(** Nothing is divided out of a value that is not above 1. *)
Lemma divide_out_small fuel u : u <= 1 -> divide_out (S fuel) factor u = Returns u.
Proof.
  intros Hu. unfold divide_out. cbn [while]. unfold still_divisible.
  destruct (Z.ltb_spec 1 u); [lia|]. reflexivity.
Qed.
End DivideOut.

Lemma keep_nondivisible f a b :
  (b | a) -> 1 <= b -> 1 <= a -> (a = 1 \/ ~ (f | a)) -> (b = 1 \/ ~ (f | b)).
Proof.
  intros Hd Hb Ha [->|Hn].
  - left. apply Z.divide_1_r_nonneg in Hd; lia.
  - right. intros Hc. apply Hn. eapply Z.divide_trans; eassumption.
Qed.

(** The [for] loop over the factors 2 to 7: what is left is 1 exactly when
    the argument is a legal size. *)
Lemma trial_division_spec fuel u :
  (32 <= fuel)%nat -> 1 <= u <= Int32.max_int ->
  exists u',
    trial_division fuel u = Returns u' /\ 1 <= u' <= u /\ (u' = 1 <-> smooth7 u).
Proof.
  intros Hfuel Hu.
  destruct (divide_out_spec 2 ltac:(lia) fuel u Hfuel Hu) as (u2 & E2 & H2 & D2 & S2 & N2).
  destruct (divide_out_spec 3 ltac:(lia) fuel u2 Hfuel ltac:(lia)) as (u3 & E3 & H3 & D3 & S3 & N3).
  destruct (divide_out_spec 4 ltac:(lia) fuel u3 Hfuel ltac:(lia)) as (u4 & E4 & H4 & D4 & S4 & N4).
  destruct (divide_out_spec 5 ltac:(lia) fuel u4 Hfuel ltac:(lia)) as (u5 & E5 & H5 & D5 & S5 & N5).
  destruct (divide_out_spec 6 ltac:(lia) fuel u5 Hfuel ltac:(lia)) as (u6 & E6 & H6 & D6 & S6 & N6).
  destruct (divide_out_spec 7 ltac:(lia) fuel u6 Hfuel ltac:(lia)) as (u7 & E7 & H7 & D7 & S7 & N7).
  exists u7. split; [|split; [lia|]].
  - unfold trial_division.
    rewrite (while_returns _ _ 6 (2, u) (8, u7) fuel); [reflexivity| |reflexivity|lia].
    apply (iter_S _ _ _ _ (3, u2)); [reflexivity|cbn [fst snd]; rewrite E2; reflexivity|].
    apply (iter_S _ _ _ _ (4, u3)); [reflexivity|cbn [fst snd]; rewrite E3; reflexivity|].
    apply (iter_S _ _ _ _ (5, u4)); [reflexivity|cbn [fst snd]; rewrite E4; reflexivity|].
    apply (iter_S _ _ _ _ (6, u5)); [reflexivity|cbn [fst snd]; rewrite E5; reflexivity|].
    apply (iter_S _ _ _ _ (7, u6)); [reflexivity|cbn [fst snd]; rewrite E6; reflexivity|].
    apply (iter_S _ _ _ _ (8, u7)); [reflexivity|cbn [fst snd]; rewrite E7; reflexivity|].
    constructor.
  - split.
    + intros ->. apply S2, S3, S4, S5, S6, S7, smooth7_1.
    + intros Hsm. apply S2, S3, S4, S5, S6, S7 in Hsm.
      destruct (Z.eq_dec u7 1) as [|Hne]; [assumption|exfalso].
      assert (D75 : (u7 | u5)) by (eapply Z.divide_trans; [exact D7|exact D6]).
      assert (D73 : (u7 | u3))
        by (eapply Z.divide_trans; [exact D75|]; eapply Z.divide_trans; [exact D5|exact D4]).
      assert (D72 : (u7 | u2)) by (eapply Z.divide_trans; [exact D73|exact D3]).
      pose proof (keep_nondivisible 5 u5 u7 D75 ltac:(lia) ltac:(lia) N5) as K5.
      pose proof (keep_nondivisible 3 u3 u7 D73 ltac:(lia) ltac:(lia) N3) as K3.
      pose proof (keep_nondivisible 2 u2 u7 D72 ltac:(lia) ltac:(lia) N2) as K2.
      destruct K2 as [K2|K2]; [contradiction|].
      destruct K3 as [K3|K3]; [contradiction|].
      destruct K5 as [K5|K5]; [contradiction|].
      destruct N7 as [K7|K7]; [contradiction|].
      destruct (smooth7_factor u7 Hsm ltac:(lia)) as [H|[H|[H|H]]]; contradiction.
Qed.

Lemma trial_division_small fuel u :
  (7 <= fuel)%nat -> u <= 1 -> trial_division fuel u = Returns u.
Proof.
  intros Hfuel Hu. unfold trial_division.
  destruct fuel as [|fuel]; [lia|].
  rewrite (while_returns _ _ 6 (2, u) (8, u) (S fuel)); [reflexivity| |reflexivity|lia].
  apply (iter_S _ _ _ _ (3, u)); [reflexivity|cbn [fst snd]; rewrite divide_out_small by assumption; reflexivity|].
  apply (iter_S _ _ _ _ (4, u)); [reflexivity|cbn [fst snd]; rewrite divide_out_small by assumption; reflexivity|].
  apply (iter_S _ _ _ _ (5, u)); [reflexivity|cbn [fst snd]; rewrite divide_out_small by assumption; reflexivity|].
  apply (iter_S _ _ _ _ (6, u)); [reflexivity|cbn [fst snd]; rewrite divide_out_small by assumption; reflexivity|].
  apply (iter_S _ _ _ _ (7, u)); [reflexivity|cbn [fst snd]; rewrite divide_out_small by assumption; reflexivity|].
  apply (iter_S _ _ _ _ (8, u)); [reflexivity|cbn [fst snd]; rewrite divide_out_small by assumption; reflexivity|].
  constructor.
Qed.

Lemma smooth7_check n :
  1 <= n <= Int32.max_int -> trial_division 32 n = Returns 1 -> smooth7 n.
Proof.
  intros Hn E. destruct (trial_division_spec 32 n ltac:(lia) Hn) as (u & E' & _ & Hiff).
  rewrite E in E'. injection E' as <-. apply Hiff. reflexivity.
Qed.

Lemma not_smooth7_check n u :
  1 <= n <= Int32.max_int -> trial_division 32 n = Returns u -> u <> 1 -> ~ smooth7 n.
Proof.
  intros Hn E Hu Hs. destruct (trial_division_spec 32 n ltac:(lia) Hn) as (u' & E' & _ & Hiff).
  rewrite E in E'. injection E' as <-. apply Hu, Hiff, Hs.
Qed.

Lemma smooth7_top_legal : smooth7 top_legal.
Proof.
  apply smooth7_check; [unfold top_legal, Int32.max_int; lia|]. vm_compute. reflexivity.
Qed.

Lemma incr_exact c : Int32.min_int <= c < Int32.max_int -> Int32.incr c = c + 1.
Proof.
  intros Hc. unfold Int32.incr, Int32.add. apply wrap_in_range.
  unfold Int32.in_range, Int32.min_int, Int32.max_int in *. lia.
Qed.

Section Search.
Variable inner : nat.
Hypothesis Hinner : (32 <= inner)%nat.

Lemma search_accepts fuel c :
  1 <= c <= Int32.max_int -> smooth7 c -> search inner (S fuel) c = Returns c.
Proof.
  intros Hc Hs. destruct (trial_division_spec inner c Hinner Hc) as (u & E & _ & Hiff).
  cbn [search]. rewrite E. cbn [bind]. apply Hiff in Hs. subst u. reflexivity.
Qed.

Lemma search_rejects fuel c :
  1 <= c <= Int32.max_int -> ~ smooth7 c ->
  search inner (S fuel) c = search inner fuel (Int32.incr c).
Proof.
  intros Hc Hs. destruct (trial_division_spec inner c Hinner Hc) as (u & E & _ & Hiff).
  cbn [search]. rewrite E. cbn [bind].
  destruct (Z.eqb_spec u 1) as [->|]; [|reflexivity].
  exfalso. apply Hs, Hiff. reflexivity.
Qed.

Lemma search_skips fuel c :
  c < 1 -> search inner (S fuel) c = search inner fuel (Int32.incr c).
Proof.
  intros Hc. cbn [search]. rewrite trial_division_small by lia. cbn [bind].
  destruct (Z.eqb_spec c 1); [lia|reflexivity].
Qed.

(** The search stops at the first legal size at or above its start. *)
Lemma search_finds (n : nat) :
  forall c r,
    Z.of_nat n = r - c -> 1 <= c -> r <= Int32.max_int -> smooth7 r ->
    (forall k, c <= k < r -> ~ smooth7 k) ->
    forall fuel, (n < fuel)%nat -> search inner fuel c = Returns r.
Proof.
  induction n as [|n IH]; intros c r Hn Hc Hr Hs Hleast fuel Hfuel;
    (destruct fuel as [|fuel]; [lia|]).
  - assert (c = r) as -> by lia. apply search_accepts; [lia|assumption].
  - rewrite search_rejects; [|lia|apply Hleast; lia].
    rewrite incr_exact by (unfold Int32.min_int; lia).
    apply IH; try lia; [assumption|]. intros k Hk. apply Hleast. lia.
Qed.

(** Below 1 the search climbs to 1 and returns it. *)
Lemma search_climbs (n : nat) :
  forall c,
    Z.of_nat n = 1 - c -> Int32.min_int <= c ->
    forall fuel, (n < fuel)%nat -> search inner fuel c = Returns 1.
Proof.
  induction n as [|n IH]; intros c Hn Hc fuel Hfuel;
    (destruct fuel as [|fuel]; [lia|]).
  - assert (c = 1) as -> by lia.
    apply search_accepts; [unfold Int32.max_int; lia|apply smooth7_1].
  - rewrite search_skips by lia.
    rewrite incr_exact by (unfold Int32.max_int; lia).
    apply IH; lia.
Qed.

Lemma search_from_below c fuel :
  Int32.min_int <= c <= 1 -> 1 - c < Z.of_nat fuel -> search inner fuel c = Returns 1.
Proof.
  intros Hc Hfuel. apply (search_climbs (Z.to_nat (1 - c))); lia.
Qed.
End Search.

(** Every start up to [top_legal] has a first legal size at or above it. *)
Lemma least_legal (n : nat) :
  forall c,
    Z.of_nat n = top_legal - c -> 1 <= c ->
    exists r, c <= r <= top_legal /\ smooth7 r /\ forall k, c <= k < r -> ~ smooth7 k.
Proof.
  induction n as [|n IH]; intros c Hn Hc.
  - exists c. split; [lia|]. split; [|intros; lia].
    assert (c = top_legal) as -> by lia. apply smooth7_top_legal.
  - assert (Hrange : 1 <= c <= Int32.max_int) by (unfold top_legal, Int32.max_int in *; lia).
    destruct (trial_division_spec 32 c ltac:(lia) Hrange) as (u & _ & _ & Hiff).
    destruct (Z.eq_dec u 1) as [Hu|Hu].
    + exists c. split; [lia|]. split; [apply Hiff; assumption|intros; lia].
    + destruct (IH (c + 1)) as (r & Hr & Hs & Hleast); [lia|lia|].
      exists r. split; [lia|]. split; [assumption|].
      intros k Hk. destruct (Z.eq_dec k c) as [->|]; [|apply Hleast; lia].
      intros Hc'. apply Hu, Hiff, Hc'.
Qed.

(** ** The largest legal [int] *)

Lemma smooth7_exponents_bounded (n : nat) :
  forall k, smooth7 k -> k <= Z.of_nat n ->
  exists a b c d : nat,
    k = 7 ^ Z.of_nat d * 5 ^ Z.of_nat c * 3 ^ Z.of_nat b * 2 ^ Z.of_nat a.
Proof.
  induction n as [|n IH]; intros k Hs Hk; [destruct Hs; lia|].
  pose proof Hs as [Hpos _].
  destruct (Z.eq_dec k 1) as [->|Hne]; [exists O, O, O, O; reflexivity|].
  assert (Hstep : forall p, 2 <= p -> (p | k) ->
            exists a b c d : nat,
              Z.quot k p = 7 ^ Z.of_nat d * 5 ^ Z.of_nat c * 3 ^ Z.of_nat b * 2 ^ Z.of_nat a).
  { intros p Hp Hd. pose proof (quot_lt_of_divide k p ltac:(lia) Hp Hd).
    apply IH; [apply smooth7_quot; assumption|lia]. }
  destruct (smooth7_factor k Hs ltac:(lia)) as [Hd|[Hd|[Hd|Hd]]].
  - destruct (Hstep 2 ltac:(lia) Hd) as (a & b & c & d & E).
    pose proof (quot_mul_exact k 2 ltac:(lia) Hd) as Ek. rewrite E in Ek.
    exists (S a), b, c, d. rewrite Nat2Z.inj_succ, Z.pow_succ_r by lia. lia.
  - destruct (Hstep 3 ltac:(lia) Hd) as (a & b & c & d & E).
    pose proof (quot_mul_exact k 3 ltac:(lia) Hd) as Ek. rewrite E in Ek.
    exists a, (S b), c, d. rewrite Nat2Z.inj_succ, Z.pow_succ_r by lia. lia.
  - destruct (Hstep 5 ltac:(lia) Hd) as (a & b & c & d & E).
    pose proof (quot_mul_exact k 5 ltac:(lia) Hd) as Ek. rewrite E in Ek.
    exists a, b, (S c), d. rewrite Nat2Z.inj_succ, Z.pow_succ_r by lia. lia.
  - destruct (Hstep 7 ltac:(lia) Hd) as (a & b & c & d & E).
    pose proof (quot_mul_exact k 7 ltac:(lia) Hd) as Ek. rewrite E in Ek.
    exists a, b, c, (S d). rewrite Nat2Z.inj_succ, Z.pow_succ_r by lia. lia.
Qed.

Lemma smooth7_exponents k :
  smooth7 k ->
  exists a b c d : nat,
    k = 7 ^ Z.of_nat d * 5 ^ Z.of_nat c * 3 ^ Z.of_nat b * 2 ^ Z.of_nat a.
Proof.
  intros Hs. apply (smooth7_exponents_bounded (Z.to_nat k)); [assumption|].
  destruct Hs. lia.
Qed.

Lemma powers_in (n : nat) :
  forall fuel p bound start,
    (n < fuel)%nat -> 1 <= p -> 1 <= start -> start * p ^ Z.of_nat n <= bound ->
    In (start * p ^ Z.of_nat n) (powers fuel p bound start).
Proof.
  induction n as [|n IH]; intros fuel p bound start Hfuel Hp Hstart Hb;
    (destruct fuel as [|fuel]; [lia|]); cbn [powers].
  - change (Z.of_nat 0) with 0 in *. rewrite Z.pow_0_r, Z.mul_1_r in *.
    destruct (Z.leb_spec start bound); [left; reflexivity|lia].
  - rewrite Nat2Z.inj_succ, Z.pow_succ_r in * by lia.
    assert (Hpow : 1 <= p ^ Z.of_nat n)
      by (pose proof (Z.pow_pos_nonneg p (Z.of_nat n) ltac:(lia) ltac:(lia)); lia).
    assert (Hpp : 1 <= p * p ^ Z.of_nat n) by nia.
    assert (Hsb : start <= start * (p * p ^ Z.of_nat n)) by nia.
    destruct (Z.leb_spec start bound); [|lia].
    right. replace (start * (p * p ^ Z.of_nat n)) with (start * p * p ^ Z.of_nat n) by lia.
    apply IH; [lia|lia|nia|lia].
Qed.

Lemma exponent_bound p n x :
  2 <= p -> 1 <= x -> x * p ^ Z.of_nat n <= Int32.max_int -> (n < 32)%nat.
Proof.
  intros Hp Hx Hb.
  assert (2 ^ Z.of_nat n <= p ^ Z.of_nat n) by (apply Z.pow_le_mono_l; lia).
  assert (0 < 2 ^ Z.of_nat n) by (apply Z.pow_pos_nonneg; lia).
  assert (Hlt : (n < 31)%nat) by (apply pow2_int_bound; nia). lia.
Qed.

(** The enumeration misses no legal [int]. *)
Lemma smooth_upto_complete k :
  smooth7 k -> k <= Int32.max_int -> In k (smooth_upto Int32.max_int).
Proof.
  intros Hs Hk. destruct (smooth7_exponents k Hs) as (a & b & c & d & E).
  assert (H7 : 1 <= 7 ^ Z.of_nat d)
    by (pose proof (Z.pow_pos_nonneg 7 (Z.of_nat d) ltac:(lia) ltac:(lia)); lia).
  assert (H5 : 1 <= 5 ^ Z.of_nat c)
    by (pose proof (Z.pow_pos_nonneg 5 (Z.of_nat c) ltac:(lia) ltac:(lia)); lia).
  assert (H3 : 1 <= 3 ^ Z.of_nat b)
    by (pose proof (Z.pow_pos_nonneg 3 (Z.of_nat b) ltac:(lia) ltac:(lia)); lia).
  assert (H2 : 1 <= 2 ^ Z.of_nat a)
    by (pose proof (Z.pow_pos_nonneg 2 (Z.of_nat a) ltac:(lia) ltac:(lia)); lia).
  set (x7 := 7 ^ Z.of_nat d) in *.
  set (x5 := x7 * 5 ^ Z.of_nat c) in *.
  set (x3 := x5 * 3 ^ Z.of_nat b) in *.
  assert (Hx5 : 1 <= x5) by (subst x5; nia).
  assert (Hx3 : 1 <= x3) by (subst x3; nia).
  assert (Hx7k : x7 <= k) by (subst k x3 x5; nia).
  assert (Hx5k : x5 <= k) by (subst k x3; nia).
  assert (Hx3k : x3 <= k) by (subst k; nia).
  unfold smooth_upto. apply in_flat_map. exists x7. split.
  { replace x7 with (1 * 7 ^ Z.of_nat d) by (subst x7; lia).
    apply powers_in; [apply (exponent_bound 7 d 1)|..]; fold x7; lia. }
  apply in_flat_map. exists x5. split.
  { subst x5. apply powers_in; [apply (exponent_bound 5 c x7)|..]; lia. }
  apply in_flat_map. exists x3. split.
  { subst x3. apply powers_in; [apply (exponent_bound 3 b x5)|..]; lia. }
  rewrite E. apply powers_in; [apply (exponent_bound 2 a x3)|..]; lia.
Qed.

(** [top_legal] is the largest legal size an [int] can hold. *)
Lemma top_legal_largest k : smooth7 k -> k <= Int32.max_int -> k <= top_legal.
Proof.
  intros Hs Hk. pose proof (smooth_upto_complete k Hs Hk) as Hin.
  assert (Hall : forallb (fun x => x <=? top_legal) (smooth_upto Int32.max_int) = true)
    by (vm_compute; reflexivity).
  rewrite forallb_forall in Hall. apply Z.leb_le. apply Hall. assumption.
Qed.

(** Started above [top_legal], the search runs off the top of [int], wraps
    and returns 1. *)
Lemma search_overflows inner (n : nat) :
  (32 <= inner)%nat ->
  forall c,
    Z.of_nat n = Int32.max_int - c -> top_legal < c ->
    forall fuel, Int32.max_int - c + 4294967300 <= Z.of_nat fuel ->
                 search inner fuel c = Returns 1.
Proof.
  intros Hinner. induction n as [|n IH]; intros c Hn Hc fuel Hfuel;
    (destruct fuel as [|fuel]; [unfold Int32.max_int in *; lia|]);
    (rewrite search_rejects;
     [|assumption|unfold top_legal, Int32.max_int in *; lia
      |intros Hs; pose proof (top_legal_largest c Hs ltac:(lia)); lia]).
  - assert (c = Int32.max_int) as -> by lia.
    change (Int32.incr Int32.max_int) with (-2147483648).
    apply search_from_below; [assumption|unfold Int32.min_int; lia|].
    unfold Int32.max_int in *. lia.
  - rewrite incr_exact by (unfold top_legal, Int32.min_int, Int32.max_int in *; lia).
    apply IH; lia.
Qed.

Lemma findLegalDimension_above_top_legal minimum fuel :
  top_legal < minimum <= Int32.max_int ->
  Int32.max_int - minimum + 4294967300 <= Z.of_nat fuel ->
  findLegalDimension fuel minimum = Returns 1.
Proof.
  intros Hm Hfuel. unfold findLegalDimension.
  destruct (Z.ltb_spec minimum 1); [reflexivity|].
  apply (search_overflows fuel (Z.to_nat (Int32.max_int - minimum)));
    unfold Int32.max_int in *; lia.
Qed.

(** * The claims *)

(** ** Stage decomposition *)

(** C1.  For every [int] axis length whose prime factors all lie in
    {2, 3, 5, 7}, the stage loop of [createKernel] terminates (every budget
    of 32 iterations or more is enough) with remaining length [L = 1]; the
    radix of each pass is the first of 7, 5, 4, 3, 2 that divides the length
    current at that pass ([chain]), and the product of the radices, which is
    also the final value of [m], is the axis length. *)
Theorem stage_decomposition_complete fuel zsize threadsPerBlock blocksPerGroup :
  smooth7 zsize -> zsize <= Int32.max_int -> (32 <= fuel)%nat ->
  exists s,
    stage_loop fuel zsize threadsPerBlock blocksPerGroup = Returns s /\
    ls_L s = 1 /\
    chain zsize (ls_source s) 1 /\
    product (radices (ls_source s)) = zsize /\
    ls_m s = zsize /\
    ls_stage s = Z.of_nat (List.length (ls_source s)).
Proof.
  intros Hs Hmax Hfuel. pose proof Hs as [Hpos _].
  destruct (stage_loop_outcome fuel zsize threadsPerBlock blocksPerGroup Hfuel ltac:(lia))
    as [(_ & s & E & HL & Hm & Hst & _ & Hch)|(Hns & _)]; [|contradiction].
  exists s. repeat split; try assumption.
  pose proof (chain_product _ _ _ Hch). lia.
Qed.

Lemma stage_decomposition_complete_witness :
  exists s,
    stage_loop 32 1260 180 1 = Returns s /\
    ls_L s = 1 /\
    chain 1260 (ls_source s) 1 /\
    product (radices (ls_source s)) = 1260 /\
    ls_m s = 1260 /\
    ls_stage s = Z.of_nat (List.length (ls_source s)).
Proof.
  apply stage_decomposition_complete.
  - apply smooth7_check; [unfold Int32.max_int; lia|vm_compute; reflexivity].
  - unfold Int32.max_int; lia.
  - lia.
Defined.

(** ** getSmallestRadix on the two sizes of the specification *)

Lemma getSmallestRadix_28 (fuel : nat) :
  getSmallestRadix_traced (S (S (S fuel))) 28 = Returns (4, [7; 4]).
Proof. reflexivity. Qed.

Lemma getSmallestRadix_16 (fuel : nat) :
  getSmallestRadix_traced (S (S (S fuel))) 16 = Returns (4, [4; 4]).
Proof. reflexivity. Qed.

(** C3, as the code has it.  [getSmallestRadix(28)] returns 4, the smallest
    of the radices 7 and 4 taken while reducing 28, and
    [getSmallestRadix(16)] returns 4, the radices taken being 4 and 4. *)
Theorem getSmallestRadix_28_16 (fuel : nat) :
  getSmallestRadix (S (S (S fuel))) 28 = Returns 4 /\
  getSmallestRadix_traced (S (S (S fuel))) 28 = Returns (4, [7; 4]) /\
  minimum_of [7; 4] = Some 4 /\
  getSmallestRadix (S (S (S fuel))) 16 = Returns 4 /\
  getSmallestRadix_traced (S (S (S fuel))) 16 = Returns (4, [4; 4]) /\
  minimum_of [4; 4] = Some 4.
Proof.
  rewrite !getSmallestRadix_erase, getSmallestRadix_28, getSmallestRadix_16.
  repeat split; reflexivity.
Qed.

(** C3 as stated fails: [getSmallestRadix(28)] is 4, and no budget makes it 7. *)
Lemma getSmallestRadix_28_is_not_7 :
  getSmallestRadix 32 28 = Returns 4 /\
  (forall fuel, getSmallestRadix fuel 28 <> Returns 7).
Proof.
  split; [reflexivity|].
  intros [|[|[|fuel]]]; [discriminate|discriminate|discriminate|].
  rewrite getSmallestRadix_erase, getSmallestRadix_28. discriminate.
Qed.

(** ** findLegalDimension *)

(** C2, as the code has it.  [findLegalDimension(minimum)] returns 1 for
    every [minimum < 1].  For every [minimum] from 1 up to [top_legal]
    (2144153025, the largest legal size an [int] holds) it returns the
    smallest integer at or above [minimum] whose prime factors all lie in
    {2, 3, 5, 7}; that integer is the first candidate that trial division
    by 2, ..., 7 reduces to 1, and it is at least [minimum]. *)
Theorem findLegalDimension_smallest_legal (minimum : Z) :
  (minimum < 1 -> forall fuel, findLegalDimension fuel minimum = Returns 1) /\
  (1 <= minimum <= top_legal ->
   exists r,
     minimum <= r <= top_legal /\
     smooth7 r /\
     (forall k, minimum <= k < r -> ~ smooth7 k) /\
     trial_division 32 r = Returns 1 /\
     (forall k, minimum <= k < r -> trial_division 32 k <> Returns 1) /\
     forall fuel, (32 <= fuel)%nat -> r - minimum < Z.of_nat fuel ->
                  findLegalDimension fuel minimum = Returns r) /\
  (forall k, smooth7 k -> k <= Int32.max_int -> k <= top_legal).
Proof.
  split; [|split; [|exact top_legal_largest]].
  - intros Hm fuel. unfold findLegalDimension.
    destruct (Z.ltb_spec minimum 1); [reflexivity|lia].
  - intros Hm.
    destruct (least_legal (Z.to_nat (top_legal - minimum)) minimum ltac:(lia) ltac:(lia))
      as (r & Hr & Hs & Hleast).
    assert (Hmax : top_legal <= Int32.max_int) by (unfold top_legal, Int32.max_int; lia).
    exists r. split; [assumption|]. split; [assumption|]. split; [assumption|].
    split; [|split].
    + destruct (trial_division_spec 32 r ltac:(lia) ltac:(lia)) as (u & E & _ & Hiff).
      apply Hiff in Hs. subst u. assumption.
    + intros k Hk E. apply (Hleast k Hk). apply smooth7_check; [lia|assumption].
    + intros fuel Hfuel Hdist. unfold findLegalDimension.
      destruct (Z.ltb_spec minimum 1); [lia|].
      apply (search_finds fuel Hfuel (Z.to_nat (r - minimum))); try lia; assumption.
Qed.

Lemma findLegalDimension_smallest_legal_witness :
  exists r,
    97 <= r <= top_legal /\
    smooth7 r /\
    (forall k, 97 <= k < r -> ~ smooth7 k) /\
    trial_division 32 r = Returns 1 /\
    (forall k, 97 <= k < r -> trial_division 32 k <> Returns 1) /\
    forall fuel, (32 <= fuel)%nat -> r - 97 < Z.of_nat fuel ->
                 findLegalDimension fuel 97 = Returns r.
Proof.
  apply (proj1 (proj2 (findLegalDimension_smallest_legal 97))).
  unfold top_legal. lia.
Defined.

(** C2 as stated fails at the top of [int]: 2147483647 is prime, the
    increment wraps to -2147483648, and the search then climbs to 1. *)
Lemma findLegalDimension_wraps :
  exists r,
    (forall fuel, 2147483700 <= Z.of_nat fuel ->
                  findLegalDimension fuel 2147483647 = Returns r) /\
    ~ (2147483647 <= r) /\
    ~ smooth7 2147483647.
Proof.
  exists 1.
  assert (Hprime : ~ smooth7 2147483647).
  { apply (not_smooth7_check _ 2147483647); [unfold Int32.max_int; lia| |lia].
    vm_compute. reflexivity. }
  split; [|split; [lia|assumption]].
  intros fuel Hfuel. unfold findLegalDimension.
  destruct (Z.ltb_spec 2147483647 1); [lia|].
  assert (Hinner : (32 <= fuel)%nat) by lia.
  destruct fuel as [|fuel']; [lia|].
  rewrite search_rejects; [|assumption|unfold Int32.max_int; lia|assumption].
  change (Int32.incr 2147483647) with (-2147483648).
  apply search_from_below; [assumption|unfold Int32.min_int; lia|lia].
Qed.

(** ** The two decompositions agree *)

(** C10.  For every legal [int] axis length of at least 2, the radices taken
    by the five loops of [getSmallestRadix] are, in order, the radices of
    the passes of the stage loop (so the two pick the same multiset), and
    [getSmallestRadix] returns the minimum of them. *)
Theorem smallest_radix_is_minimum_stage_radix fuel zsize threadsPerBlock blocksPerGroup :
  smooth7 zsize -> 2 <= zsize <= Int32.max_int -> (32 <= fuel)%nat ->
  exists smallest trace s,
    getSmallestRadix fuel zsize = Returns smallest /\
    getSmallestRadix_traced fuel zsize = Returns (smallest, trace) /\
    stage_loop fuel zsize threadsPerBlock blocksPerGroup = Returns s /\
    trace = radices (ls_source s) /\
    Permutation trace (radices (ls_source s)) /\
    minimum_of (radices (ls_source s)) = Some smallest.
Proof.
  intros Hs Hz Hfuel.
  destruct (getSmallestRadix_traced_spec fuel zsize Hfuel ltac:(lia))
    as (mr & tr & u & E & Hch & Hu & Hd & Hp & Hall & Hnil & Hmin).
  destruct (stage_loop_outcome fuel zsize threadsPerBlock blocksPerGroup Hfuel ltac:(lia))
    as [(_ & s & Es & HL & Hm & Hst & _ & Hchain)|(Hns & _)]; [|contradiction].
  assert (Hu1 : u = 1).
  { destruct (Z.eq_dec u 1) as [|Hne]; [assumption|exfalso].
    apply (pick_radix_none_not_smooth u); [lia|assumption|].
    apply (smooth7_divisor zsize); [assumption|lia|assumption]. }
  subst u.
  assert (Heq : tr = radices (ls_source s)).
  { eapply rchain_unique; [exact Hch|]. apply chain_rchain. assumption. }
  exists mr, tr, s.
  split; [rewrite getSmallestRadix_erase, E; reflexivity|].
  split; [assumption|]. split; [assumption|]. split; [assumption|].
  split; [rewrite Heq; apply Permutation_refl|].
  rewrite <- Heq. apply Hmin. intros ->. cbn [rchain] in Hch. lia.
Qed.

Lemma smallest_radix_is_minimum_stage_radix_witness :
  exists smallest trace s,
    getSmallestRadix 32 1260 = Returns smallest /\
    getSmallestRadix_traced 32 1260 = Returns (smallest, trace) /\
    stage_loop 32 1260 420 1 = Returns s /\
    trace = radices (ls_source s) /\
    Permutation trace (radices (ls_source s)) /\
    minimum_of (radices (ls_source s)) = Some smallest.
Proof.
  apply smallest_radix_is_minimum_stage_radix.
  - apply smooth7_check; [unfold Int32.max_int; lia|vm_compute; reflexivity].
  - unfold Int32.max_int; lia.
  - lia.
Defined.

(** ** Block shape *)

(** C9, as the code has it.  For every legal [int] axis length,
    [createKernel] returns, with [threadsPerBlock = Z / getSmallestRadix(Z)]
    (an exact division), [blocksPerGroup = max(1, maxThreads / threadsPerBlock)],
    [maxThreads] being 128 in double and 256 in single precision, and the
    thread count it reports is [blocksPerGroup * threadsPerBlock]. *)
Theorem block_shape_of_legal_size context fuel xsize ysize zsize axis forward inputIsReal :
  smooth7 zsize -> zsize <= Int32.max_int -> (32 <= fuel)%nat ->
  exists smallest kernel r,
    getSmallestRadix fuel zsize = Returns smallest /\
    let maxThreads := if getUseDoublePrecision context then 128 else 256 in
    let threadsPerBlock := Z.quot zsize smallest in
    let blocksPerGroup := Z.max 1 (Z.quot maxThreads threadsPerBlock) in
    zsize = smallest * threadsPerBlock /\
    createKernel context fuel xsize ysize zsize axis forward inputIsReal =
      Returns (kernel, blocksPerGroup * threadsPerBlock) /\
    kernel_replacements kernel = Some r /\
    r_THREADS_PER_BLOCK r = intToString threadsPerBlock /\
    r_BLOCKS_PER_GROUP r = intToString blocksPerGroup.
Proof.
  intros Hs Hmax Hfuel. pose proof Hs as [Hpos _].
  destruct (createKernel_outcome context fuel xsize ysize zsize axis forward inputIsReal
              Hfuel ltac:(lia))
    as (smallest & E & Hsm & Hd & [(_ & s & _ & _ & _ & _ & _ & Ek)|(Hns & _)]);
    [|contradiction].
  eexists smallest, _, _. split; [exact E|]. cbv zeta.
  split; [apply quot_mul_exact; [lia|assumption]|].
  split; [exact Ek|]. split; reflexivity || (split; reflexivity).
Qed.

Lemma block_shape_of_legal_size_witness :
  exists smallest kernel r,
    getSmallestRadix 32 1260 = Returns smallest /\
    let maxThreads := if getUseDoublePrecision double_precision then 128 else 256 in
    let threadsPerBlock := Z.quot 1260 smallest in
    let blocksPerGroup := Z.max 1 (Z.quot maxThreads threadsPerBlock) in
    1260 = smallest * threadsPerBlock /\
    createKernel double_precision 32 8 9 1260 0 true false =
      Returns (kernel, blocksPerGroup * threadsPerBlock) /\
    kernel_replacements kernel = Some r /\
    r_THREADS_PER_BLOCK r = intToString threadsPerBlock /\
    r_BLOCKS_PER_GROUP r = intToString blocksPerGroup.
Proof.
  apply block_shape_of_legal_size.
  - apply smooth7_check; [unfold Int32.max_int; lia|vm_compute; reflexivity].
  - unfold Int32.max_int; lia.
  - lia.
Defined.

Lemma createKernel_11_outcome fuel xsize ysize axis forward inputIsReal :
  (32 <= fuel)%nat ->
  createKernel single_precision fuel xsize ysize 11 axis forward inputIsReal =
  Throws (illegal_size 11).
Proof.
  intros Hfuel.
  destruct (createKernel_outcome single_precision fuel xsize ysize 11 axis forward inputIsReal
              Hfuel ltac:(unfold Int32.max_int; lia))
    as (smallest & _ & _ & _ & [(Hs & _)|(_ & E)]); [exfalso|exact E].
  revert Hs. apply (not_smooth7_check 11 11); [unfold Int32.max_int; lia|reflexivity|lia].
Qed.

(** C9 as stated fails on an axis length that is not legal: for 11 the call
    throws, whatever the budget, and reports no thread count. *)
Lemma createKernel_11_reports_nothing :
  createKernel single_precision 32 11 11 11 0 true false
    = Throws "Illegal size for FFT: 11"%string /\
  (forall fuel result,
      createKernel single_precision fuel 11 11 11 0 true false <> Returns result).
Proof.
  split; [vm_compute; reflexivity|].
  intros fuel result.
  destruct (Nat.lt_ge_cases fuel 32) as [Hlt|Hge].
  - do 32 (destruct fuel as [|fuel]; [vm_compute; discriminate|]). lia.
  - rewrite createKernel_11_outcome by assumption. discriminate.
Qed.

(** At length 0 the first loop of [getSmallestRadix] never ends. *)
Lemma getSmallestRadix_0_diverges fuel : getSmallestRadix fuel 0 = OutOfFuel.
Proof.
  unfold getSmallestRadix, exhaust.
  rewrite (while_diverges (radix_divides 7) (take_radix 7) (fun st => snd st = 0)).
  - reflexivity.
  - intros [mr u] Hu. cbn [snd] in Hu. subst u. split; [reflexivity|].
    eexists. split; [reflexivity|reflexivity].
  - reflexivity.
Qed.

(** ** Exceptions *)

Section NoThrow.
Context {St : Type}.
Variable cond : St -> bool.
Variable body : St -> outcome St.
Variable P : St -> Prop.
Hypothesis Hstep :
  forall s, P s -> cond s = true -> exists s', body s = Returns s' /\ P s'.

(** A loop whose body cannot throw does not throw. *)
Lemma while_never_throws fuel :
  forall s msg, P s -> while cond body fuel s <> Throws msg.
Proof.
  induction fuel as [|fuel IH]; intros s msg Hs; [discriminate|].
  cbn [while]. destruct (cond s) eqn:Hc; [|discriminate].
  destruct (Hstep s Hs Hc) as (s' & Hb & Hs'). rewrite Hb. cbn [bind]. auto.
Qed.
End NoThrow.

Lemma exhaust_never_throws fuel r st msg : exhaust fuel r st <> Throws msg.
Proof.
  unfold exhaust. apply (while_never_throws _ _ (fun _ => True)); [|exact I].
  intros s _ _. eexists. split; [reflexivity|exact I].
Qed.

Lemma getSmallestRadix_never_throws fuel size msg : getSmallestRadix fuel size <> Throws msg.
Proof.
  unfold getSmallestRadix.
  destruct (exhaust fuel 7 (1, size)) as [st7| |] eqn:E7; cbn [bind];
    [|apply exhaust_never_throws in E7; contradiction|discriminate].
  destruct (exhaust fuel 5 st7) as [st5| |] eqn:E5; cbn [bind];
    [|apply exhaust_never_throws in E5; contradiction|discriminate].
  destruct (exhaust fuel 4 st5) as [st4| |] eqn:E4; cbn [bind];
    [|apply exhaust_never_throws in E4; contradiction|discriminate].
  destruct (exhaust fuel 3 st4) as [st3| |] eqn:E3; cbn [bind];
    [|apply exhaust_never_throws in E3; contradiction|discriminate].
  destruct (exhaust fuel 2 st3) as [st2| |] eqn:E2; cbn [bind];
    [|apply exhaust_never_throws in E2; contradiction|discriminate].
  discriminate.
Qed.

Lemma stage_loop_never_throws fuel zsize threadsPerBlock blocksPerGroup msg :
  smooth7 zsize -> zsize <= Int32.max_int ->
  stage_loop fuel zsize threadsPerBlock blocksPerGroup <> Throws msg.
Proof.
  intros Hs Hmax. unfold stage_loop.
  apply (while_never_throws _ _ (fun s => smooth7 (ls_L s) /\ ls_L s <= Int32.max_int));
    [|split; assumption].
  intros s [HsL HmL] Hc. apply Z.ltb_lt in Hc.
  unfold stage_body. destruct (pick_radix (ls_L s)) as [r|] eqn:Hp.
  - destruct (pick_radix_some _ _ Hp) as [Hf Hr].
    destruct (first_divisor_range _ _ Hf) as [_ Hd].
    eexists. split; [reflexivity|]. cbn [ls_L].
    pose proof (quot_lt_of_divide (ls_L s) r ltac:(lia) ltac:(lia) Hd).
    rewrite div_exact; [|lia| |lia].
    + split; [apply smooth7_quot; [assumption|lia|assumption]|lia].
    + unfold Int32.in_range, Int32.min_int, Int32.max_int in *. lia.
  - exfalso. exact (pick_radix_none_not_smooth _ Hc Hp HsL).
Qed.

(** On a legal length no budget lets [createKernel] throw. *)
Lemma createKernel_never_throws context fuel xsize ysize zsize axis forward inputIsReal msg :
  smooth7 zsize -> zsize <= Int32.max_int ->
  createKernel context fuel xsize ysize zsize axis forward inputIsReal <> Throws msg.
Proof.
  intros Hs Hmax. unfold createKernel.
  destruct (getSmallestRadix fuel zsize) as [smallest| |] eqn:E; cbn [bind];
    [|apply getSmallestRadix_never_throws in E; contradiction|discriminate].
  match goal with
  | |- context [stage_loop fuel zsize ?t ?b] =>
      destruct (stage_loop fuel zsize t b) as [s| |] eqn:El; cbn [bind];
      [discriminate|apply stage_loop_never_throws in El; [contradiction|assumption|assumption]
      |discriminate]
  end.
Qed.

Lemma createKernel_cases context fuel xsize ysize zsize axis forward inputIsReal :
  (32 <= fuel)%nat -> 1 <= zsize <= Int32.max_int ->
  (smooth7 zsize /\
   exists kernel threads,
     createKernel context fuel xsize ysize zsize axis forward inputIsReal =
     Returns (kernel, threads)) \/
  (~ smooth7 zsize /\
   createKernel context fuel xsize ysize zsize axis forward inputIsReal =
   Throws (illegal_size zsize)).
Proof.
  intros Hfuel Hz.
  destruct (createKernel_outcome context fuel xsize ysize zsize axis forward inputIsReal Hfuel Hz)
    as (smallest & _ & _ & _ & [(Hs & s & _ & _ & _ & _ & _ & E)|(Hns & E)]).
  - left. split; [assumption|]. eauto.
  - right. auto.
Qed.

(** The thread count depends on the context and on the length only. *)
Lemma createKernel_threads context fuel zsize x y a f r x' y' a' f' r' k t k' t' :
  createKernel context fuel x y zsize a f r = Returns (k, t) ->
  createKernel context fuel x' y' zsize a' f' r' = Returns (k', t') ->
  t = t'.
Proof.
  unfold createKernel.
  destruct (getSmallestRadix fuel zsize) as [smallest| |]; cbn [bind]; try discriminate.
  match goal with
  | |- context [stage_loop fuel zsize ?tpb ?bpg] =>
      destruct (stage_loop fuel zsize tpb bpg) as [s| |]; cbn [bind]; try discriminate
  end.
  intros [= _ <-] [= _ <-]. reflexivity.
Qed.

(** ** The constructor *)

(** A plan that was built holds the six kernels [createKernel] returned for
    the packed sizes, and their thread counts. *)
Lemma new_CudaFFT3D_kernels context fuel xs ys zs realToComplex plan :
  new_CudaFFT3D context fuel xs ys zs realToComplex = Returns plan ->
  let p := choosePacking xs ys zs realToComplex in
  let px := packedXSize p in
  let py := packedYSize p in
  let pz := packedZSize p in
  let inputIsReal := realToComplex && negb (pk_packRealAsComplex p) in
  xsize plan = xs /\ ysize plan = ys /\ zsize plan = zs /\
  packRealAsComplex plan = pk_packRealAsComplex p /\
  createKernel context fuel px py pz 0 true inputIsReal = Returns (zkernel plan, zthreads plan) /\
  createKernel context fuel py pz px 1 true inputIsReal = Returns (xkernel plan, xthreads plan) /\
  createKernel context fuel pz px py 2 true inputIsReal = Returns (ykernel plan, ythreads plan) /\
  createKernel context fuel px py pz 0 false inputIsReal = Returns (invzkernel plan, zthreads plan) /\
  createKernel context fuel py pz px 1 false inputIsReal = Returns (invxkernel plan, xthreads plan) /\
  createKernel context fuel pz px py 2 false inputIsReal = Returns (invykernel plan, ythreads plan).
Proof.
  unfold new_CudaFFT3D. cbv zeta.
  set (p := choosePacking xs ys zs realToComplex).
  set (real := realToComplex && negb (pk_packRealAsComplex p)).
  destruct (createKernel context fuel (packedXSize p) (packedYSize p) (packedZSize p) 0 true real)
    as [[k1 t1]| |] eqn:E1; cbn [bind]; try discriminate.
  destruct (createKernel context fuel (packedYSize p) (packedZSize p) (packedXSize p) 1 true real)
    as [[k2 t2]| |] eqn:E2; cbn [bind]; try discriminate.
  destruct (createKernel context fuel (packedZSize p) (packedXSize p) (packedYSize p) 2 true real)
    as [[k3 t3]| |] eqn:E3; cbn [bind]; try discriminate.
  destruct (createKernel context fuel (packedXSize p) (packedYSize p) (packedZSize p) 0 false real)
    as [[k4 t4]| |] eqn:E4; cbn [bind]; try discriminate.
  destruct (createKernel context fuel (packedYSize p) (packedZSize p) (packedXSize p) 1 false real)
    as [[k5 t5]| |] eqn:E5; cbn [bind]; try discriminate.
  destruct (createKernel context fuel (packedZSize p) (packedXSize p) (packedYSize p) 2 false real)
    as [[k6 t6]| |] eqn:E6; cbn [bind]; try discriminate.
  intros [= <-]. cbn.
  rewrite (createKernel_threads _ _ _ _ _ _ _ _ _ _ _ _ _ _ _ _ _ E1 E4).
  rewrite (createKernel_threads _ _ _ _ _ _ _ _ _ _ _ _ _ _ _ _ _ E2 E5).
  rewrite (createKernel_threads _ _ _ _ _ _ _ _ _ _ _ _ _ _ _ _ _ E3 E6).
  repeat split; reflexivity.
Qed.

(** The constructor returns a plan when the three packed sizes are legal and
    otherwise lets the exception of [createKernel] through. *)
Lemma new_CudaFFT3D_outcome context fuel xs ys zs realToComplex :
  (32 <= fuel)%nat ->
  let p := choosePacking xs ys zs realToComplex in
  1 <= packedXSize p <= Int32.max_int ->
  1 <= packedYSize p <= Int32.max_int ->
  1 <= packedZSize p <= Int32.max_int ->
  (smooth7 (packedXSize p) /\ smooth7 (packedYSize p) /\ smooth7 (packedZSize p) /\
   exists plan, new_CudaFFT3D context fuel xs ys zs realToComplex = Returns plan) \/
  (exists n, In n [packedZSize p; packedXSize p; packedYSize p] /\ ~ smooth7 n /\
             new_CudaFFT3D context fuel xs ys zs realToComplex = Throws (illegal_size n)).
Proof.
  intros Hfuel p Hx Hy Hz. unfold new_CudaFFT3D. fold p.
  set (real := realToComplex && negb (pk_packRealAsComplex p)).
  destruct (createKernel_cases context fuel (packedXSize p) (packedYSize p) (packedZSize p)
              0 true real Hfuel Hz) as [(Sz & k1 & t1 & E1)|(Nz & E1)]; rewrite E1; cbn [bind].
  2:{ right. exists (packedZSize p). cbn [In]. auto. }
  destruct (createKernel_cases context fuel (packedYSize p) (packedZSize p) (packedXSize p)
              1 true real Hfuel Hx) as [(Sx & k2 & t2 & E2)|(Nx & E2)]; rewrite E2; cbn [bind].
  2:{ right. exists (packedXSize p). cbn [In]. auto. }
  destruct (createKernel_cases context fuel (packedZSize p) (packedXSize p) (packedYSize p)
              2 true real Hfuel Hy) as [(Sy & k3 & t3 & E3)|(Ny & E3)]; rewrite E3; cbn [bind].
  2:{ right. exists (packedYSize p). cbn [In]. auto. }
  destruct (createKernel_cases context fuel (packedXSize p) (packedYSize p) (packedZSize p)
              0 false real Hfuel Hz) as [(_ & k4 & t4 & E4)|(Nz & _)]; [|contradiction].
  destruct (createKernel_cases context fuel (packedYSize p) (packedZSize p) (packedXSize p)
              1 false real Hfuel Hx) as [(_ & k5 & t5 & E5)|(Nx & _)]; [|contradiction].
  destruct (createKernel_cases context fuel (packedZSize p) (packedXSize p) (packedYSize p)
              2 false real Hfuel Hy) as [(_ & k6 & t6 & E6)|(Ny & _)]; [|contradiction].
  rewrite E4; cbn [bind]. rewrite E5; cbn [bind]. rewrite E6; cbn [bind].
  left. do 3 (split; [assumption|]). eexists. reflexivity.
Qed.

(** C8.  An iteration of the stage loop throws exactly when it is entered
    ([L > 1]) with [L] divisible by none of 7, 5, 4, 3, 2, and the message is
    "Illegal size for FFT: " followed by the axis length.  For a positive
    [int] axis length [createKernel] throws exactly when the length is not
    legal; on a legal length it throws under no budget.  The exception of a
    [createKernel] call leaves the constructor as it is. *)
Theorem illegal_size_throws context fuel xsize ysize zsize axis forward inputIsReal :
  (32 <= fuel)%nat -> 1 <= zsize <= Int32.max_int ->
  (forall threadsPerBlock blocksPerGroup s,
      ((1 <? ls_L s) = true /\
       stage_body zsize threadsPerBlock blocksPerGroup s = Throws (illegal_size zsize)) <->
      (1 < ls_L s /\ ~ (7 | ls_L s) /\ ~ (5 | ls_L s) /\ ~ (4 | ls_L s) /\
       ~ (3 | ls_L s) /\ ~ (2 | ls_L s))) /\
  (forall threadsPerBlock blocksPerGroup s msg,
      stage_body zsize threadsPerBlock blocksPerGroup s = Throws msg ->
      msg = ("Illegal size for FFT: " ++ intToString zsize)%string) /\
  (createKernel context fuel xsize ysize zsize axis forward inputIsReal
     = Throws (illegal_size zsize) <-> ~ smooth7 zsize) /\
  (smooth7 zsize ->
   forall fuel' msg,
     createKernel context fuel' xsize ysize zsize axis forward inputIsReal <> Throws msg) /\
  (forall xs ys zs realToComplex,
      let p := choosePacking xs ys zs realToComplex in
      1 <= packedXSize p <= Int32.max_int ->
      1 <= packedYSize p <= Int32.max_int ->
      1 <= packedZSize p <= Int32.max_int ->
      ~ (smooth7 (packedXSize p) /\ smooth7 (packedYSize p) /\ smooth7 (packedZSize p)) ->
      exists n, In n [packedZSize p; packedXSize p; packedYSize p] /\ ~ smooth7 n /\
                new_CudaFFT3D context fuel xs ys zs realToComplex = Throws (illegal_size n)).
Proof.
  intros Hfuel Hz. split; [|split; [|split; [|split]]].
  - intros tpb bpg s. rewrite Z.ltb_lt, <- pick_radix_none. unfold stage_body.
    destruct (pick_radix (ls_L s)); split; intros [H1 H2]; (split; [assumption|]);
      congruence.
  - intros tpb bpg s msg. unfold stage_body.
    destruct (pick_radix (ls_L s)); [discriminate|]. intros [= <-]. reflexivity.
  - destruct (createKernel_cases context fuel xsize ysize zsize axis forward inputIsReal Hfuel Hz)
      as [(Hs & k & t & E)|(Hns & E)]; rewrite E; split; intros H;
      first [discriminate|contradiction|assumption|reflexivity].
  - intros Hs fuel' msg. apply createKernel_never_throws; [assumption|lia].
  - intros xs ys zs r2c p Hx Hy Hz' Hnot.
    destruct (new_CudaFFT3D_outcome context fuel xs ys zs r2c Hfuel Hx Hy Hz')
      as [(Sx & Sy & Sz & _)|H]; [exfalso; apply Hnot; auto|exact H].
Qed.

Lemma illegal_size_throws_witness :
  createKernel single_precision 32 12 12 22 0 true false = Throws (illegal_size 22) <->
  ~ smooth7 22.
Proof.
  apply (illegal_size_throws single_precision 32 12 12 22 0 true false).
  - lia.
  - unfold Int32.max_int. lia.
Defined.

(** ** Packing *)

Lemma div2_exact n : Int32.in_range n -> Int32.div n 2 = Z.quot n 2.
Proof.
  intros Hn. unfold Int32.div. apply wrap_in_range.
  unfold Int32.in_range, Int32.min_int, Int32.max_int in *.
  pose proof (Z.quot_rem' n 2).
  pose proof (Z.rem_bound_abs n 2 ltac:(lia)). lia.
Qed.

Lemma half_of_even n : Int32.in_range n -> Int32.rem n 2 = 0 -> 2 * Int32.div n 2 = n.
Proof.
  intros Hn He. rewrite div2_exact by assumption. unfold Int32.rem in He.
  pose proof (Z.quot_rem' n 2). lia.
Qed.

(** C4.  A construction that is not real-to-complex packs nothing.  A
    real-to-complex construction packs the first even axis in the order X,
    Y, Z, that axis only, and halves its size for the core transform; when
    the three sizes are odd it packs nothing and takes the direct real path
    ([inputIsReal] is true).  The kernels of a built plan are created for
    the packed sizes.  Sizes (5,6,7) pack Y; sizes (5,7,9) pack no axis. *)
Theorem packing_selects_first_even_axis xs ys zs (realToComplex : bool) :
  Int32.in_range xs -> Int32.in_range ys -> Int32.in_range zs ->
  let p := choosePacking xs ys zs realToComplex in
  let inputIsReal := realToComplex && negb (pk_packRealAsComplex p) in
  (realToComplex = false ->
   pk_packRealAsComplex p = false /\ pk_packedAxis p = None /\ inputIsReal = false /\
   packedXSize p = xs /\ packedYSize p = ys /\ packedZSize p = zs) /\
  (realToComplex = true -> Z.rem xs 2 = 0 ->
   pk_packRealAsComplex p = true /\ pk_packedAxis p = Some 0 /\ inputIsReal = false /\
   2 * packedXSize p = xs /\ packedYSize p = ys /\ packedZSize p = zs) /\
  (realToComplex = true -> Z.rem xs 2 <> 0 -> Z.rem ys 2 = 0 ->
   pk_packRealAsComplex p = true /\ pk_packedAxis p = Some 1 /\ inputIsReal = false /\
   packedXSize p = xs /\ 2 * packedYSize p = ys /\ packedZSize p = zs) /\
  (realToComplex = true -> Z.rem xs 2 <> 0 -> Z.rem ys 2 <> 0 -> Z.rem zs 2 = 0 ->
   pk_packRealAsComplex p = true /\ pk_packedAxis p = Some 2 /\ inputIsReal = false /\
   packedXSize p = xs /\ packedYSize p = ys /\ 2 * packedZSize p = zs) /\
  (realToComplex = true -> Z.rem xs 2 <> 0 -> Z.rem ys 2 <> 0 -> Z.rem zs 2 <> 0 ->
   pk_packRealAsComplex p = false /\ pk_packedAxis p = None /\ inputIsReal = true /\
   packedXSize p = xs /\ packedYSize p = ys /\ packedZSize p = zs) /\
  (forall context fuel plan,
      new_CudaFFT3D context fuel xs ys zs realToComplex = Returns plan ->
      packRealAsComplex plan = pk_packRealAsComplex p /\
      createKernel context fuel (packedXSize p) (packedYSize p) (packedZSize p) 0 true inputIsReal
        = Returns (zkernel plan, zthreads plan) /\
      createKernel context fuel (packedYSize p) (packedZSize p) (packedXSize p) 1 true inputIsReal
        = Returns (xkernel plan, xthreads plan) /\
      createKernel context fuel (packedZSize p) (packedXSize p) (packedYSize p) 2 true inputIsReal
        = Returns (ykernel plan, ythreads plan)) /\
  (pk_packedAxis (choosePacking 5 6 7 true) = Some 1 /\
   packedYSize (choosePacking 5 6 7 true) = 3 /\
   exists plan, new_CudaFFT3D single_precision 32 5 6 7 true = Returns plan /\
                packRealAsComplex plan = true) /\
  (pk_packedAxis (choosePacking 5 7 9 true) = None /\
   exists plan, new_CudaFFT3D single_precision 32 5 7 9 true = Returns plan /\
                packRealAsComplex plan = false).
Proof.
  intros Hx Hy Hz. cbv zeta.
  split; [|split; [|split; [|split; [|split; [|split; [|split]]]]]].
  - intros ->. cbn. auto 10.
  - intros -> Ex. unfold choosePacking, Int32.rem. rewrite Ex. cbn.
    pose proof (half_of_even xs Hx Ex). auto 10.
  - intros -> Ex Ey. unfold choosePacking, Int32.rem. rewrite Ey.
    destruct (Z.eqb_spec (Z.rem xs 2) 0); [contradiction|]. cbn.
    pose proof (half_of_even ys Hy Ey). auto 10.
  - intros -> Ex Ey Ez. unfold choosePacking, Int32.rem. rewrite Ez.
    destruct (Z.eqb_spec (Z.rem xs 2) 0); [contradiction|].
    destruct (Z.eqb_spec (Z.rem ys 2) 0); [contradiction|]. cbn.
    pose proof (half_of_even zs Hz Ez). auto 10.
  - intros -> Ex Ey Ez. unfold choosePacking, Int32.rem.
    destruct (Z.eqb_spec (Z.rem xs 2) 0); [contradiction|].
    destruct (Z.eqb_spec (Z.rem ys 2) 0); [contradiction|].
    destruct (Z.eqb_spec (Z.rem zs 2) 0); [contradiction|]. cbn. auto 10.
  - intros context fuel plan E.
    destruct (new_CudaFFT3D_kernels _ _ _ _ _ _ _ E) as (_ & _ & _ & Hp & K1 & K2 & K3 & _).
    auto.
  - split; [reflexivity|]. split; [reflexivity|].
    eexists. split; [vm_compute; reflexivity|reflexivity].
  - split; [reflexivity|].
    eexists. split; [vm_compute; reflexivity|reflexivity].
Qed.

Lemma packing_selects_first_even_axis_witness :
  pk_packRealAsComplex (choosePacking 5 6 7 true) = true /\
  pk_packedAxis (choosePacking 5 6 7 true) = Some 1 /\
  true && negb (pk_packRealAsComplex (choosePacking 5 6 7 true)) = false /\
  packedXSize (choosePacking 5 6 7 true) = 5 /\
  2 * packedYSize (choosePacking 5 6 7 true) = 6 /\
  packedZSize (choosePacking 5 6 7 true) = 7.
Proof.
  apply (packing_selects_first_even_axis 5 6 7 true);
    first [reflexivity | discriminate
          | unfold Int32.in_range, Int32.min_int, Int32.max_int; lia].
Defined.

(** ** Execution *)

Lemma mul3_exact x y z :
  Int32.in_range (x * y) -> Int32.in_range (x * y * z) ->
  Int32.mul (Int32.mul x y) z = x * y * z.
Proof.
  intros Hxy Hxyz. unfold Int32.mul. rewrite (wrap_in_range (x * y)) by assumption.
  apply wrap_in_range. assumption.
Qed.

(** The [int] product of three sizes is their product reduced once: a wrap
    of the first product does not show in the result. *)
Lemma wrap_mul_wrap a z : Int32.wrap (Int32.wrap a * z) = Int32.wrap (a * z).
Proof.
  unfold Int32.wrap.
  pose proof (Z.div_mod (a + 2147483648) 4294967296 ltac:(lia)) as H.
  set (q := (a + 2147483648) / 4294967296) in *.
  set (r := (a + 2147483648) mod 4294967296) in *.
  assert (E : r - 2147483648 = a - 4294967296 * q) by lia.
  rewrite E.
  replace ((a - 4294967296 * q) * z + 2147483648)
    with (a * z + 2147483648 + (- q * z) * 4294967296) by ring.
  rewrite Z_mod_plus_full. reflexivity.
Qed.

Lemma mul3_product x y z :
  Int32.in_range (x * y * z) -> Int32.mul (Int32.mul x y) z = x * y * z.
Proof.
  intros H. unfold Int32.mul. rewrite wrap_mul_wrap. apply wrap_in_range. assumption.
Qed.

(** C5, as the code has it.  On a plan without packing [execFFT] appends
    exactly three launches: the Z kernel, the X kernel, the Y kernel (the
    inverse ones when [forward] is false), with arguments [{in, out}],
    [{out, in}], [{in, out}], that is [out = f(in)], [in = f(out)],
    [out = f(in)], each with the thread count of its axis as block size.
    Each covers the [int] value of [xsize*ysize*zsize] elements, which is
    the product of the three sizes provided that product fits in [int]. *)
Theorem direct_path_launches plan in_ out (forward : bool) queue :
  packRealAsComplex plan = false ->
  let elements := Int32.mul (Int32.mul (xsize plan) (ysize plan)) (zsize plan) in
  let launches := [
    {| launch_kernel := if forward then zkernel plan else invzkernel plan;
       launch_args := [getDevicePointer in_; getDevicePointer out];
       launch_threads := elements; launch_blockSize := zthreads plan |};
    {| launch_kernel := if forward then xkernel plan else invxkernel plan;
       launch_args := [getDevicePointer out; getDevicePointer in_];
       launch_threads := elements; launch_blockSize := xthreads plan |};
    {| launch_kernel := if forward then ykernel plan else invykernel plan;
       launch_args := [getDevicePointer in_; getDevicePointer out];
       launch_threads := elements; launch_blockSize := ythreads plan |} ] in
  execFFT plan in_ out forward queue = queue ++ launches /\
  List.length (execFFT plan in_ out forward queue) = (List.length queue + 3)%nat /\
  map launch_roles launches = direct_alternation in_ out /\
  (Int32.in_range (xsize plan * ysize plan * zsize plan) ->
   elements = xsize plan * ysize plan * zsize plan /\
   map launch_threads launches =
     [xsize plan * ysize plan * zsize plan; xsize plan * ysize plan * zsize plan;
      xsize plan * ysize plan * zsize plan]).
Proof.
  intros Hp. cbv zeta.
  assert (E : execFFT plan in_ out forward queue = queue ++ [
    {| launch_kernel := if forward then zkernel plan else invzkernel plan;
       launch_args := [getDevicePointer in_; getDevicePointer out];
       launch_threads := Int32.mul (Int32.mul (xsize plan) (ysize plan)) (zsize plan);
       launch_blockSize := zthreads plan |};
    {| launch_kernel := if forward then xkernel plan else invxkernel plan;
       launch_args := [getDevicePointer out; getDevicePointer in_];
       launch_threads := Int32.mul (Int32.mul (xsize plan) (ysize plan)) (zsize plan);
       launch_blockSize := xthreads plan |};
    {| launch_kernel := if forward then ykernel plan else invykernel plan;
       launch_args := [getDevicePointer in_; getDevicePointer out];
       launch_threads := Int32.mul (Int32.mul (xsize plan) (ysize plan)) (zsize plan);
       launch_blockSize := ythreads plan |} ]).
  { unfold execFFT. rewrite Hp. unfold executeKernel. rewrite <- !app_assoc. reflexivity. }
  split; [exact E|]. split; [rewrite E, length_app; reflexivity|].
  split; [reflexivity|].
  intros Hfit. cbn [map launch_threads]. rewrite (mul3_product _ _ _ Hfit). auto.
Qed.

Lemma direct_path_launches_witness :
  exists plan,
    new_CudaFFT3D single_precision 32 5 7 9 true = Returns plan /\
    List.length (execFFT plan buffer_a buffer_b true []) = 3%nat /\
    map launch_threads (execFFT plan buffer_a buffer_b true []) = [315; 315; 315].
Proof.
  eexists. split; [vm_compute; reflexivity|].
  match goal with
  | |- List.length (execFFT ?p _ _ _ _) = _ /\ _ =>
      pose proof (direct_path_launches p buffer_a buffer_b true [] eq_refl) as H
  end.
  cbv zeta in H. destruct H as (E & Hlen & _ & Hfit).
  split; [exact Hlen|].
  rewrite E. cbn [app].
  refine (proj2 (Hfit _)).
  unfold Int32.in_range, Int32.min_int, Int32.max_int. cbn. lia.
Defined.

(** C5 as stated fails when the product of the sizes does not fit in
    [int]: the complex plan for the legal grid 1280 x 1280 x 1536 is built,
    and its three launches cover -1778384896 elements, not
    1280 * 1280 * 1536 = 2516582400. *)
Lemma direct_path_size_wraps :
  exists plan,
    new_CudaFFT3D single_precision 32 1280 1280 1536 false = Returns plan /\
    packRealAsComplex plan = false /\
    xsize plan * ysize plan * zsize plan = 2516582400 /\
    map launch_threads (execFFT plan buffer_a buffer_b true []) =
      [-1778384896; -1778384896; -1778384896] /\
    map launch_threads (execFFT plan buffer_a buffer_b true []) <>
      [xsize plan * ysize plan * zsize plan; xsize plan * ysize plan * zsize plan;
       xsize plan * ysize plan * zsize plan].
Proof.
  eexists. split; [vm_compute; reflexivity|].
  split; [reflexivity|]. split; [reflexivity|]. split; [vm_compute; reflexivity|].
  vm_compute. discriminate.
Qed.

(** C6, as the code has it.  On a plan with packing [execFFT] appends exactly
    five launches: the pack kernel with arguments [{in, out}], the Z kernel
    with [{out, in}], the X kernel with [{in, out}], the Y kernel with
    [{out, in}] and the unpack kernel with [{in, out}] (the inverse and
    backward kernels when [forward] is false).  All five cover
    [xsize*ysize*zsize/2] elements; pack and unpack use block size 128 and
    each axis kernel the thread count of its axis. *)
Theorem packed_path_launches plan in_ out (forward : bool) queue :
  packRealAsComplex plan = true ->
  let gridSize :=
    Int32.div (Int32.mul (Int32.mul (xsize plan) (ysize plan)) (zsize plan)) 2 in
  let launches := [
    {| launch_kernel := if forward then packForwardKernel plan else packBackwardKernel plan;
       launch_args := [getDevicePointer in_; getDevicePointer out];
       launch_threads := gridSize; launch_blockSize := 128 |};
    {| launch_kernel := if forward then zkernel plan else invzkernel plan;
       launch_args := [getDevicePointer out; getDevicePointer in_];
       launch_threads := gridSize; launch_blockSize := zthreads plan |};
    {| launch_kernel := if forward then xkernel plan else invxkernel plan;
       launch_args := [getDevicePointer in_; getDevicePointer out];
       launch_threads := gridSize; launch_blockSize := xthreads plan |};
    {| launch_kernel := if forward then ykernel plan else invykernel plan;
       launch_args := [getDevicePointer out; getDevicePointer in_];
       launch_threads := gridSize; launch_blockSize := ythreads plan |};
    {| launch_kernel := if forward then unpackForwardKernel plan else unpackBackwardKernel plan;
       launch_args := [getDevicePointer in_; getDevicePointer out];
       launch_threads := gridSize; launch_blockSize := 128 |} ] in
  execFFT plan in_ out forward queue = queue ++ launches /\
  List.length (execFFT plan in_ out forward queue) = (List.length queue + 5)%nat /\
  map launch_destination launches =
    [Some (getDevicePointer out); Some (getDevicePointer in_); Some (getDevicePointer out);
     Some (getDevicePointer in_); Some (getDevicePointer out)] /\
  (Int32.in_range (xsize plan * ysize plan) ->
   Int32.in_range (xsize plan * ysize plan * zsize plan) ->
   gridSize = Z.quot (xsize plan * ysize plan * zsize plan) 2).
Proof.
  intros Hp. cbv zeta.
  split; [|split; [|split]].
  - unfold execFFT. rewrite Hp. unfold executeKernel. rewrite <- !app_assoc. reflexivity.
  - unfold execFFT. rewrite Hp. unfold executeKernel. rewrite !length_app. cbn [List.length]. lia.
  - reflexivity.
  - intros Hxy Hxyz. rewrite mul3_exact by assumption. apply div2_exact. assumption.
Qed.

Lemma packed_path_launches_witness :
  exists plan,
    new_CudaFFT3D single_precision 32 4 4 4 true = Returns plan /\
    List.length (execFFT plan buffer_a buffer_b true []) = 5%nat.
Proof.
  eexists. split; [vm_compute; reflexivity|].
  refine (proj1 (proj2 (packed_path_launches _ buffer_a buffer_b true [] _))).
  reflexivity.
Defined.

(** C6 as stated fails: on the packed plan for (4,4,4) the pack kernel
    writes the output buffer, not the input, and the three axis launches
    alternate [in = f(out)], [out = f(in)], [in = f(out)], the reverse of
    what the direct plan for the same sizes and buffers does. *)
Lemma packed_path_reverses_alternation :
  exists packed direct,
    new_CudaFFT3D single_precision 32 4 4 4 true = Returns packed /\
    packRealAsComplex packed = true /\
    new_CudaFFT3D single_precision 32 4 4 4 false = Returns direct /\
    packRealAsComplex direct = false /\
    let queue := execFFT packed buffer_a buffer_b true [] in
    let direct_queue := execFFT direct buffer_a buffer_b true [] in
    option_map launch_destination (hd_error queue)
      = Some (Some (getDevicePointer buffer_b)) /\
    map launch_roles (inner_launches queue) =
      [(Some (getDevicePointer buffer_b), Some (getDevicePointer buffer_a));
       (Some (getDevicePointer buffer_a), Some (getDevicePointer buffer_b));
       (Some (getDevicePointer buffer_b), Some (getDevicePointer buffer_a))] /\
    map launch_roles direct_queue = direct_alternation buffer_a buffer_b /\
    map launch_roles (inner_launches queue) <> map launch_roles direct_queue /\
    map launch_args (inner_launches queue) <> map launch_args direct_queue.
Proof.
  eexists _, _. split; [vm_compute; reflexivity|].
  split; [reflexivity|]. split; [vm_compute; reflexivity|].
  split; [reflexivity|]. cbv zeta.
  split; [reflexivity|]. split; [reflexivity|]. split; [reflexivity|].
  split; discriminate.
Qed.

(** The grid size of the packed path is an [int] expression as well: the
    packed plan for the legal grid 1280 x 1280 x 1536 is built, and its five
    launches cover -889192448 elements, where half the product of the sizes
    is 1258291200. *)
Lemma packed_path_size_wraps :
  exists plan,
    new_CudaFFT3D single_precision 32 1280 1280 1536 true = Returns plan /\
    packRealAsComplex plan = true /\
    Z.quot (xsize plan * ysize plan * zsize plan) 2 = 1258291200 /\
    map launch_threads (execFFT plan buffer_a buffer_b true []) =
      [-889192448; -889192448; -889192448; -889192448; -889192448].
Proof.
  eexists. split; [vm_compute; reflexivity|].
  split; [reflexivity|]. split; [reflexivity|]. vm_compute. reflexivity.
Qed.

(** ** The final stage *)

Local Open Scope string_scope.

Lemma final_stage_flags stage (outputIsReal outputIsPacked : bool) :
  (0 <= stage)%Z ->
  writes_real_only (final_stage stage outputIsReal outputIsPacked) = outputIsReal /\
  writes_half_columns (final_stage stage outputIsReal outputIsPacked) = outputIsPacked /\
  writes_all_columns (final_stage stage outputIsReal outputIsPacked) = negb outputIsPacked.
Proof.
  intros Hs. unfold final_stage.
  assert (Hrem : Int32.rem stage 2 = 0%Z \/ Int32.rem stage 2 = 1%Z).
  { unfold Int32.rem. pose proof (Z.rem_bound_pos stage 2 Hs ltac:(lia)). lia. }
  destruct Hrem as [-> | ->]; destruct outputIsReal, outputIsPacked;
    vm_compute; repeat split; reflexivity.
Qed.

Lemma output_flag_iff (inputIsReal forward : bool) axis :
  inputIsReal && (axis =? 2)%Z && forward = true <->
  inputIsReal = true /\ axis = 2%Z /\ forward = true.
Proof. rewrite !andb_true_iff, Z.eqb_eq. tauto. Qed.

(** C7, as the code has it.  On every legal axis length [createKernel]
    returns a kernel whose final stage keeps only the real component
    exactly when [inputIsReal] holds, the axis index is 2 (the axis
    transformed last) and the transform is the inverse one, and writes only
    [XSIZE/2+1] columns exactly when [inputIsReal] holds, the axis index is 2
    and the transform is the forward one.  In every other configuration it
    writes full complex samples over all columns. *)
Theorem final_stage_narrowing context fuel xsize ysize zsize axis (forward inputIsReal : bool) :
  smooth7 zsize -> (zsize <= Int32.max_int)%Z -> (32 <= fuel)%nat ->
  exists kernel threads r passes text,
    createKernel context fuel xsize ysize zsize axis forward inputIsReal
      = Returns (kernel, threads) /\
    kernel_replacements kernel = Some r /\
    r_COMPUTE_FFT r = (passes, text) /\
    (writes_real_only text = true <->
     inputIsReal = true /\ axis = 2%Z /\ forward = false) /\
    (r_OUTPUT_TYPE r = "real" <->
     inputIsReal = true /\ axis = 2%Z /\ forward = false) /\
    (writes_half_columns text = true <->
     inputIsReal = true /\ axis = 2%Z /\ forward = true) /\
    (r_OUTPUT_IS_PACKED r = "1" <->
     inputIsReal = true /\ axis = 2%Z /\ forward = true) /\
    writes_all_columns text = negb (writes_half_columns text) /\
    (~ (inputIsReal = true /\ axis = 2%Z) ->
     writes_real_only text = false /\ writes_half_columns text = false /\
     writes_all_columns text = true /\ r_OUTPUT_TYPE r = "real2").
Proof.
  intros Hs Hmax Hfuel. pose proof Hs as [Hpos _].
  destruct (createKernel_outcome context fuel xsize ysize zsize axis forward inputIsReal
              Hfuel ltac:(lia))
    as (smallest & _ & _ & _ & [(_ & s & _ & _ & _ & Hst & _ & Ek)|(Hns & _)]);
    [|contradiction].
  assert (Hstage : (0 <= ls_stage s)%Z) by lia.
  set (oreal := inputIsReal && (axis =? 2)%Z && negb forward).
  set (opacked := inputIsReal && (axis =? 2)%Z && forward).
  destruct (final_stage_flags (ls_stage s) oreal opacked Hstage) as (F1 & F2 & F3).
  assert (Hreal : oreal = true <-> inputIsReal = true /\ axis = 2%Z /\ forward = false).
  { unfold oreal. rewrite output_flag_iff, negb_true_iff. tauto. }
  assert (Hpacked : opacked = true <-> inputIsReal = true /\ axis = 2%Z /\ forward = true)
    by apply output_flag_iff.
  eexists _, _, _, (ls_source s), (final_stage (ls_stage s) oreal opacked).
  split; [exact Ek|]. split; [reflexivity|]. split; [reflexivity|].
  cbn [replacements_of r_OUTPUT_TYPE r_OUTPUT_IS_PACKED]. fold oreal opacked.
  rewrite F1, F2, F3.
  split; [exact Hreal|].
  split; [rewrite <- Hreal; destruct oreal; split; (reflexivity || discriminate)|].
  split; [exact Hpacked|].
  split; [rewrite <- Hpacked; destruct opacked; split; (reflexivity || discriminate)|].
  split; [reflexivity|].
  intros Hnot.
  assert (oreal = false) as -> by (destruct oreal; [exfalso; apply Hnot; tauto|reflexivity]).
  assert (opacked = false) as -> by (destruct opacked; [exfalso; apply Hnot; tauto|reflexivity]).
  repeat split; reflexivity.
Qed.

Lemma final_stage_narrowing_witness :
  exists kernel threads r passes text,
    createKernel single_precision 32 5 7 9 2 true true = Returns (kernel, threads) /\
    kernel_replacements kernel = Some r /\
    r_COMPUTE_FFT r = (passes, text) /\
    (writes_real_only text = true <-> true = true /\ 2%Z = 2%Z /\ true = false) /\
    (r_OUTPUT_TYPE r = "real" <-> true = true /\ 2%Z = 2%Z /\ true = false) /\
    (writes_half_columns text = true <-> true = true /\ 2%Z = 2%Z /\ true = true) /\
    (r_OUTPUT_IS_PACKED r = "1" <-> true = true /\ 2%Z = 2%Z /\ true = true) /\
    writes_all_columns text = negb (writes_half_columns text) /\
    (~ (true = true /\ 2%Z = 2%Z) ->
     writes_real_only text = false /\ writes_half_columns text = false /\
     writes_all_columns text = true /\ r_OUTPUT_TYPE r = "real2").
Proof.
  apply final_stage_narrowing.
  - apply smooth7_check; [unfold Int32.max_int; lia|vm_compute; reflexivity].
  - unfold Int32.max_int; lia.
  - lia.
Defined.

(** C7 as stated fails: in the real-input forward transform of a (5,7,9)
    grid, the kernel launched first (the first transform axis, the one that
    reads real input) writes all columns, and the kernel launched last is
    the one that writes [XSIZE/2+1] columns. *)
Lemma first_axis_writes_all_columns :
  exists plan first second last r1 r3,
    new_CudaFFT3D single_precision 32 5 7 9 true = Returns plan /\
    execFFT plan buffer_a buffer_b true [] = [first; second; last] /\
    kernel_replacements (launch_kernel first) = Some r1 /\
    r_INPUT_IS_REAL r1 = "1" /\
    writes_half_columns (snd (r_COMPUTE_FFT r1)) = false /\
    writes_all_columns (snd (r_COMPUTE_FFT r1)) = true /\
    r_OUTPUT_IS_PACKED r1 = "0" /\
    kernel_replacements (launch_kernel last) = Some r3 /\
    r_INPUT_IS_REAL r3 = "0" /\
    writes_half_columns (snd (r_COMPUTE_FFT r3)) = true /\
    r_OUTPUT_IS_PACKED r3 = "1".
Proof.
  eexists _, _, _, _, _, _.
  split; [vm_compute; reflexivity|].
  split; [vm_compute; reflexivity|].
  split; [vm_compute; reflexivity|].
  split; [reflexivity|]. split; [vm_compute; reflexivity|].
  split; [vm_compute; reflexivity|]. split; [reflexivity|].
  split; [vm_compute; reflexivity|].
  split; [reflexivity|]. split; [vm_compute; reflexivity|]. reflexivity.
Qed.

Local Close Scope string_scope.

(** * Further properties *)

(** ** The legalizer *)

Lemma legalizes_least minimum r :
  1 <= minimum -> minimum <= r -> r <= Int32.max_int -> smooth7 r ->
  (forall k, minimum <= k < r -> ~ smooth7 k) ->
  legalizes minimum r.
Proof.
  intros Hm Hr Hmax Hs Hleast fuel Hfuel Hdist. unfold findLegalDimension.
  destruct (Z.ltb_spec minimum 1); [lia|].
  apply (search_finds fuel Hfuel (Z.to_nat (r - minimum))); try lia; assumption.
Qed.

Lemma legalizes_exists minimum :
  1 <= minimum <= top_legal ->
  exists r, minimum <= r <= top_legal /\ smooth7 r /\
            (forall k, minimum <= k < r -> ~ smooth7 k) /\ legalizes minimum r.
Proof.
  intros Hm.
  destruct (least_legal (Z.to_nat (top_legal - minimum)) minimum ltac:(lia) ltac:(lia))
    as (r & Hr & Hs & Hleast).
  exists r. split; [assumption|]. split; [assumption|]. split; [assumption|].
  apply legalizes_least; [lia|lia| |assumption|assumption].
  unfold top_legal, Int32.max_int in *. lia.
Qed.

Lemma legalizes_legal n : smooth7 n -> n <= Int32.max_int -> legalizes n n.
Proof.
  intros Hs Hmax. pose proof Hs as [Hpos _].
  apply legalizes_least; [lia|lia|assumption|assumption|]. intros k Hk. lia.
Qed.

Lemma smooth7_pow2 (k : nat) : smooth7 (2 ^ Z.of_nat k).
Proof.
  induction k as [|k IH]; [exact smooth7_1|].
  rewrite Nat2Z.inj_succ, Z.pow_succ_r by lia. apply smooth7_mul; [exact smooth7_2|exact IH].
Qed.

(** X1.  For every start from 1 to [top_legal], the size the legalizer
    returns is legal, and legalizing it again returns it unchanged. *)
Theorem findLegalDimension_idempotent minimum :
  1 <= minimum <= top_legal ->
  exists r, legalizes minimum r /\ smooth7 r /\ legalizes r r.
Proof.
  intros Hm. destruct (legalizes_exists minimum Hm) as (r & Hr & Hs & _ & Hl).
  exists r. split; [assumption|]. split; [assumption|].
  apply legalizes_legal; [assumption|]. unfold top_legal, Int32.max_int in *. lia.
Qed.

Lemma findLegalDimension_idempotent_witness :
  exists r, legalizes 1021 r /\ smooth7 r /\ legalizes r r.
Proof.
  apply findLegalDimension_idempotent. unfold top_legal. lia.
Defined.

(** X2.  The legalizer is monotone: a larger request never gets a smaller
    size (requests up to [top_legal], the smaller one possibly below 1). *)
Theorem findLegalDimension_monotone m n :
  Int32.min_int <= m -> m <= n -> n <= top_legal ->
  exists rm rn, legalizes m rm /\ legalizes n rn /\ rm <= rn.
Proof.
  intros Hmin Hmn Hn.
  assert (Hbelow : forall c, c < 1 -> legalizes c 1).
  { intros c Hc fuel _ _. unfold findLegalDimension.
    destruct (Z.ltb_spec c 1); [reflexivity|lia]. }
  destruct (Z_lt_le_dec n 1) as [Hn1|Hn1].
  { exists 1, 1. split; [apply Hbelow; lia|]. split; [apply Hbelow; lia|lia]. }
  destruct (legalizes_exists n ltac:(lia)) as (rn & Hrn & Hsn & _ & Hln).
  destruct (Z_lt_le_dec m 1) as [Hm1|Hm1].
  { exists 1, rn. split; [apply Hbelow; lia|]. split; [assumption|lia]. }
  destruct (legalizes_exists m ltac:(lia)) as (rm & Hrm & Hsm & Hleast & Hlm).
  exists rm, rn. split; [assumption|]. split; [assumption|].
  destruct (Z_le_gt_dec rm rn) as [|Hgt]; [assumption|exfalso].
  apply (Hleast rn); [lia|assumption].
Qed.

Lemma findLegalDimension_monotone_witness :
  exists rm rn, legalizes 11 rm /\ legalizes 97 rn /\ rm <= rn.
Proof.
  apply findLegalDimension_monotone; unfold Int32.min_int, top_legal; lia.
Defined.

(** X3.  The legalizer less than doubles a request: the result for
    [minimum] (from 1 to [top_legal]) is at least [minimum] and below
    [2 * minimum]. *)
Theorem findLegalDimension_below_double minimum :
  1 <= minimum <= top_legal ->
  exists r, legalizes minimum r /\ minimum <= r < 2 * minimum.
Proof.
  intros Hm. destruct (legalizes_exists minimum Hm) as (r & Hr & Hs & Hleast & Hl).
  exists r. split; [assumption|]. split; [lia|].
  destruct (Z_lt_le_dec top_legal (2 * minimum)) as [|Hsmall]; [lia|].
  destruct (Z.eq_dec minimum 1) as [->|Hne].
  { destruct (Z_le_gt_dec r 1) as [|Hgt]; [lia|exfalso].
    apply (Hleast 1); [lia|exact smooth7_1]. }
  pose proof (Z.log2_up_spec minimum ltac:(lia)) as [Hlo Hhi].
  pose proof (Z.log2_up_nonneg minimum) as Hk.
  set (k := Z.log2_up minimum) in *.
  assert (Hpow : 2 ^ k = 2 * 2 ^ Z.pred k).
  { replace k with (Z.succ (Z.pred k)) at 1 by lia. apply Z.pow_succ_r.
    assert (0 < k) by (apply Z.log2_up_pos; lia). lia. }
  assert (Hsm : smooth7 (2 ^ k)).
  { replace k with (Z.of_nat (Z.to_nat k)) by lia. apply smooth7_pow2. }
  destruct (Z_lt_le_dec (2 ^ k) r) as [Hlt|]; [exfalso|lia].
  apply (Hleast (2 ^ k)); [lia|assumption].
Qed.

Lemma findLegalDimension_below_double_witness :
  exists r, legalizes 1021 r /\ 1021 <= r < 2 * 1021.
Proof.
  apply findLegalDimension_below_double. unfold top_legal. lia.
Defined.

Lemma search_result_legal inner (fuel : nat) :
  (32 <= inner)%nat ->
  forall c r, Int32.in_range c -> search inner fuel c = Returns r ->
              1 <= r <= Int32.max_int /\ smooth7 r.
Proof.
  intros Hinner. induction fuel as [|fuel IH]; intros c r Hc E; [discriminate|].
  destruct (Z_lt_le_dec c 1) as [Hlt|Hge].
  - rewrite search_skips in E by assumption.
    apply (IH (Int32.incr c)); [apply wrap_range|assumption].
  - assert (Hrange : 1 <= c <= Int32.max_int)
      by (unfold Int32.in_range in Hc; lia).
    destruct (trial_division_spec inner c Hinner Hrange) as (u & Eu & _ & Hiff).
    cbn [search] in E. rewrite Eu in E. cbn [bind] in E.
    destruct (Z.eqb_spec u 1) as [Hu|Hu].
    + injection E as <-. split; [assumption|]. apply Hiff. assumption.
    + apply (IH (Int32.incr c)); [apply wrap_range|assumption].
Qed.

(** X4.  Whatever [int] it is given and whatever the budget, the legalizer
    never returns anything but a legal size: a result is positive and its
    prime factors all lie in {2, 3, 5, 7}, also after the search has
    wrapped around. *)
Theorem findLegalDimension_never_illegal fuel minimum r :
  (32 <= fuel)%nat -> Int32.in_range minimum ->
  findLegalDimension fuel minimum = Returns r ->
  1 <= r <= Int32.max_int /\ smooth7 r /\ legalizes r r.
Proof.
  intros Hfuel Hm E. unfold findLegalDimension in E.
  assert (H : 1 <= r <= Int32.max_int /\ smooth7 r).
  { destruct (Z.ltb_spec minimum 1).
    - injection E as <-. split; [unfold Int32.max_int; lia|exact smooth7_1].
    - exact (search_result_legal fuel fuel Hfuel minimum r Hm E). }
  destruct H as [Hr Hs]. split; [assumption|]. split; [assumption|].
  apply legalizes_legal; [assumption|lia].
Qed.

Lemma findLegalDimension_never_illegal_witness :
  1 <= 1024 <= Int32.max_int /\ smooth7 1024 /\ legalizes 1024 1024.
Proof.
  apply (findLegalDimension_never_illegal 40 1021 1024).
  - lia.
  - unfold Int32.in_range, Int32.min_int, Int32.max_int. lia.
  - vm_compute. reflexivity.
Defined.

(** ** getSmallestRadix on every [int] *)

Lemma rchain_radices L rs Lend :
  rchain L rs Lend -> Forall (fun r => In r [7; 5; 4; 3; 2]) rs.
Proof.
  revert L. induction rs as [|r rs IH]; cbn [rchain]; intros L; [constructor|].
  intros [(before & after & Hl & _ & _) Hc]. constructor; [|eauto].
  rewrite Hl. apply in_or_app. right. left. reflexivity.
Qed.

(** X5.  On every positive [int], [getSmallestRadix] returns one of 1, 2, 3,
    4, 5, 7, a divisor of its argument; it returns 1 exactly when none of
    2, 3, 5, 7 divides the argument. *)
Theorem getSmallestRadix_result fuel size :
  (32 <= fuel)%nat -> 1 <= size <= Int32.max_int ->
  exists smallest,
    getSmallestRadix fuel size = Returns smallest /\
    In smallest [1; 2; 3; 4; 5; 7] /\
    (smallest | size) /\
    (smallest = 1 <-> ~ (2 | size) /\ ~ (3 | size) /\ ~ (5 | size) /\ ~ (7 | size)).
Proof.
  intros Hfuel Hsize.
  destruct (getSmallestRadix_traced_spec fuel size Hfuel Hsize)
    as (mr & tr & u & E & Hch & Hu & Hd & Hp & Hall & Hnil & Hmin).
  exists mr. split; [rewrite getSmallestRadix_erase, E; reflexivity|].
  destruct tr as [|r tr].
  - rewrite (Hnil eq_refl). cbn [rchain] in Hch. subst u.
    apply pick_radix_none in Hp.
    split; [left; reflexivity|]. split; [apply Z.divide_1_l|].
    split; [tauto|reflexivity].
  - pose proof (minimum_of_in _ _ (Hmin ltac:(discriminate))) as Hin.
    pose proof (rchain_radices _ _ _ Hch) as Hrad.
    rewrite Forall_forall in Hrad. pose proof (Hrad _ Hin) as Hmr.
    assert (Hr : In r [7; 5; 4; 3; 2]) by (apply Hrad; left; reflexivity).
    pose proof Hch as [Hf _]. destruct (first_divisor_range _ _ Hf) as [_ Hrd].
    split; [cbn [In] in *; intuition lia|].
    split; [eapply rchain_divides; [exact Hch|exact Hin]|].
    split.
    + intros ->. cbn [In] in Hmr. lia.
    + intros (N2 & N3 & N5 & N7). exfalso.
      cbn [In] in Hr. destruct Hr as [<-|[<-|[<-|[<-|[<-|[]]]]]]; try contradiction.
      apply N2. eapply Z.divide_trans; [|exact Hrd]. exists 2. reflexivity.
Qed.

Lemma getSmallestRadix_result_witness :
  exists smallest,
    getSmallestRadix 32 143 = Returns smallest /\
    In smallest [1; 2; 3; 4; 5; 7] /\
    (smallest | 143) /\
    (smallest = 1 <-> ~ (2 | 143) /\ ~ (3 | 143) /\ ~ (5 | 143) /\ ~ (7 | 143)).
Proof.
  apply getSmallestRadix_result; [lia|unfold Int32.max_int; lia].
Defined.

Lemma choosePacking_z0 xs ys realToComplex :
  packedZSize (choosePacking xs ys 0 realToComplex) = 0.
Proof.
  unfold choosePacking.
  destruct realToComplex, (Int32.rem xs 2 =? 0), (Int32.rem ys 2 =? 0); reflexivity.
Qed.

(** X6.  An axis length of 0 is not rejected: the first loop of
    [getSmallestRadix] never leaves 0, so neither [createKernel] on length 0
    nor the constructor on a grid whose Z size is 0 returns or throws,
    whatever the budget. *)
Theorem zero_length_never_returns context fuel xsize ysize axis forward inputIsReal
    (realToComplex : bool) :
  getSmallestRadix fuel 0 = OutOfFuel /\
  createKernel context fuel xsize ysize 0 axis forward inputIsReal = OutOfFuel /\
  new_CudaFFT3D context fuel xsize ysize 0 realToComplex = OutOfFuel.
Proof.
  split; [apply getSmallestRadix_0_diverges|]. split.
  - unfold createKernel. rewrite getSmallestRadix_0_diverges. reflexivity.
  - unfold new_CudaFFT3D. rewrite choosePacking_z0.
    unfold createKernel at 1. rewrite getSmallestRadix_0_diverges. reflexivity.
Qed.

Lemma exhaust_positive fuel r :
  2 <= r ->
  forall mr u mr' u',
    1 <= u <= Int32.max_int -> exhaust fuel r (mr, u) = Returns (mr', u') ->
    1 <= u' <= Int32.max_int.
Proof.
  intros Hr. unfold exhaust. induction fuel as [|fuel IH]; intros mr u mr' u' Hu E;
    [discriminate|].
  cbn [while] in E. unfold radix_divides at 1 in E. cbn [snd] in E.
  destruct (Int32.rem u r =? 0) eqn:Ed.
  - apply rem_zero_divide in Ed; [|lia].
    pose proof (quot_lt_of_divide u r ltac:(lia) Hr Ed).
    unfold take_radix in E. cbn [bind snd] in E.
    rewrite div_exact in E;
      [|lia|unfold Int32.in_range, Int32.min_int, Int32.max_int in *; lia|lia].
    eapply IH; [|exact E]. lia.
  - injection E as _ <-. assumption.
Qed.

(** The loops of [getSmallestRadix] do on [-u] what they do on [u]. *)
Lemma exhaust_opp fuel r :
  2 <= r ->
  forall mr u,
    1 <= u <= Int32.max_int ->
    exhaust fuel r (mr, - u) =
    (st <- exhaust fuel r (mr, u) ;; Returns (fst st, - snd st)).
Proof.
  intros Hr. unfold exhaust. induction fuel as [|fuel IH]; intros mr u Hu; [reflexivity|].
  cbn [while]. unfold radix_divides. cbn [snd]. unfold Int32.rem.
  rewrite Z.rem_opp_l by lia.
  destruct (Z.eqb_spec (Z.rem u r) 0) as [E|E];
    destruct (Z.eqb_spec (- Z.rem u r) 0) as [E'|E']; try lia; [|reflexivity].
  apply Z.rem_divide in E; [|lia].
  pose proof (quot_lt_of_divide u r ltac:(lia) Hr E) as Hq.
  unfold take_radix. cbn [bind snd].
  assert (Hneg : Int32.div (- u) r = - Z.quot u r).
  { unfold Int32.div. rewrite Z.quot_opp_l by lia. apply wrap_in_range.
    unfold Int32.in_range, Int32.min_int, Int32.max_int in *. lia. }
  rewrite Hneg, div_exact;
    [|lia|unfold Int32.in_range, Int32.min_int, Int32.max_int in *; lia|lia].
  apply IH. lia.
Qed.

Lemma getSmallestRadix_opp fuel n :
  1 <= n <= Int32.max_int -> getSmallestRadix fuel (- n) = getSmallestRadix fuel n.
Proof.
  intros Hn. unfold getSmallestRadix.
  rewrite (exhaust_opp fuel 7 ltac:(lia) 1 n Hn).
  destruct (exhaust fuel 7 (1, n)) as [[m7 u7]| |] eqn:E7; cbn [bind fst snd]; try reflexivity.
  pose proof (exhaust_positive fuel 7 ltac:(lia) _ _ _ _ Hn E7) as H7.
  rewrite (exhaust_opp fuel 5 ltac:(lia) m7 u7 H7).
  destruct (exhaust fuel 5 (m7, u7)) as [[m5 u5]| |] eqn:E5; cbn [bind fst snd]; try reflexivity.
  pose proof (exhaust_positive fuel 5 ltac:(lia) _ _ _ _ H7 E5) as H5.
  rewrite (exhaust_opp fuel 4 ltac:(lia) m5 u5 H5).
  destruct (exhaust fuel 4 (m5, u5)) as [[m4 u4]| |] eqn:E4; cbn [bind fst snd]; try reflexivity.
  pose proof (exhaust_positive fuel 4 ltac:(lia) _ _ _ _ H5 E4) as H4.
  rewrite (exhaust_opp fuel 3 ltac:(lia) m4 u4 H4).
  destruct (exhaust fuel 3 (m4, u4)) as [[m3 u3]| |] eqn:E3; cbn [bind fst snd]; try reflexivity.
  pose proof (exhaust_positive fuel 3 ltac:(lia) _ _ _ _ H4 E3) as H3.
  rewrite (exhaust_opp fuel 2 ltac:(lia) m3 u3 H3).
  destruct (exhaust fuel 2 (m3, u3)) as [[m2 u2]| |] eqn:E2; cbn [bind fst snd]; reflexivity.
Qed.

(** X7.  Negative axis lengths are not rejected either.  For every [n] from
    1 to the largest [int], legal or not, [createKernel] on length [-n]
    throws nothing: [getSmallestRadix(-n)] is [getSmallestRadix(n)], the
    stage loop is not entered, and the call returns a kernel without passes,
    with [blocksPerGroup = 1] and the negative thread count
    [-(n / getSmallestRadix(n))]. *)
Theorem negative_length_accepted context fuel xsize ysize n axis forward inputIsReal :
  (32 <= fuel)%nat -> 1 <= n <= Int32.max_int ->
  exists smallest kernel r,
    getSmallestRadix fuel n = Returns smallest /\
    getSmallestRadix fuel (- n) = Returns smallest /\
    createKernel context fuel xsize ysize (- n) axis forward inputIsReal =
      Returns (kernel, - Z.quot n smallest) /\
    - Z.quot n smallest < 0 /\
    kernel_replacements kernel = Some r /\
    fst (r_COMPUTE_FFT r) = [] /\
    r_BLOCKS_PER_GROUP r = intToString 1 /\
    r_THREADS_PER_BLOCK r = intToString (- Z.quot n smallest).
Proof.
  intros Hfuel Hn.
  destruct (getSmallestRadix_returns fuel n Hfuel Hn) as (smallest & E & Hs & Hd).
  pose proof (quot_mul_exact n smallest ltac:(lia) Hd) as Hq.
  pose proof (quot_bounds n smallest ltac:(lia) ltac:(lia)) as Hb.
  assert (Ht : 1 <= Z.quot n smallest) by nia.
  set (maxThreads := if getUseDoublePrecision context then 128 else 256).
  assert (Hmax : 0 <= maxThreads <= 256)
    by (subst maxThreads; destruct (getUseDoublePrecision context); lia).
  assert (Etpb : Int32.div (- n) smallest = - Z.quot n smallest).
  { unfold Int32.div. rewrite Z.quot_opp_l by lia. apply wrap_in_range.
    unfold Int32.in_range, Int32.min_int, Int32.max_int in *. lia. }
  assert (Ebpg : Int32.max 1 (Int32.div maxThreads (- Z.quot n smallest)) = 1).
  { unfold Int32.div. rewrite Z.quot_opp_r by lia.
    pose proof (quot_bounds maxThreads (Z.quot n smallest) ltac:(lia) Ht).
    rewrite wrap_in_range
      by (unfold Int32.in_range, Int32.min_int, Int32.max_int; lia).
    unfold Int32.max. destruct (Z.ltb_spec 1 (- Z.quot maxThreads (Z.quot n smallest))); lia. }
  assert (Ethreads : Int32.mul 1 (- Z.quot n smallest) = - Z.quot n smallest).
  { unfold Int32.mul. rewrite Z.mul_1_l. apply wrap_in_range.
    unfold Int32.in_range, Int32.min_int, Int32.max_int in *. lia. }
  assert (Eloop : forall tpb bpg,
             stage_loop fuel (- n) tpb bpg =
             Returns {| ls_L := - n; ls_m := 1; ls_stage := 0; ls_source := [] |}).
  { intros tpb bpg. unfold stage_loop. destruct fuel as [|fuel']; [lia|].
    cbn [while]. unfold stage_continues. cbn [ls_L].
    destruct (Z.ltb_spec 1 (- n)); [lia|reflexivity]. }
  eexists smallest, _, _.
  split; [exact E|]. split; [rewrite getSmallestRadix_opp by assumption; exact E|].
  split.
  { unfold createKernel. rewrite getSmallestRadix_opp by assumption. rewrite E.
    cbn [bind]. fold maxThreads. rewrite Etpb, Ebpg, Eloop. cbn [bind].
    rewrite Ethreads. reflexivity. }
  split; [lia|]. split; [reflexivity|]. split; [reflexivity|]. split; reflexivity.
Qed.

Lemma negative_length_accepted_witness :
  exists smallest kernel r,
    getSmallestRadix 32 11 = Returns smallest /\
    getSmallestRadix 32 (- 11) = Returns smallest /\
    createKernel single_precision 32 8 8 (- 11) 0 true false =
      Returns (kernel, - Z.quot 11 smallest) /\
    - Z.quot 11 smallest < 0 /\
    kernel_replacements kernel = Some r /\
    fst (r_COMPUTE_FFT r) = [] /\
    r_BLOCKS_PER_GROUP r = intToString 1 /\
    r_THREADS_PER_BLOCK r = intToString (- Z.quot 11 smallest).
Proof.
  apply negative_length_accepted; [lia|unfold Int32.max_int; lia].
Defined.

(** ** The passes of a kernel *)

Section PassLayout.
Variables zsize threadsPerBlock blocksPerGroup : Z.
Hypothesis Hbpg : 1 <= blocksPerGroup.
Hypothesis Hblock : blocksPerGroup * threadsPerBlock <= Int32.max_int.
Hypothesis Hzsize : zsize <= Int32.max_int.

Lemma stage_body_exact s r :
  pick_radix (ls_L s) = Some r ->
  1 < ls_L s -> 1 <= ls_m s -> ls_m s * ls_L s = zsize ->
  0 <= ls_stage s < Int32.max_int ->
  stage_body zsize threadsPerBlock blocksPerGroup s =
  Returns {| ls_L := Z.quot (ls_L s) r;
             ls_m := ls_m s * r;
             ls_stage := ls_stage s + 1;
             ls_source := ls_source s ++ [
               {| sc_pass := ls_stage s + 1;
                  sc_radix := r;
                  sc_input := Z.rem (ls_stage s) 2;
                  sc_output := 1 - Z.rem (ls_stage s) 2;
                  sc_guard := if Z.quot (ls_L s) r * ls_m s <? threadsPerBlock
                              then Some (blocksPerGroup * (Z.quot (ls_L s) r * ls_m s))
                              else None;
                  sc_stride := Z.quot (ls_L s) r * ls_m s;
                  sc_zsize := zsize;
                  sc_m := ls_m s;
                  sc_L := Z.quot (ls_L s) r |} ] |}.
Proof.
  intros Hp HL Hm HmL Hst.
  destruct (pick_radix_some _ _ Hp) as [Hf Hr27].
  destruct (first_divisor_range _ _ Hf) as [_ Hd].
  pose proof (quot_lt_of_divide (ls_L s) r ltac:(lia) ltac:(lia) Hd) as Hq.
  pose proof (quot_mul_exact (ls_L s) r ltac:(lia) Hd) as HLr.
  pose proof (Z.rem_bound_pos (ls_stage s) 2 ltac:(lia) ltac:(lia)) as Hrem.
  assert (Hrange : forall z, 0 <= z <= Int32.max_int -> Int32.wrap z = z).
  { intros z Hz. apply wrap_in_range.
    unfold Int32.in_range, Int32.min_int, Int32.max_int in *. lia. }
  assert (HLmax : ls_L s <= zsize) by nia.
  assert (HqL : Z.quot (ls_L s) r * ls_m s <= zsize) by nia.
  unfold stage_body. rewrite Hp. unfold Int32.incr, Int32.add, Int32.sub, Int32.mul, Int32.div,
    Int32.rem.
  rewrite (Hrange (Z.quot (ls_L s) r)) by lia.
  rewrite (Hrange (ls_stage s + 1)) by lia.
  rewrite (Hrange (1 - Z.rem (ls_stage s) 2)) by (unfold Int32.max_int; lia).
  rewrite (Hrange (Z.quot (ls_L s) r * ls_m s)) by nia.
  rewrite (Hrange (ls_m s * r)) by nia.
  destruct (Z.ltb_spec (Z.quot (ls_L s) r * ls_m s) threadsPerBlock) as [Hlt|Hge];
    [|reflexivity].
  assert (Hg : blocksPerGroup * (Z.quot (ls_L s) r * ls_m s) <= Int32.max_int) by nia.
  rewrite (Hrange (blocksPerGroup * Z.quot (ls_L s) r)) by nia.
  rewrite <- Z.mul_assoc, (Hrange (blocksPerGroup * (Z.quot (ls_L s) r * ls_m s))) by nia.
  reflexivity.
Qed.

Lemma stage_iter_layout k s s' :
  iter stage_continues (stage_body zsize threadsPerBlock blocksPerGroup) k s s' ->
  1 <= ls_L s -> 1 <= ls_m s -> ls_m s * ls_L s = zsize ->
  0 <= ls_stage s -> ls_stage s + ls_L s <= Int32.max_int ->
  exists passes,
    ls_source s' = ls_source s ++ passes /\
    List.length passes = k /\
    ls_stage s' = ls_stage s + Z.of_nat k /\
    ping_pong (Z.rem (ls_stage s) 2) passes (Z.rem (ls_stage s') 2) /\
    laid_out zsize (ls_stage s + 1) (ls_m s) passes /\
    Forall (guarded threadsPerBlock blocksPerGroup) passes.
Proof.
  induction 1 as [s|k s s1 s2 Hc Hb Hit IH]; intros HL Hm HmL Hst HstL.
  { exists []. rewrite app_nil_r. change (Z.of_nat 0) with 0. rewrite Z.add_0_r.
    repeat split; constructor. }
  unfold stage_continues in Hc. apply Z.ltb_lt in Hc.
  destruct (pick_radix (ls_L s)) as [r|] eqn:Hp;
    [|unfold stage_body in Hb; rewrite Hp in Hb; discriminate].
  rewrite (stage_body_exact s r Hp Hc Hm HmL ltac:(lia)) in Hb. injection Hb as <-.
  destruct (pick_radix_some _ _ Hp) as [Hf Hr27].
  destruct (first_divisor_range _ _ Hf) as [_ Hd].
  pose proof (quot_lt_of_divide (ls_L s) r ltac:(lia) ltac:(lia) Hd) as Hq.
  pose proof (quot_mul_exact (ls_L s) r ltac:(lia) Hd) as HLr.
  cbn [ls_L ls_m ls_stage ls_source] in IH.
  destruct IH as (passes & Hsrc & Hlen & Hstage & Hpp & Hlay & Hg); try lia; try nia.
  eexists (_ :: passes).
  split; [rewrite Hsrc, <- app_assoc; reflexivity|].
  split; [cbn [List.length]; lia|].
  split; [rewrite Hstage, Nat2Z.inj_succ; lia|].
  assert (Hflip : Z.rem (ls_stage s + 1) 2 = 1 - Z.rem (ls_stage s) 2).
  { rewrite !Z.rem_mod_nonneg by lia.
    pose proof (Z.mod_pos_bound (ls_stage s) 2 ltac:(lia)).
    pose proof (Z.mod_pos_bound (ls_stage s + 1) 2 ltac:(lia)).
    pose proof (Z.div_mod (ls_stage s) 2 ltac:(lia)).
    pose proof (Z.div_mod (ls_stage s + 1) 2 ltac:(lia)). lia. }
  split; [cbn [ping_pong sc_input sc_output]; rewrite <- Hflip; auto|].
  split.
  { cbn [laid_out sc_pass sc_zsize sc_m sc_stride sc_L sc_radix].
    repeat split; try reflexivity; [nia|assumption]. }
  constructor; [|assumption].
  unfold guarded. cbn [sc_guard sc_stride]. reflexivity.
Qed.
End PassLayout.

(** A returned stage loop is the end of a run from the initial state. *)
Lemma stage_loop_run fuel zsize threadsPerBlock blocksPerGroup s :
  (32 <= fuel)%nat -> 1 <= zsize <= Int32.max_int ->
  stage_loop fuel zsize threadsPerBlock blocksPerGroup = Returns s ->
  exists k,
    iter stage_continues (stage_body zsize threadsPerBlock blocksPerGroup) k
         {| ls_L := zsize; ls_m := 1; ls_stage := 0; ls_source := [] |} s.
Proof.
  intros Hfuel Hz E. unfold stage_loop in E.
  set (s0 := {| ls_L := zsize; ls_m := 1; ls_stage := 0; ls_source := [] |}) in *.
  destruct (stage_run zsize threadsPerBlock blocksPerGroup (Z.to_nat zsize) s0)
    as (k & s' & passes & Hit & _ & _ & _ & HL' & Hpow & _ & _ & Hend);
    [subst s0; cbn [ls_L ls_m ls_stage]; lia ..|].
  pose proof (stage_run_length k s0 s' HL' ltac:(subst s0; cbn [ls_L]; lia) Hpow) as Hk.
  exists k. destruct Hend as [H1|[H1 Hnone]].
  - rewrite (while_returns _ _ k s0 s' fuel Hit) in E;
      [injection E as <-; exact Hit| |lia].
    unfold stage_continues. apply Z.ltb_ge. lia.
  - rewrite (while_throws _ _ k s0 s' (illegal_size zsize) fuel Hit) in E;
      [discriminate| | |lia].
    + unfold stage_continues. apply Z.ltb_lt. lia.
    + apply stage_body_none. assumption.
Qed.

Lemma minimum_of_le l m : minimum_of l = Some m -> Forall (fun x => m <= x) l.
Proof.
  revert m. induction l as [|x l IH]; cbn [minimum_of]; intros m; [discriminate|].
  destruct (minimum_of l) as [m'|] eqn:E.
  - intros [= <-]. constructor; [lia|].
    eapply Forall_impl; [|exact (IH m' eq_refl)]. cbv beta. intros; lia.
  - intros [= <-]. constructor; [lia|].
    destruct l as [|y l]; [constructor|]. cbn [minimum_of] in E.
    destruct (minimum_of l); discriminate.
Qed.

(** Every pass of the stage loop has a radix at least the smallest one. *)
Lemma stage_radices_at_least fuel zsize threadsPerBlock blocksPerGroup smallest s :
  smooth7 zsize -> zsize <= Int32.max_int -> (32 <= fuel)%nat ->
  getSmallestRadix fuel zsize = Returns smallest ->
  stage_loop fuel zsize threadsPerBlock blocksPerGroup = Returns s ->
  Forall (fun c => smallest <= sc_radix c /\ 2 <= sc_radix c <= 7) (ls_source s).
Proof.
  intros Hs Hmax Hfuel Eg El. pose proof Hs as [Hpos _].
  destruct (getSmallestRadix_traced_spec fuel zsize Hfuel ltac:(lia))
    as (mr & tr & u & E & Hch & Hu & Hd & Hp & Hall & Hnil & Hmin).
  rewrite getSmallestRadix_erase, E in Eg. cbn [bind fst] in Eg. injection Eg as <-.
  destruct (stage_loop_outcome fuel zsize threadsPerBlock blocksPerGroup Hfuel ltac:(lia))
    as [(_ & s' & Es & _ & _ & _ & _ & Hchain)|(Hns & _)]; [|contradiction].
  rewrite El in Es. injection Es as <-.
  assert (Hu1 : u = 1).
  { destruct (Z.eq_dec u 1) as [|Hne]; [assumption|exfalso].
    apply (pick_radix_none_not_smooth u); [lia|assumption|].
    apply (smooth7_divisor zsize); [assumption|lia|assumption]. }
  subst u.
  assert (Heq : tr = radices (ls_source s)).
  { eapply rchain_unique; [exact Hch|]. apply chain_rchain. assumption. }
  assert (Hle : Forall (fun x => mr <= x) tr).
  { destruct tr as [|r tr]; [constructor|]. apply minimum_of_le, Hmin. discriminate. }
  rewrite Heq in Hle, Hall. unfold radices in Hle, Hall.
  rewrite Forall_map in Hle, Hall. rewrite Forall_forall in *.
  intros c Hc. specialize (Hle c Hc). specialize (Hall c Hc). cbv beta in *. lia.
Qed.

Lemma laid_out_product zsize pass m passes :
  laid_out zsize pass m passes ->
  Forall (fun c => sc_radix c * sc_stride c = zsize) passes.
Proof.
  revert pass m. induction passes as [|c rest IH]; cbn [laid_out]; intros pass m;
    [constructor|].
  intros (_ & _ & _ & _ & Hp & Hrest). constructor; eauto.
Qed.

Local Open Scope string_scope.

Lemma final_stage_reads stage (outputIsReal outputIsPacked : bool) :
  (0 <= stage)%Z ->
  contains ("] = data" ++ intToString (Z.rem stage 2) ++ "[i+block*ZSIZE]")
           (final_stage stage outputIsReal outputIsPacked) = true.
Proof.
  intros Hs. unfold final_stage, Int32.rem.
  pose proof (Z.rem_bound_pos stage 2 Hs ltac:(lia)) as Hrem.
  assert (Hcases : Z.rem stage 2 = 0%Z \/ Z.rem stage 2 = 1%Z) by lia.
  destruct Hcases as [-> | ->]; destruct outputIsReal, outputIsPacked;
    vm_compute; reflexivity.
Qed.

(** What a legal length gives: the block shape, the finished loop and the
    shape of its passes. *)
Lemma legal_kernel_layout context fuel xsize ysize zsize axis forward inputIsReal :
  smooth7 zsize -> (zsize <= Int32.max_int)%Z -> (32 <= fuel)%nat ->
  exists smallest s,
    getSmallestRadix fuel zsize = Returns smallest /\
    (1 <= smallest <= 7)%Z /\ (smallest | zsize)%Z /\
    let maxThreads := if getUseDoublePrecision context then 128%Z else 256%Z in
    let threadsPerBlock := Z.quot zsize smallest in
    let blocksPerGroup := Z.max 1 (Z.quot maxThreads threadsPerBlock) in
    createKernel context fuel xsize ysize zsize axis forward inputIsReal =
      Returns (getKernel (FFTModule (replacements_of context xsize ysize zsize axis forward
                                       inputIsReal blocksPerGroup threadsPerBlock s))
                         "execFFT",
               (blocksPerGroup * threadsPerBlock)%Z) /\
    stage_loop fuel zsize threadsPerBlock blocksPerGroup = Returns s /\
    ls_stage s = Z.of_nat (List.length (ls_source s)) /\
    (List.length (ls_source s) < 31)%nat /\
    chain zsize (ls_source s) 1 /\
    ping_pong 0 (ls_source s) (Z.rem (ls_stage s) 2) /\
    laid_out zsize 1 1 (ls_source s) /\
    Forall (guarded threadsPerBlock blocksPerGroup) (ls_source s) /\
    (1 <= threadsPerBlock <= zsize)%Z /\
    (1 <= blocksPerGroup)%Z /\
    (1 <= blocksPerGroup * threadsPerBlock <= Z.max maxThreads zsize)%Z.
Proof.
  intros Hs Hmax Hfuel. pose proof Hs as [Hpos _].
  destruct (createKernel_outcome context fuel xsize ysize zsize axis forward inputIsReal
              Hfuel ltac:(lia))
    as (smallest & E & Hsm & Hd & [(_ & s & El & _ & _ & Hst & Hch & Ek)|(Hns & _)]);
    [|contradiction].
  exists smallest, s. split; [assumption|]. split; [assumption|]. split; [assumption|].
  cbv zeta.
  set (maxThreads := if getUseDoublePrecision context then 128%Z else 256%Z) in *.
  assert (HmaxT : maxThreads = 128%Z \/ maxThreads = 256%Z)
    by (subst maxThreads; destruct (getUseDoublePrecision context); auto).
  destruct (block_shape_exact zsize smallest maxThreads ltac:(lia) Hsm Hd HmaxT)
    as (_ & _ & _ & Htpb & Hprod).
  set (tpb := Z.quot zsize smallest) in *.
  set (bpg := Z.max 1 (Z.quot maxThreads tpb)) in *.
  assert (Hbpg : (1 <= bpg)%Z) by (subst bpg; lia).
  assert (Hblock : (bpg * tpb <= Int32.max_int)%Z)
    by (unfold Int32.max_int in *; lia).
  destruct (stage_loop_run fuel zsize tpb bpg s Hfuel ltac:(lia) El) as (k & Hit).
  destruct (stage_iter_layout zsize tpb bpg Hbpg Hblock Hmax k _ s Hit)
    as (passes & Hsrc & Hlen & _ & Hpp & Hlay & Hg);
    cbn [ls_L ls_m ls_stage ls_source]; try lia.
  cbn [ls_source ls_stage ls_m app] in Hsrc, Hpp, Hlay.
  rewrite <- Hsrc in Hpp, Hlay, Hg.
  assert (Hcount : (List.length (ls_source s) < 31)%nat).
  { destruct (stage_loop_outcome fuel zsize tpb bpg Hfuel ltac:(lia))
      as [(_ & s' & Es & _ & _ & _ & Hlt & _)|(Hns & _)]; [|contradiction].
    rewrite El in Es. injection Es as <-. assumption. }
  repeat (split; [assumption|]). assumption.
Qed.

(** X8.  In the kernel built for a legal length the passes swap the two
    buffers in turn, starting by reading [data0]: each reads the buffer the
    previous one wrote, and the final write-back to [out] reads the buffer
    the last pass wrote ([data0] or [data1] by the parity of the number of
    passes, of which there are fewer than 31). *)
Theorem kernel_buffers_ping_pong context fuel xsize ysize zsize axis forward inputIsReal :
  smooth7 zsize -> (zsize <= Int32.max_int)%Z -> (32 <= fuel)%nat ->
  exists kernel threads r passes text last,
    createKernel context fuel xsize ysize zsize axis forward inputIsReal
      = Returns (kernel, threads) /\
    kernel_replacements kernel = Some r /\
    r_COMPUTE_FFT r = (passes, text) /\
    (List.length passes < 31)%nat /\
    last = Z.rem (Z.of_nat (List.length passes)) 2 /\
    ping_pong 0 passes last /\
    contains ("] = data" ++ intToString last ++ "[i+block*ZSIZE]") text = true.
Proof.
  intros Hs Hmax Hfuel.
  destruct (legal_kernel_layout context fuel xsize ysize zsize axis forward inputIsReal
              Hs Hmax Hfuel)
    as (smallest & s & _ & _ & _ & Ek & _ & Hst & Hcount & _ & Hpp & _).
  eexists _, _, _, (ls_source s), _, (Z.rem (ls_stage s) 2).
  split; [exact Ek|]. split; [reflexivity|]. split; [reflexivity|].
  split; [assumption|]. split; [rewrite Hst; reflexivity|]. split; [assumption|].
  apply final_stage_reads. lia.
Qed.

Lemma kernel_buffers_ping_pong_witness :
  exists kernel threads r passes text last,
    createKernel single_precision 32 8 9 1260 0 true false = Returns (kernel, threads) /\
    kernel_replacements kernel = Some r /\
    r_COMPUTE_FFT r = (passes, text) /\
    (List.length passes < 31)%nat /\
    last = Z.rem (Z.of_nat (List.length passes)) 2 /\
    ping_pong 0 passes last /\
    contains ("] = data" ++ intToString last ++ "[i+block*ZSIZE]") text = true.
Proof.
  apply kernel_buffers_ping_pong.
  - apply smooth7_check; [unfold Int32.max_int; lia|vm_compute; reflexivity].
  - unfold Int32.max_int; lia.
  - lia.
Defined.

Local Close Scope string_scope.

(** X9.  The block shape is enough for every pass.  In the kernel built for
    a legal length the passes are numbered from 1, each pass has
    [radix * stride = zsize] with [stride = L*m], and no pass needs more
    than [threadsPerBlock = zsize / getSmallestRadix(zsize)] threads per
    row.  A pass is left unguarded exactly when its radix is the smallest
    one; a guarded pass admits [blocksPerGroup * stride] threads, fewer than
    the block has. *)
Theorem passes_fit_block context fuel xsize ysize zsize axis forward inputIsReal :
  smooth7 zsize -> zsize <= Int32.max_int -> (32 <= fuel)%nat ->
  exists smallest kernel threads r passes text,
    getSmallestRadix fuel zsize = Returns smallest /\
    createKernel context fuel xsize ysize zsize axis forward inputIsReal
      = Returns (kernel, threads) /\
    kernel_replacements kernel = Some r /\
    r_COMPUTE_FFT r = (passes, text) /\
    laid_out zsize 1 1 passes /\
    let threadsPerBlock := Z.quot zsize smallest in
    Forall (fun c =>
              smallest <= sc_radix c /\
              1 <= sc_stride c <= threadsPerBlock /\
              (sc_guard c = None <-> sc_radix c = smallest) /\
              (forall g, sc_guard c = Some g ->
                         g * threadsPerBlock = threads * sc_stride c /\ 1 <= g < threads))
           passes.
Proof.
  intros Hs Hmax Hfuel. pose proof Hs as [Hpos _].
  destruct (legal_kernel_layout context fuel xsize ysize zsize axis forward inputIsReal
              Hs Hmax Hfuel)
    as (smallest & s & Eg & Hsm & Hd & Ek & El & _ & _ & _ & _ & Hlay & Hg & Htpb & Hbpg & Hprod).
  eexists smallest, _, _, _, (ls_source s), _.
  split; [exact Eg|]. split; [exact Ek|]. split; [reflexivity|]. split; [reflexivity|].
  split; [exact Hlay|]. cbv zeta.
  pose proof (stage_radices_at_least fuel zsize _ _ smallest s Hs Hmax Hfuel Eg El) as Hrad.
  pose proof (laid_out_product _ _ _ _ Hlay) as Hprods.
  pose proof (quot_mul_exact zsize smallest ltac:(lia) Hd) as Hz.
  set (tpb := Z.quot zsize smallest) in *.
  set (bpg := Z.max 1 (Z.quot (if getUseDoublePrecision context then 128 else 256) tpb)) in *.
  rewrite Forall_forall in *. intros c Hc.
  destruct (Hrad c Hc) as [Hle Hr]. pose proof (Hprods c Hc) as Hp. pose proof (Hg c Hc) as Hgc.
  cbv beta in Hp. unfold guarded in Hgc.
  assert (Hstride : 1 <= sc_stride c <= tpb) by nia.
  split; [assumption|]. split; [assumption|].
  destruct (Z.ltb_spec (sc_stride c) tpb) as [Hlt|Hge]; rewrite Hgc.
  - split.
    + split; [discriminate|]. intros Heq. rewrite Heq in Hp. nia.
    + intros g [= <-]. split; [lia|nia].
  - split.
    + split; [intros _|reflexivity]. nia.
    + intros g. discriminate.
Qed.

Lemma passes_fit_block_witness :
  exists smallest kernel threads r passes text,
    getSmallestRadix 32 1260 = Returns smallest /\
    createKernel double_precision 32 8 9 1260 0 true false = Returns (kernel, threads) /\
    kernel_replacements kernel = Some r /\
    r_COMPUTE_FFT r = (passes, text) /\
    laid_out 1260 1 1 passes /\
    let threadsPerBlock := Z.quot 1260 smallest in
    Forall (fun c =>
              smallest <= sc_radix c /\
              1 <= sc_stride c <= threadsPerBlock /\
              (sc_guard c = None <-> sc_radix c = smallest) /\
              (forall g, sc_guard c = Some g ->
                         g * threadsPerBlock = threads * sc_stride c /\ 1 <= g < threads))
           passes.
Proof.
  apply passes_fit_block.
  - apply smooth7_check; [unfold Int32.max_int; lia|vm_compute; reflexivity].
  - unfold Int32.max_int; lia.
  - lia.
Defined.

(** ** Order of the radices *)

Lemma pick_radix_largest L r q :
  pick_radix L = Some r -> In q [7; 5; 4; 3; 2] -> (q | L) -> q <= r.
Proof.
  intros Hp Hq Hd.
  assert (Hrem : (Int32.rem L q =? 0) = true) by (apply rem_zero_divide;
    [cbn [In] in Hq; lia|assumption]).
  unfold pick_radix in Hp.
  destruct (Int32.rem L 7 =? 0) eqn:E7; [injection Hp as <-; cbn [In] in Hq; lia|].
  destruct (Int32.rem L 5 =? 0) eqn:E5;
    [injection Hp as <-; cbn [In] in Hq; destruct Hq as [<-|Hq]; [congruence|lia]|].
  destruct (Int32.rem L 4 =? 0) eqn:E4;
    [injection Hp as <-; cbn [In] in Hq;
     destruct Hq as [<-|[<-|Hq]]; [congruence|congruence|lia]|].
  destruct (Int32.rem L 3 =? 0) eqn:E3;
    [injection Hp as <-; cbn [In] in Hq;
     destruct Hq as [<-|[<-|[<-|Hq]]]; [congruence|congruence|congruence|lia]|].
  destruct (Int32.rem L 2 =? 0) eqn:E2; [|discriminate].
  injection Hp as <-. cbn [In] in Hq.
  destruct Hq as [<-|[<-|[<-|[<-|Hq]]]]; [congruence|congruence|congruence|congruence|lia].
Qed.

Lemma rchain_descending rs :
  forall L Lend, rchain L rs Lend -> descending rs.
Proof.
  induction rs as [|r1 rs IH]; intros L Lend; cbn [rchain descending]; [trivial|].
  intros [Hf Hc]. split; [|eauto].
  destruct rs as [|r2 rs]; [trivial|].
  cbn [rchain] in Hc. destruct Hc as [Hf2 _].
  destruct (first_divisor_range _ _ Hf) as [Hr1 Hd1].
  destruct (first_divisor_range _ _ Hf2) as [Hr2 Hd2].
  apply (pick_radix_largest L); [apply pick_radix_first; assumption| |].
  - destruct Hf2 as (b & a & Hl & _ & _). rewrite Hl. apply in_or_app. right. left. reflexivity.
  - rewrite (quot_mul_exact L r1 ltac:(lia) Hd1). apply Z.divide_mul_r. assumption.
Qed.

Lemma rchain_single_two rs :
  forall L Lend, rchain L rs Lend -> (count_occ Z.eq_dec rs 2%Z <= 1)%nat.
Proof.
  induction rs as [|r1 rs IH]; intros L Lend Hc; [cbn; lia|].
  pose proof (rchain_descending _ _ _ Hc) as Hdesc.
  cbn [rchain] in Hc. destruct Hc as [Hf Hc].
  destruct (Z.eq_dec r1 2) as [->|Hne].
  - rewrite count_occ_cons_eq by reflexivity.
    destruct rs as [|r2 rs]; [cbn; lia|exfalso].
    cbn [descending] in Hdesc. destruct Hdesc as [Hle _].
    cbn [rchain] in Hc. destruct Hc as [Hf2 _].
    destruct (first_divisor_range _ _ Hf2) as [Hr2 Hd2].
    assert (r2 = 2) as -> by lia.
    destruct (first_divisor_range _ _ Hf) as [_ Hd1].
    assert (H4 : (4 | L)).
    { rewrite (quot_mul_exact L 2 ltac:(lia) Hd1).
      destruct Hd2 as [k Hk]. exists k. lia. }
    pose proof (pick_radix_largest L 2 4 (pick_radix_first _ _ Hf)
                  ltac:(cbn [In]; auto) H4). lia.
  - rewrite count_occ_cons_neq by assumption. eauto.
Qed.

(** X10.  On a legal length the radices of the passes never increase from
    one pass to the next, and the radix 2 is used at most once (two factors
    of 2 are always taken together as one radix-4 pass). *)
Theorem stage_radices_descending fuel zsize threadsPerBlock blocksPerGroup :
  smooth7 zsize -> zsize <= Int32.max_int -> (32 <= fuel)%nat ->
  exists s,
    stage_loop fuel zsize threadsPerBlock blocksPerGroup = Returns s /\
    descending (radices (ls_source s)) /\
    (count_occ Z.eq_dec (radices (ls_source s)) 2%Z <= 1)%nat /\
    Forall (fun r => In r [7; 5; 4; 3; 2]) (radices (ls_source s)).
Proof.
  intros Hs Hmax Hfuel. pose proof Hs as [Hpos _].
  destruct (stage_loop_outcome fuel zsize threadsPerBlock blocksPerGroup Hfuel ltac:(lia))
    as [(_ & s & Es & _ & _ & _ & _ & Hch)|(Hns & _)]; [|contradiction].
  apply chain_rchain in Hch.
  exists s. split; [assumption|].
  split; [eapply rchain_descending; eassumption|].
  split; [eapply rchain_single_two; eassumption|eapply rchain_radices; eassumption].
Qed.

Lemma stage_radices_descending_witness :
  exists s,
    stage_loop 32 2520 1260 1 = Returns s /\
    descending (radices (ls_source s)) /\
    (count_occ Z.eq_dec (radices (ls_source s)) 2%Z <= 1)%nat /\
    Forall (fun r => In r [7; 5; 4; 3; 2]) (radices (ls_source s)).
Proof.
  apply stage_radices_descending.
  - apply smooth7_check; [unfold Int32.max_int; lia|vm_compute; reflexivity].
  - unfold Int32.max_int; lia.
  - lia.
Defined.

(** ** Thread counts *)

(** X11.  The thread count reported for a legal length is a positive
    multiple of [threadsPerBlock] that fits in [int].  When a row fits
    ([threadsPerBlock <= maxThreads]) it is the largest such multiple not
    above [maxThreads]; otherwise it is [threadsPerBlock] itself, above
    [maxThreads]. *)
Theorem thread_count_bounds context fuel xsize ysize zsize axis forward inputIsReal :
  smooth7 zsize -> zsize <= Int32.max_int -> (32 <= fuel)%nat ->
  exists smallest kernel threads,
    getSmallestRadix fuel zsize = Returns smallest /\
    createKernel context fuel xsize ysize zsize axis forward inputIsReal
      = Returns (kernel, threads) /\
    let maxThreads := if getUseDoublePrecision context then 128 else 256 in
    let threadsPerBlock := Z.quot zsize smallest in
    (threadsPerBlock | threads) /\
    1 <= threads <= Int32.max_int /\
    (threadsPerBlock <= maxThreads -> maxThreads - threadsPerBlock < threads <= maxThreads) /\
    (maxThreads < threadsPerBlock -> threads = threadsPerBlock).
Proof.
  intros Hs Hmax Hfuel. pose proof Hs as [Hpos _].
  destruct (legal_kernel_layout context fuel xsize ysize zsize axis forward inputIsReal
              Hs Hmax Hfuel)
    as (smallest & s & Eg & Hsm & Hd & Ek & _ & _ & _ & _ & _ & _ & _ & Htpb & Hbpg & Hprod).
  eexists smallest, _, _. split; [exact Eg|]. split; [exact Ek|]. cbv zeta.
  set (maxThreads := if getUseDoublePrecision context then 128 else 256) in *.
  assert (HmaxT : maxThreads = 128 \/ maxThreads = 256)
    by (subst maxThreads; destruct (getUseDoublePrecision context); auto).
  set (tpb := Z.quot zsize smallest) in *.
  pose proof (Z.quot_rem' maxThreads tpb) as Hqr.
  pose proof (Z.rem_bound_pos maxThreads tpb ltac:(lia) ltac:(lia)) as Hrem.
  pose proof (quot_bounds maxThreads tpb ltac:(lia) ltac:(lia)) as Hq.
  split; [exists (Z.max 1 (Z.quot maxThreads tpb)); reflexivity|].
  split; [unfold Int32.max_int in *; lia|].
  split.
  - intros Hfit. assert (1 <= Z.quot maxThreads tpb) by nia.
    rewrite Z.max_r by lia. nia.
  - intros Hbig. assert (Z.quot maxThreads tpb = 0) by (apply Z.quot_small; lia).
    rewrite Z.max_l by lia. lia.
Qed.

Lemma thread_count_bounds_witness :
  exists smallest kernel threads,
    getSmallestRadix 32 1260 = Returns smallest /\
    createKernel double_precision 32 8 9 1260 0 true false = Returns (kernel, threads) /\
    let maxThreads := if getUseDoublePrecision double_precision then 128 else 256 in
    let threadsPerBlock := Z.quot 1260 smallest in
    (threadsPerBlock | threads) /\
    1 <= threads <= Int32.max_int /\
    (threadsPerBlock <= maxThreads -> maxThreads - threadsPerBlock < threads <= maxThreads) /\
    (maxThreads < threadsPerBlock -> threads = threadsPerBlock).
Proof.
  apply thread_count_bounds.
  - apply smooth7_check; [unfold Int32.max_int; lia|vm_compute; reflexivity].
  - unfold Int32.max_int; lia.
  - lia.
Defined.

(** ** Building plans *)

Lemma half_legal n :
  smooth7 n -> n <= Int32.max_int -> Int32.rem n 2 = 0 ->
  smooth7 (Int32.div n 2) /\ 1 <= Int32.div n 2 <= Int32.max_int.
Proof.
  intros Hs Hmax He. pose proof Hs as [Hpos _].
  assert (Hd : (2 | n)) by (apply Z.rem_divide; [lia|exact He]).
  pose proof (quot_lt_of_divide n 2 ltac:(lia) ltac:(lia) Hd).
  rewrite div_exact; [|lia|unfold Int32.in_range, Int32.min_int, Int32.max_int in *; lia|lia].
  split; [apply smooth7_quot; [assumption|lia|assumption]|lia].
Qed.

Lemma choosePacking_legal xs ys zs realToComplex :
  smooth7 xs -> smooth7 ys -> smooth7 zs ->
  xs <= Int32.max_int -> ys <= Int32.max_int -> zs <= Int32.max_int ->
  let p := choosePacking xs ys zs realToComplex in
  (smooth7 (packedXSize p) /\ 1 <= packedXSize p <= Int32.max_int) /\
  (smooth7 (packedYSize p) /\ 1 <= packedYSize p <= Int32.max_int) /\
  (smooth7 (packedZSize p) /\ 1 <= packedZSize p <= Int32.max_int).
Proof.
  intros Sx Sy Sz Hx Hy Hz.
  pose proof Sx as [Px _]. pose proof Sy as [Py _]. pose proof Sz as [Pz _].
  assert (Kx : smooth7 xs /\ 1 <= xs <= Int32.max_int) by (split; [assumption|lia]).
  assert (Ky : smooth7 ys /\ 1 <= ys <= Int32.max_int) by (split; [assumption|lia]).
  assert (Kz : smooth7 zs /\ 1 <= zs <= Int32.max_int) by (split; [assumption|lia]).
  unfold choosePacking. destruct realToComplex; [|cbn; auto].
  destruct (Z.eqb_spec (Int32.rem xs 2) 0) as [Ex|Ex];
    [cbn; pose proof (half_legal xs Sx Hx Ex); auto|].
  destruct (Z.eqb_spec (Int32.rem ys 2) 0) as [Ey|Ey];
    [cbn; pose proof (half_legal ys Sy Hy Ey); auto|].
  destruct (Z.eqb_spec (Int32.rem zs 2) 0) as [Ez|Ez];
    [cbn; pose proof (half_legal zs Sz Hz Ez); auto|].
  cbn; auto.
Qed.

Lemma choosePacking_flag xs ys zs realToComplex :
  pk_packRealAsComplex (choosePacking xs ys zs realToComplex) =
  realToComplex &&
  ((Z.rem xs 2 =? 0) || (Z.rem ys 2 =? 0) || (Z.rem zs 2 =? 0)).
Proof.
  unfold choosePacking, Int32.rem.
  destruct realToComplex, (Z.rem xs 2 =? 0), (Z.rem ys 2 =? 0), (Z.rem zs 2 =? 0);
    reflexivity.
Qed.

(** X12.  On every grid of three legal [int] sizes the constructor returns
    a plan, for complex and for real-to-complex transforms alike (half of an
    even legal size is legal again).  The plan keeps the three sizes and
    packs exactly when the transform is real-to-complex and some size is
    even. *)
Theorem plan_builds_on_legal_sizes context fuel xs ys zs (realToComplex : bool) :
  smooth7 xs -> smooth7 ys -> smooth7 zs ->
  xs <= Int32.max_int -> ys <= Int32.max_int -> zs <= Int32.max_int ->
  (32 <= fuel)%nat ->
  exists plan,
    new_CudaFFT3D context fuel xs ys zs realToComplex = Returns plan /\
    xsize plan = xs /\ ysize plan = ys /\ zsize plan = zs /\
    packRealAsComplex plan =
      realToComplex &&
      ((Z.rem xs 2 =? 0) || (Z.rem ys 2 =? 0) || (Z.rem zs 2 =? 0)).
Proof.
  intros Sx Sy Sz Hx Hy Hz Hfuel.
  destruct (choosePacking_legal xs ys zs realToComplex Sx Sy Sz Hx Hy Hz)
    as ((Lx & Rx) & (Ly & Ry) & (Lz & Rz)).
  destruct (new_CudaFFT3D_outcome context fuel xs ys zs realToComplex Hfuel Rx Ry Rz)
    as [(_ & _ & _ & plan & E)|(n & Hin & Hn & _)].
  - exists plan. split; [assumption|].
    destruct (new_CudaFFT3D_kernels _ _ _ _ _ _ _ E) as (H1 & H2 & H3 & H4 & _).
    rewrite H4, choosePacking_flag. auto.
  - exfalso. cbn [In] in Hin. destruct Hin as [<-|[<-|[<-|[]]]]; contradiction.
Qed.

Lemma plan_builds_on_legal_sizes_witness :
  exists plan,
    new_CudaFFT3D single_precision 32 7 6 12 true = Returns plan /\
    xsize plan = 7 /\ ysize plan = 6 /\ zsize plan = 12 /\
    packRealAsComplex plan =
      true && ((Z.rem 7 2 =? 0) || (Z.rem 6 2 =? 0) || (Z.rem 12 2 =? 0)).
Proof.
  apply plan_builds_on_legal_sizes;
    first [ lia | unfold Int32.max_int; lia
          | apply smooth7_check; [unfold Int32.max_int; lia|vm_compute; reflexivity] ].
Defined.

(** X13.  When the constructor fails it reports the first illegal size in
    the order in which the kernels are built, Z, then X, then Y, and the
    size named in the message is the packed one: the size the kernel is
    built for, which for the packed axis is half the size passed in. *)
Theorem constructor_reports_first_illegal context fuel xs ys zs (realToComplex : bool) :
  (32 <= fuel)%nat ->
  let p := choosePacking xs ys zs realToComplex in
  1 <= packedXSize p <= Int32.max_int ->
  1 <= packedYSize p <= Int32.max_int ->
  1 <= packedZSize p <= Int32.max_int ->
  (~ smooth7 (packedZSize p) ->
   new_CudaFFT3D context fuel xs ys zs realToComplex = Throws (illegal_size (packedZSize p))) /\
  (smooth7 (packedZSize p) -> ~ smooth7 (packedXSize p) ->
   new_CudaFFT3D context fuel xs ys zs realToComplex = Throws (illegal_size (packedXSize p))) /\
  (smooth7 (packedZSize p) -> smooth7 (packedXSize p) -> ~ smooth7 (packedYSize p) ->
   new_CudaFFT3D context fuel xs ys zs realToComplex = Throws (illegal_size (packedYSize p))).
Proof.
  intros Hfuel p Hx Hy Hz. unfold new_CudaFFT3D. fold p.
  set (real := realToComplex && negb (pk_packRealAsComplex p)).
  destruct (createKernel_cases context fuel (packedXSize p) (packedYSize p) (packedZSize p)
              0 true real Hfuel Hz) as [(Sz & k1 & t1 & E1)|(Nz & E1)]; rewrite E1; cbn [bind].
  2:{ split; [reflexivity|]. split; intros; contradiction. }
  destruct (createKernel_cases context fuel (packedYSize p) (packedZSize p) (packedXSize p)
              1 true real Hfuel Hx) as [(Sx & k2 & t2 & E2)|(Nx & E2)]; rewrite E2; cbn [bind].
  2:{ split; [intros; contradiction|]. split; [reflexivity|intros; contradiction]. }
  destruct (createKernel_cases context fuel (packedZSize p) (packedXSize p) (packedYSize p)
              2 true real Hfuel Hy) as [(Sy & k3 & t3 & E3)|(Ny & E3)]; rewrite E3; cbn [bind].
  2:{ split; [intros; contradiction|]. split; [intros; contradiction|reflexivity]. }
  split; [intros; contradiction|]. split; intros; contradiction.
Qed.

Lemma constructor_reports_first_illegal_witness :
  new_CudaFFT3D single_precision 32 22 8 8 true = Throws (illegal_size 11).
Proof.
  refine (proj1 (proj2 (constructor_reports_first_illegal
                          single_precision 32 22 8 8 true _ _ _ _)) _ _).
  - lia.
  - vm_compute. split; discriminate.
  - vm_compute. split; discriminate.
  - vm_compute. split; discriminate.
  - change (smooth7 8).
    apply smooth7_check; [unfold Int32.max_int; lia|vm_compute; reflexivity].
  - change (~ smooth7 11).
    apply (not_smooth7_check 11 11); [unfold Int32.max_int; lia|vm_compute; reflexivity|lia].
Defined.

(** ** The kernels of a plan *)

(** Two kernels built for the same length share block shape and passes. *)
Lemma createKernel_pair context fuel x y z a f r f' r' k t k' t' :
  createKernel context fuel x y z a f r = Returns (k, t) ->
  createKernel context fuel x y z a f' r' = Returns (k', t') ->
  exists bpg tpb s,
    kernel_replacements k = Some (replacements_of context x y z a f r bpg tpb s) /\
    kernel_replacements k' = Some (replacements_of context x y z a f' r' bpg tpb s) /\
    t = t'.
Proof.
  unfold createKernel.
  destruct (getSmallestRadix fuel z) as [smallest| |]; cbn [bind]; try discriminate.
  match goal with
  | |- context [stage_loop fuel z ?tpb ?bpg] =>
      destruct (stage_loop fuel z tpb bpg) as [s| |]; cbn [bind]; try discriminate;
      intros [= <- <-] [= <- <-]; exists bpg, tpb, s
  end.
  repeat split; reflexivity.
Qed.

Local Open Scope string_scope.

(** X14.  In every plan that was built, each inverse kernel has the passes,
    the sizes and the block shape of the forward kernel of its axis, with
    [SIGN] -1 in place of 1.  The two X kernels always read and write
    complex grids; so do all six kernels unless the plan is a
    real-to-complex one without packing.  In that case alone the forward Z
    kernel reads real input, the forward Y kernel writes the packed
    half-spectrum, the inverse Z kernel reads it and the inverse Y kernel
    writes real output. *)
Theorem plan_kernel_io context fuel xs ys zs (realToComplex : bool) plan :
  new_CudaFFT3D context fuel xs ys zs realToComplex = Returns plan ->
  exists rz rx ry riz rix riy,
    kernel_replacements (zkernel plan) = Some rz /\
    kernel_replacements (xkernel plan) = Some rx /\
    kernel_replacements (ykernel plan) = Some ry /\
    kernel_replacements (invzkernel plan) = Some riz /\
    kernel_replacements (invxkernel plan) = Some rix /\
    kernel_replacements (invykernel plan) = Some riy /\
    (r_SIGN rz = "1" /\ r_SIGN rx = "1" /\ r_SIGN ry = "1" /\
     r_SIGN riz = "-1" /\ r_SIGN rix = "-1" /\ r_SIGN riy = "-1") /\
    (fst (r_COMPUTE_FFT riz) = fst (r_COMPUTE_FFT rz) /\
     fst (r_COMPUTE_FFT rix) = fst (r_COMPUTE_FFT rx) /\
     fst (r_COMPUTE_FFT riy) = fst (r_COMPUTE_FFT ry)) /\
    (r_THREADS_PER_BLOCK riz = r_THREADS_PER_BLOCK rz /\
     r_BLOCKS_PER_GROUP riz = r_BLOCKS_PER_GROUP rz /\
     r_THREADS_PER_BLOCK rix = r_THREADS_PER_BLOCK rx /\
     r_BLOCKS_PER_GROUP rix = r_BLOCKS_PER_GROUP rx /\
     r_THREADS_PER_BLOCK riy = r_THREADS_PER_BLOCK ry /\
     r_BLOCKS_PER_GROUP riy = r_BLOCKS_PER_GROUP ry) /\
    (complex_io rx /\ complex_io rix) /\
    (realToComplex && negb (packRealAsComplex plan) = false ->
     complex_io rz /\ complex_io ry /\ complex_io riz /\ complex_io riy) /\
    (realToComplex && negb (packRealAsComplex plan) = true ->
     (r_INPUT_TYPE rz = "real" /\ r_INPUT_IS_REAL rz = "1" /\ r_OUTPUT_TYPE rz = "real2" /\
      r_OUTPUT_IS_PACKED rz = "0") /\
     (r_INPUT_TYPE ry = "real2" /\ r_OUTPUT_TYPE ry = "real2" /\ r_OUTPUT_IS_PACKED ry = "1") /\
     (r_INPUT_TYPE riz = "real2" /\ r_INPUT_IS_PACKED riz = "1" /\ r_OUTPUT_TYPE riz = "real2") /\
     (r_INPUT_TYPE riy = "real2" /\ r_OUTPUT_TYPE riy = "real" /\ r_OUTPUT_IS_PACKED riy = "0")).
Proof.
  intros E.
  destruct (new_CudaFFT3D_kernels _ _ _ _ _ _ _ E)
    as (_ & _ & _ & Hp & K1 & K2 & K3 & K4 & K5 & K6).
  cbv zeta in *. rewrite <- Hp in *.
  set (real := realToComplex && negb (packRealAsComplex plan)) in *.
  destruct (createKernel_pair _ _ _ _ _ _ _ _ _ _ _ _ _ _ K1 K4) as (b1 & t1 & s1 & R1 & R4 & _).
  destruct (createKernel_pair _ _ _ _ _ _ _ _ _ _ _ _ _ _ K2 K5) as (b2 & t2 & s2 & R2 & R5 & _).
  destruct (createKernel_pair _ _ _ _ _ _ _ _ _ _ _ _ _ _ K3 K6) as (b3 & t3 & s3 & R3 & R6 & _).
  eexists _, _, _, _, _, _.
  split; [exact R1|]. split; [exact R2|]. split; [exact R3|].
  split; [exact R4|]. split; [exact R5|]. split; [exact R6|].
  split; [repeat split; reflexivity|].
  split; [repeat split; reflexivity|].
  split; [repeat split; reflexivity|].
  split; [unfold complex_io; cbn; rewrite !andb_false_r; repeat split; reflexivity|].
  split.
  - intros ->. unfold complex_io. cbn. repeat split; reflexivity.
  - intros ->. cbn. repeat split; reflexivity.
Qed.

Lemma plan_kernel_io_witness :
  exists plan rz,
    new_CudaFFT3D single_precision 32 5 7 9 true = Returns plan /\
    kernel_replacements (zkernel plan) = Some rz /\
    r_INPUT_TYPE rz = "real" /\ r_INPUT_IS_REAL rz = "1".
Proof.
  assert (E : exists plan,
             new_CudaFFT3D single_precision 32 5 7 9 true = Returns plan /\
             packRealAsComplex plan = false)
    by (eexists; split; [vm_compute; reflexivity|reflexivity]).
  destruct E as (plan & E & Hpk).
  destruct (plan_kernel_io single_precision 32 5 7 9 true plan E)
    as (rz & rx & ry & riz & rix & riy & Hz & _ & _ & _ & _ & _ & _ & _ & _ & _ & _ & Hreal).
  exists plan, rz. split; [exact E|]. split; [exact Hz|].
  rewrite Hpk in Hreal. destruct (Hreal eq_refl) as ((H1 & H2 & _) & _). auto.
Defined.

Local Close Scope string_scope.

(** ** Launch sequences *)

(** X15.  Whatever the plan, the launches that [execFFT] appends form one
    chain from the input buffer to the output buffer: the first reads [in],
    each next one reads what the one before wrote, and the last writes
    [out].  There are 5 of them with packing and 3 without, all over the
    same number of elements, and one of them writes [in]: the input buffer
    is used as scratch space and does not survive the call. *)
Theorem execFFT_dataflow plan in_ out (forward : bool) queue :
  exists launches,
    execFFT plan in_ out forward queue = queue ++ launches /\
    List.length launches = (if packRealAsComplex plan then 5 else 3)%nat /\
    chained (Some (getDevicePointer in_)) launches (Some (getDevicePointer out)) /\
    In (Some (getDevicePointer in_)) (map launch_destination launches) /\
    exists elements, Forall (fun l => launch_threads l = elements) launches.
Proof.
  unfold execFFT, executeKernel. destruct (packRealAsComplex plan).
  - eexists [_; _; _; _; _]. rewrite <- !app_assoc. cbn [app].
    split; [reflexivity|]. split; [reflexivity|].
    split; [cbn; auto 10|]. split; [cbn; auto|].
    eexists. repeat constructor.
  - eexists [_; _; _]. rewrite <- !app_assoc. cbn [app].
    split; [reflexivity|]. split; [reflexivity|].
    split; [cbn; auto 10|]. split; [cbn; auto|].
    eexists. repeat constructor.
Qed.

Lemma half_volume prod v :
  Int32.in_range prod -> prod = v * 2 -> Int32.div prod 2 = v.
Proof.
  intros Hr ->. rewrite div2_exact by assumption. apply Z.quot_mul. lia.
Qed.

(** X16.  In a plan that was built, every launch of [execFFT], packed path
    or direct, covers exactly as many elements as the grid the axis kernels
    were built for: the product of the three packed sizes (as long as the
    product of the three sizes fits in [int]). *)
Theorem launches_cover_packed_grid context fuel xs ys zs (realToComplex : bool) plan
    in_ out (forward : bool) :
  new_CudaFFT3D context fuel xs ys zs realToComplex = Returns plan ->
  Int32.in_range xs -> Int32.in_range ys -> Int32.in_range zs ->
  Int32.in_range (xs * ys) -> Int32.in_range (xs * ys * zs) ->
  let p := choosePacking xs ys zs realToComplex in
  Forall (fun l => launch_threads l = packedXSize p * packedYSize p * packedZSize p)
         (execFFT plan in_ out forward []).
Proof.
  intros E Hx Hy Hz Hxy Hxyz.
  destruct (new_CudaFFT3D_kernels _ _ _ _ _ _ _ E) as (H1 & H2 & H3 & Hp & _).
  cbv zeta. unfold execFFT, executeKernel. rewrite H1, H2, H3, Hp.
  rewrite mul3_exact by assumption. cbn [app].
  unfold choosePacking. destruct realToComplex;
    [|cbn; repeat constructor].
  destruct (Z.eqb_spec (Int32.rem xs 2) 0) as [Ex|Ex].
  { cbn. pose proof (half_of_even xs Hx Ex) as Hh.
    rewrite (half_volume (xs * ys * zs) (Int32.div xs 2 * ys * zs)) by (assumption || lia).
    repeat constructor. }
  destruct (Z.eqb_spec (Int32.rem ys 2) 0) as [Ey|Ey].
  { cbn. pose proof (half_of_even ys Hy Ey) as Hh.
    rewrite (half_volume (xs * ys * zs) (xs * Int32.div ys 2 * zs)) by (assumption || lia).
    repeat constructor. }
  destruct (Z.eqb_spec (Int32.rem zs 2) 0) as [Ez|Ez].
  { cbn. pose proof (half_of_even zs Hz Ez) as Hh.
    rewrite (half_volume (xs * ys * zs) (xs * ys * Int32.div zs 2)) by (assumption || lia).
    repeat constructor. }
  cbn. repeat constructor.
Qed.

Lemma launches_cover_packed_grid_witness :
  exists plan,
    new_CudaFFT3D single_precision 32 5 6 7 true = Returns plan /\
    Forall (fun l => launch_threads l = 5 * 3 * 7)
           (execFFT plan buffer_a buffer_b true []).
Proof.
  eexists. split; [vm_compute; reflexivity|].
  refine (launches_cover_packed_grid single_precision 32 5 6 7 true _
            buffer_a buffer_b true _ _ _ _ _ _);
    first [ vm_compute; reflexivity
          | unfold Int32.in_range, Int32.min_int, Int32.max_int; lia ].
Defined.

(** ** Handles (CudaFunctionFake.h) *)

Lemma add_all_fields ptrs :
  forall f,
    func_ptrs (add_all f ptrs) = func_ptrs f ++ ptrs /\
    func_ptr (add_all f ptrs) = func_ptr f /\
    hasMultiple (add_all f ptrs) =
      hasMultiple f || match ptrs with [] => false | _ :: _ => true end.
Proof.
  unfold add_all. induction ptrs as [|p ptrs IH]; intros f; cbn [fold_left].
  - rewrite app_nil_r, orb_false_r. auto.
  - destruct (IH (Fake.addFunction f p)) as (H1 & H2 & H3).
    rewrite H1, H2, H3. cbn [Fake.addFunction func_ptrs func_ptr hasMultiple].
    rewrite <- app_assoc, orb_true_r. cbn [app orb]. auto.
Qed.

(** X17.  A handle keeps the functions added to it in the order of the
    [addFunction] calls, after those it already had; adding never changes
    the primary pointer, and assigning a new primary pointer never changes
    the added functions or the flag.  [hasMultipleFunctions] is true as soon
    as one function has been added, so on a handle as [getKernel] makes it
    (one primary pointer, nothing added) it is false and [getFunctions] is
    empty: the primary pointer is not among the functions. *)
Theorem handle_functions f p ptrs module name :
  Fake.getFunctions (add_all f ptrs) = Fake.getFunctions f ++ ptrs /\
  func_ptr (add_all f ptrs) = func_ptr f /\
  Fake.hasMultipleFunctions (add_all f ptrs) =
    Fake.hasMultipleFunctions f || match ptrs with [] => false | _ :: _ => true end /\
  Fake.getFunctions (add_all (Fake.assign f p) ptrs) = Fake.getFunctions f ++ ptrs /\
  Fake.hasMultipleFunctions (Fake.assign (add_all f ptrs) p) =
    Fake.hasMultipleFunctions (add_all f ptrs) /\
  func_ptr (Fake.assign (add_all f ptrs) p) = Some p /\
  Fake.getFunctions (add_all (getKernel module name) ptrs) = ptrs /\
  Fake.hasMultipleFunctions (getKernel module name) = false /\
  Fake.getFunctions Fake.default = [] /\ func_ptr Fake.default = None.
Proof.
  unfold Fake.getFunctions, Fake.hasMultipleFunctions.
  destruct (add_all_fields ptrs f) as (H1 & H2 & H3).
  destruct (add_all_fields ptrs (Fake.assign f p)) as (A1 & _ & _).
  destruct (add_all_fields ptrs (getKernel module name)) as (G1 & _ & _).
  repeat split; try assumption; reflexivity.
Qed.
